(** * Detection and correlation engine of log_detective

    A shallow embedding of the three detectors
    ([detectors/impossible_travel.py], [detectors/fail_success_chain.py],
    [detectors/new_device_ua.py]), of the scoring module ([scoring.py]) and of
    the correlation engine ([correlate.py]), together with the properties the
    specification states about them.

    Conventions of the embedding:
    - a [datetime] is the integer number of microseconds since a fixed
      origin (type [Z]) and a [timedelta] is a number of microseconds; the
      timestamps are totally ordered, as the data model requires, and
      arithmetic on them is exact and unbounded (the [OverflowError] of a
      date outside the years 1 to 9999 is not modelled);
    - a Python [float] is the rational it denotes (type [Q]); the rounding
      performed by each floating-point operation is the function [fl] of the
      runtime;
    - a Python [set] of strings is the list of its elements in iteration
      order; that order is chosen by the runtime ([set_order]);
    - an exception is the value [None] of an [option]; a function that cannot
      raise has a plain result type. *)

From Stdlib Require Import ZArith QArith Qround Qabs String Ascii List Lia.
From stdpp Require Import base tactics option list sorting gmap strings pretty.

Set Warnings "-clear-no-such-hyp".

Local Open Scope string_scope.
Local Open Scope list_scope.
Local Open Scope Z_scope.

(** ** Python values stored in an evidence mapping *)

(** A [float]: a finite number, an infinity of either sign, or a NaN. *)
Inductive float_value :=
| FFinite (q : Q)
| FInfinite (positive : bool)
| FNaN.

Inductive pyval :=
| VNone
| VBool (b : bool)
| VInt (z : Z)
| VFloat (x : float_value)
| VStr (s : string)
| VStrs (l : list string).

(** Truth value of an object, as [if v:] and [and]/[or]/[not] test it. *)
Definition truthy (v : pyval) : bool :=
  match v with
  | VNone => false
  | VBool b => b
  | VInt z => negb (z =? 0)
  | VFloat (FFinite q) => negb (Qeq_bool q 0)
  | VFloat _ => true
  | VStr s => negb (String.eqb s "")
  | VStrs l => match l with [] => false | _ => true end
  end.

(** [v >= n] for an integer [n]: booleans compare as 0 and 1, a float
    compares by its exact value (a NaN is not greater than or equal to
    anything), every operand that is not a number raises [TypeError]. *)
Definition py_ge_int (v : pyval) (n : Z) : option bool :=
  match v with
  | VInt z => Some (n <=? z)
  | VBool b => Some (n <=? Z.b2z b)
  | VFloat (FFinite q) => Some (Qle_bool (inject_Z n) q)
  | VFloat (FInfinite positive) => Some positive
  | VFloat FNaN => Some false
  | VNone | VStr _ | VStrs _ => None
  end.

(** Truth value of an optional string ([None] and [""] are false). *)
Definition truthy_str (o : option string) : bool :=
  match o with
  | Some s => negb (String.eqb s "")
  | None => false
  end.

(** ** Data model *)

(** Modelled from the spec: the record [AuthEvent] of [log_detective.schema]
    (section 3, Data model); the fields no detector reads ([provider],
    [action], [auth_method], [raw]) are left out. *)
Module AuthEvent.
Record t := mk {
  event_id : string;
  ts : Z;
  user : string;
  source_ip : string;
  country : option string;
  city : option string;
  lat : option Q;
  lon : option Q;
  user_agent : option string;
  device_id : option string;
  result : string;
  failure_reason : option string
}.
End AuthEvent.
Abbreviation AuthEvent := AuthEvent.t.

(** Modelled from the spec: the evidence mapping of an alert. The
    standardized keys hold collections of strings and may be absent (the
    correlation engine reads them with a default); every other key holds a
    loosely typed value. Keys whose value is a float or a formatted
    timestamp are left out: neither scoring nor correlation reads them. *)
Module Evidence.
Record t := mk {
  ips : option (list string);
  device_ids : option (list string);
  countries : option (list string);
  extra : gmap string pyval
}.
(** [evidence.get(key, dflt)] for a detector-specific key. *)
Definition get (e : t) (key : string) (dflt : pyval) : pyval :=
  default dflt (extra e !! key).
End Evidence.
Abbreviation Evidence := Evidence.t.

(** Modelled from the spec: the record [Alert] of [log_detective.schema];
    [alert_id] (a random identifier), [title], [description] and [mitre] are
    left out, no function of the engine reads them. *)
Module Alert.
Record t := mk {
  detector : string;
  ts_start : Z;
  ts_end : Z;
  user : string;
  severity : string;
  score : Z;
  evidence : Evidence;
  related_event_ids : list string
}.
End Alert.
Abbreviation Alert := Alert.t.

(** Modelled from the spec: the record [Case] of [log_detective.schema]. *)
Module Case.
Record t := mk {
  case_id : string;
  user : string;
  ts_start : Z;
  ts_end : Z;
  alerts : list Alert;
  overall_severity : string;
  overall_score : Z;
  summary : string;
  recommended_actions : list string;
  timeline : list AuthEvent
}.
End Case.
Abbreviation Case := Case.t.

(** ** The runtime

    What the interpreter and the third-party packages decide: the iteration
    order of a set, the rounding of floating-point results, the number of
    microseconds of [timedelta(hours=h)] for a float [h], the great-circle
    distance of the [haversine] package and the classification of a
    user-agent string ([_get_ua_family], which defers to the optional
    [user_agents] package). *)
Class PyRuntime := {
  set_order : list string → list string;
  set_order_NoDup l : NoDup (set_order l);
  set_order_elem l x : x ∈ set_order l ↔ x ∈ l;
  fl : Q → Q;
  timedelta_hours : Q → Z;
  haversine : Q * Q → Q * Q → Q;
  _get_ua_family : option string → string
}.

(** ** Built-ins *)

Section Builtins.
Context {A : Type}.

(** [list.sort] and [sorted] are stable: an element moves in front of the
    sorted rest exactly as far as the elements whose key is smaller. *)
Fixpoint sort_insert (le : A → A → bool) (x : A) (l : list A) : list A :=
  match l with
  | [] => [x]
  | y :: l' => if le x y then x :: y :: l' else y :: sort_insert le x l'
  end.

Fixpoint sort_by (le : A → A → bool) (l : list A) : list A :=
  match l with
  | [] => []
  | x :: l' => sort_insert le x (sort_by le l')
  end.

(** A [dict] with string keys, as the list of its items in insertion
    order. [dict_get] is [d.get(k)]. *)
Fixpoint dict_get (k : string) (d : list (string * A)) : option A :=
  match d with
  | [] => None
  | (k', v) :: d' => if bool_decide (k = k') then Some v else dict_get k d'
  end.

(** [d[k] = f(d[k])] on a [defaultdict] whose missing values are [dflt]: a
    new key goes to the end, a known key keeps its place. *)
Fixpoint dict_upd (dflt : A) (f : A → A) (k : string)
    (d : list (string * A)) : list (string * A) :=
  match d with
  | [] => [(k, f dflt)]
  | (k', v) :: d' =>
      if bool_decide (k = k') then (k', f v) :: d'
      else (k', v) :: dict_upd dflt f k d'
  end.
End Builtins.

(** [d[k].append(v)] on a [defaultdict(list)] and the grouping loop
    [for x in l: d[key(x)].append(x)]. *)
Definition dict_append {A} (k : string) (v : A) (d : list (string * list A))
  : list (string * list A) :=
  dict_upd [] (λ vs, vs ++ [v]) k d.

Definition group_by {A} (key : A → string) (l : list A)
  : list (string * list A) :=
  fold_left (λ d x, dict_append (key x) x d) l [].

(** [d[k] += 1] on a [defaultdict(int)]. *)
Definition dict_incr (k : string) (d : list (string * Z)) : list (string * Z) :=
  dict_upd 0 (λ n, n + 1) k d.

(** [max(xs)] of a non-empty list of integers, [min(xs)] likewise. *)
Definition py_max (x : Z) (xs : list Z) : Z := fold_left Z.max xs x.
Definition py_min (x : Z) (xs : list Z) : Z := fold_left Z.min xs x.

(** The comparison [key(a) <= key(b)] a sort on an integer key uses. *)
Definition key_le {A} (key : A → Z) (a b : A) : bool := key a <=? key b.

(** Membership test [x in s] and the test [s1 & s2] for a common element. *)
Definition mem (x : string) (s : list string) : bool := bool_decide (x ∈ s).
Definition intersects (s1 s2 : list string) : bool :=
  existsb (λ x, mem x s2) s1.

(** ** scoring.py *)

Module scoring.

Definition BASE_SCORES : gmap string Z :=
  list_to_map [("low", 25); ("medium", 50); ("high", 75); ("critical", 95)].

Definition get_base_score (severity : string) : Z :=
  default 25 (BASE_SCORES !! severity).

Definition severity_from_score (score : Z) : string :=
  if 90 <=? score then "critical"
  else if 70 <=? score then "high"
  else if 40 <=? score then "medium"
  else "low".

(** The loop over the alerts that looks for the two +10 patterns. Either
    pattern adds 10 and leaves the loop ([break]). *)
Fixpoint pattern_bonus (alerts : list Alert) (bonus : Z) : option Z :=
  match alerts with
  | [] => Some bonus
  | alert :: rest =>
      let evidence := Alert.evidence alert in
      hit ←
        (if bool_decide (Alert.detector alert = "fail_success_chain") then
           py_ge_int (Evidence.get evidence "failure_count" (VInt 0)) 10
         else Some false);
      if hit : bool then Some (bonus + 10)
      else
        if bool_decide (Alert.detector alert = "new_device_ua") then
          let is_new_device :=
            Evidence.get evidence "is_new_device" (VBool false) in
          let is_new_country :=
            Evidence.get evidence "is_new_country" (VBool false) in
          if truthy is_new_device && truthy is_new_country
          then Some (bonus + 10)
          else pattern_bonus rest bonus
        else pattern_bonus rest bonus
  end.

Definition calculate_case_score `{PyRuntime} (alerts : list Alert)
  : option (Z * string) :=
  match alerts with
  | [] => Some (0, "low")
  | a0 :: rest =>
      let base_score :=
        py_max (get_base_score (Alert.severity a0))
               (get_base_score ∘ Alert.severity <$> rest) in
      let detector_types := set_order (Alert.detector <$> alerts) in
      let bonus :=
        if decide (1 < length detector_types)%nat then 15 else 0 in
      bonus ← pattern_bonus alerts bonus;
      let final_score := Z.min 100 (base_score + bonus) in
      Some (final_score, severity_from_score final_score)
  end.

End scoring.

(** The table [score_map] both [_create_alert] functions and
    [_check_for_anomaly] index with a severity they have just computed. *)
Definition score_map : gmap string Z :=
  list_to_map [("low", 25); ("medium", 50); ("high", 75); ("critical", 95)].

(** ** detectors/fail_success_chain.py *)

Module fail_success_chain.

(** [timedelta(minutes=n)], in microseconds. *)
Definition minutes (n : Z) : Z := n * 60000000.

(** The backward scan [for j in range(i - 1, -1, -1)] over the events that
    precede the success, most recent first: it stops at the first event
    older than the window and keeps the failures. *)
Fixpoint scan_back (window_start : Z) (prevs : list AuthEvent)
  : list AuthEvent :=
  match prevs with
  | [] => []
  | prev_event :: older =>
      if AuthEvent.ts prev_event <? window_start then []
      else if bool_decide (AuthEvent.result prev_event = "failure")
           then prev_event :: scan_back window_start older
           else scan_back window_start older
  end.

(** The tally [ip_counts[f.source_ip] += 1]. *)
Definition count_ips (failures : list AuthEvent) : list (string * Z) :=
  fold_left (λ d f, dict_incr (AuthEvent.source_ip f) d) failures [].

(** [max(ip_counts.values()) if ip_counts else 0]. *)
Definition max_count (ip_counts : list (string * Z)) : Z :=
  match ip_counts.*2 with
  | [] => 0
  | n :: ns => py_max n ns
  end.

Definition _create_alert `{PyRuntime} (user : string)
    (failures : list AuthEvent) (success : AuthEvent)
    (ip_counts : list (string * Z)) (attack_type : string)
    (threshold_used : Z) : option Alert :=
  let total_failures := Z.of_nat (length failures) in
  let distinct_ips := Z.of_nat (length ip_counts) in
  let max_same_ip := max_count ip_counts in
  let severity :=
    if bool_decide (attack_type = "same_ip") && (12 <=? max_same_ip)
    then "high"
    else if threshold_used <=? total_failures then "medium"
    else "low" in
  let score := score_map !!! severity in
  let score :=
    if 10 <=? total_failures then Z.min 100 (score + 10) else score in
  let failures_sorted := sort_by (key_le AuthEvent.ts) failures in
  (* failures_sorted[0] and failures_sorted[-1]: IndexError when empty *)
  first_failure ← head failures_sorted;
  last_failure ← last failures_sorted;
  let all_ips := set_order (ip_counts.*1 ++ [AuthEvent.source_ip success]) in
  let device_ids :=
    set_order (omap AuthEvent.device_id (failures ++ [success])) in
  let countries :=
    set_order (omap AuthEvent.country (failures ++ [success])) in
  let related_ids :=
    (AuthEvent.event_id <$> failures) ++ [AuthEvent.event_id success] in
  (* the description of a same_ip alert reads list(ip_counts.keys())[0] *)
  _ ← (if bool_decide (attack_type = "same_ip")
       then head ip_counts.*1 else Some "");
  Some {|
    Alert.detector := "fail_success_chain";
    Alert.ts_start := AuthEvent.ts first_failure;
    Alert.ts_end := AuthEvent.ts success;
    Alert.user := user;
    Alert.severity := severity;
    Alert.score := score;
    Alert.evidence := {|
      Evidence.ips := Some all_ips;
      Evidence.device_ids := Some device_ids;
      Evidence.countries := Some countries;
      Evidence.extra := list_to_map [
        ("failure_count", VInt total_failures);
        ("distinct_ips", VInt distinct_ips);
        ("max_same_ip_failures", VInt max_same_ip);
        ("attack_type", VStr attack_type);
        ("threshold_used", VInt threshold_used);
        ("success_ip", VStr (AuthEvent.source_ip success))
      ]
    |};
    Alert.related_event_ids := related_ids
  |}.

(** The body of the loop over one user's sorted events, for the event
    [event] at index [i]; [prevs] is [user_evts[:i]]. The result is the
    alert to append, if any. *)
Definition check_event `{PyRuntime} (window_minutes min_failures_same_ip
    min_failures_multi_ip : Z) (user : string) (prevs : list AuthEvent)
    (event : AuthEvent) : option (option Alert) :=
  if negb (bool_decide (AuthEvent.result event = "success")) then Some None
  else
    let window_start := AuthEvent.ts event - minutes window_minutes in
    let failures := scan_back window_start (reverse prevs) in
    match failures with
    | [] => Some None
    | _ :: _ =>
        let ip_counts := count_ips failures in
        let total_failures := Z.of_nat (length failures) in
        let max_same_ip_failures := max_count ip_counts in
        if min_failures_same_ip <=? max_same_ip_failures then
          Some <$> _create_alert user failures event ip_counts
                     "same_ip" min_failures_same_ip
        else if min_failures_multi_ip <=? total_failures then
          Some <$> _create_alert user failures event ip_counts
                     "multi_ip" min_failures_multi_ip
        else Some None
    end.

(** One user's share of the outer loop: sort, then visit every event. *)
Definition detect_user `{PyRuntime} (window_minutes min_failures_same_ip
    min_failures_multi_ip : Z) (user : string) (user_evts : list AuthEvent)
  : option (list Alert) :=
  let user_evts := sort_by (key_le AuthEvent.ts) user_evts in
  found ← mapM id (imap (λ i event,
             check_event window_minutes min_failures_same_ip
               min_failures_multi_ip user (take i user_evts) event)
           user_evts);
  Some (omap id found).

Definition detect_fail_success_chain `{PyRuntime} (events : list AuthEvent)
    (window_minutes min_failures_same_ip min_failures_multi_ip : Z)
  : option (list Alert) :=
  let user_events := group_by AuthEvent.user events in
  per_user ← mapM (λ '(user, user_evts),
                detect_user window_minutes min_failures_same_ip
                  min_failures_multi_ip user user_evts) user_events;
  Some (concat per_user).

End fail_success_chain.

(** ** detectors/impossible_travel.py *)

(** A float result that may be [float("inf")]. *)
Inductive pyfloat :=
| Finite (q : Q)
| Infinity.

Definition Qgt_bool (a b : Q) : bool := negb (Qle_bool a b).
Definition Qlt_bool (a b : Q) : bool := negb (Qle_bool b a).

(** [x > q] for a finite [q]. *)
Definition pyfloat_gt (x : pyfloat) (q : Q) : bool :=
  match x with
  | Finite p => Qgt_bool p q
  | Infinity => true
  end.

Module impossible_travel.

(** An event that passed the filter [e.lat is not None and e.lon is not
    None], with the coordinates the filter found. *)
Definition located : Type := AuthEvent * (Q * Q).

Definition locate (e : AuthEvent) : option located :=
  if bool_decide (AuthEvent.result e = "success") then
    match AuthEvent.lat e, AuthEvent.lon e with
    | Some la, Some lo => Some (e, (la, lo))
    | _, _ => None
    end
  else None.

(** [(event2.ts - event1.ts).total_seconds() / 3600]: the difference in
    microseconds, divided by 10**6 and then by 3600, each division
    rounded. *)
Definition hours_between `{PyRuntime} (ts1 ts2 : Z) : Q :=
  fl (fl (inject_Z (ts2 - ts1) / 1000000) / 3600).

Definition _create_alert `{PyRuntime} (event1 event2 : AuthEvent)
    (distance_km hours_between : Q) (speed_kmh : pyfloat) : Alert :=
  let severity :=
    if pyfloat_gt speed_kmh 2000 && Qlt_bool hours_between 2 then "critical"
    else if pyfloat_gt speed_kmh 900 && Qlt_bool hours_between 6 then "high"
    else "medium" in
  let score := score_map !!! severity in
  let ips :=
    set_order [AuthEvent.source_ip event1; AuthEvent.source_ip event2] in
  let device_ids := set_order (omap AuthEvent.device_id [event1; event2]) in
  let countries := set_order (omap AuthEvent.country [event1; event2]) in
  {|
    Alert.detector := "impossible_travel";
    Alert.ts_start := Z.min (AuthEvent.ts event1) (AuthEvent.ts event2);
    Alert.ts_end := Z.max (AuthEvent.ts event1) (AuthEvent.ts event2);
    Alert.user := AuthEvent.user event1;
    Alert.severity := severity;
    Alert.score := score;
    Alert.evidence := {|
      Evidence.ips := Some ips;
      Evidence.device_ids := Some device_ids;
      Evidence.countries := Some countries;
      Evidence.extra := ∅
    |};
    Alert.related_event_ids :=
      [AuthEvent.event_id event1; AuthEvent.event_id event2]
  |}.

(** The body of the loop over consecutive pairs. *)
Definition check_pair `{PyRuntime} (speed_threshold_kmh max_hours : Q)
    (pair : located * located) : option Alert :=
  let '((event1, loc1), (event2, loc2)) := pair in
  let time_delta := hours_between (AuthEvent.ts event1) (AuthEvent.ts event2) in
  if Qgt_bool time_delta max_hours || Qle_bool time_delta 0 then None
  else
    let distance_km := haversine loc1 loc2 in
    let speed_kmh :=
      if Qgt_bool time_delta 0 then Finite (fl (distance_km / time_delta))
      else Infinity in
    if pyfloat_gt speed_kmh speed_threshold_kmh then
      Some (_create_alert event1 event2 distance_km time_delta speed_kmh)
    else None.

(** The pairs [(user_evts[i], user_evts[i + 1])]. *)
Definition consecutive_pairs {A} (l : list A) : list (A * A) :=
  zip l (tail l).

Definition detect_user `{PyRuntime} (speed_threshold_kmh max_hours : Q)
    (user_evts : list located) : list Alert :=
  let user_evts := sort_by (key_le (AuthEvent.ts ∘ fst)) user_evts in
  omap (check_pair speed_threshold_kmh max_hours)
       (consecutive_pairs user_evts).

Definition detect_impossible_travel `{PyRuntime} (events : list AuthEvent)
    (speed_threshold_kmh max_hours : Q) : list Alert :=
  let success_events := omap locate events in
  let user_events := group_by (AuthEvent.user ∘ fst) success_events in
  concat ((λ '(user, user_evts),
             detect_user speed_threshold_kmh max_hours user_evts)
          <$> user_events).

End impossible_travel.

(** ** detectors/new_device_ua.py *)

Module new_device_ua.

Record DeviceBaseline := {
  device_ids : list string;
  ua_families : list string;
  countries : list string;
  last_seen : option Z
}.

(** [event.device_id and event.device_id not in baseline.device_ids]: the
    value is the device id itself when that is [None] or empty. *)
Definition is_new_device (event : AuthEvent) (baseline : DeviceBaseline)
  : pyval :=
  match AuthEvent.device_id event with
  | None => VNone
  | Some d =>
      if String.eqb d "" then VStr d
      else VBool (negb (mem d (device_ids baseline)))
  end.

(** The family found new, if any ([new_ua_family]); [is_new_ua_family] is
    whether there is one. *)
Definition new_ua_family `{PyRuntime} (event : AuthEvent)
    (baseline : DeviceBaseline) : option string :=
  if truthy_str (AuthEvent.user_agent event)
     && truthy (VStrs (ua_families baseline)) then
    let current_family := _get_ua_family (AuthEvent.user_agent event) in
    if truthy (VStr current_family)
       && negb (mem current_family (ua_families baseline))
    then Some current_family
    else None
  else None.

Definition is_new_ua_family `{PyRuntime} (event : AuthEvent)
    (baseline : DeviceBaseline) : bool :=
  bool_decide (is_Some (new_ua_family event baseline)).

(** [event.country is not None and baseline.countries and event.country
    not in baseline.countries]: the value is the empty set when the
    baseline knows no country. *)
Definition is_new_country (event : AuthEvent) (baseline : DeviceBaseline)
  : pyval :=
  match AuthEvent.country event with
  | None => VBool false
  | Some c =>
      match countries baseline with
      | [] => VStrs []
      | _ :: _ => VBool (negb (mem c (countries baseline)))
      end
  end.

Definition option_to_pyval (o : option string) : pyval :=
  match o with
  | Some s => VStr s
  | None => VNone
  end.

Definition _check_for_anomaly `{PyRuntime} (event : AuthEvent)
    (baseline : DeviceBaseline) (user : string) : option Alert :=
  let is_new_device := is_new_device event baseline in
  let is_new_ua_family := is_new_ua_family event baseline in
  let is_new_country := is_new_country event baseline in
  if negb (truthy is_new_device) && negb is_new_ua_family then None
  else
    let severity :=
      if (truthy is_new_device || is_new_ua_family) && truthy is_new_country
      then "high" else "medium" in
    let score := score_map !!! severity in
    let score :=
      if truthy is_new_device && truthy is_new_country
      then Z.min 100 (score + 10) else score in
    Some {|
      Alert.detector := "new_device_ua";
      Alert.ts_start := AuthEvent.ts event;
      Alert.ts_end := AuthEvent.ts event;
      Alert.user := user;
      Alert.severity := severity;
      Alert.score := score;
      Alert.evidence := {|
        Evidence.ips := Some [AuthEvent.source_ip event];
        Evidence.device_ids :=
          Some (if truthy_str (AuthEvent.device_id event)
                then option_list (AuthEvent.device_id event) else []);
        Evidence.countries :=
          Some (if truthy_str (AuthEvent.country event)
                then option_list (AuthEvent.country event) else []);
        Evidence.extra := list_to_map [
          ("is_new_device", is_new_device);
          ("is_new_ua_family", VBool is_new_ua_family);
          ("is_new_country", is_new_country);
          ("new_device_id", option_to_pyval (AuthEvent.device_id event));
          ("new_ua", option_to_pyval (AuthEvent.user_agent event));
          ("new_ua_family",
             option_to_pyval (new_ua_family event baseline));
          ("known_devices_count",
             VInt (Z.of_nat (length (device_ids baseline))));
          ("known_ua_families", VStrs (ua_families baseline));
          ("known_countries", VStrs (countries baseline))
        ]
      |};
      Alert.related_event_ids := [AuthEvent.event_id event]
    |}.

Definition empty_baseline : DeviceBaseline :=
  {| device_ids := []; ua_families := []; countries := [];
     last_seen := None |}.

(** The alert one step of the walk appends, if any: only a success is
    checked, and only against a baseline that knows a device. *)
Definition step_alert `{PyRuntime} (user : string)
    (baseline : DeviceBaseline) (event : AuthEvent) : option Alert :=
  if bool_decide (AuthEvent.result event = "success") then
    if truthy (VStrs (device_ids baseline))
    then _check_for_anomaly event baseline user
    else None
  else None.

(** The baseline after one step: an event that carries a device id adds
    its device id, its UA family and its country. *)
Definition update_baseline `{PyRuntime} (baseline : DeviceBaseline)
    (event : AuthEvent) : DeviceBaseline :=
  match AuthEvent.device_id event with
  | Some d =>
      if truthy (VStr d) then
        {| device_ids := set_order (device_ids baseline ++ [d]);
           ua_families :=
             set_order (ua_families baseline
                          ++ [_get_ua_family (AuthEvent.user_agent event)]);
           countries :=
             set_order (countries baseline
                          ++ (if truthy_str (AuthEvent.country event)
                              then option_list (AuthEvent.country event)
                              else []));
           last_seen := Some (AuthEvent.ts event) |}
      else baseline
  | None => baseline
  end.

(** The walk over one user's events, carrying the baseline. *)
Fixpoint walk `{PyRuntime} (user : string) (baseline : DeviceBaseline)
    (user_evts : list AuthEvent) : list Alert :=
  match user_evts with
  | [] => []
  | event :: rest =>
      option_list (step_alert user baseline event)
        ++ walk user (update_baseline baseline event) rest
  end.

Definition detect_new_device `{PyRuntime} (events : list AuthEvent)
    (lookback_days : Z) : list Alert :=
  let sorted_events := sort_by (key_le AuthEvent.ts) events in
  match sorted_events with
  | [] => []
  | _ :: _ =>
      let user_events := group_by AuthEvent.user sorted_events in
      concat ((λ '(user, user_evts), walk user empty_baseline user_evts)
              <$> user_events)
  end.

End new_device_ua.

(** ** detectors/__init__.py *)

Module detectors.

Definition run_all_detectors `{PyRuntime} (events : list AuthEvent)
    (speed_threshold_kmh max_travel_hours : Q)
    (failure_window_minutes min_failures_same_ip min_failures_multi_ip
       device_lookback_days : Z) : option (list Alert) :=
  let travel :=
    impossible_travel.detect_impossible_travel events speed_threshold_kmh
      max_travel_hours in
  chains ←
    fail_success_chain.detect_fail_success_chain events
      failure_window_minutes min_failures_same_ip min_failures_multi_ip;
  let devices :=
    new_device_ua.detect_new_device events device_lookback_days in
  Some (travel ++ chains ++ devices).

End detectors.

(** ** correlate.py *)

(** [s.upper()] on the ASCII letters (the severities are ASCII words). *)
Definition upper_ascii (c : ascii) : ascii :=
  let n := nat_of_ascii c in
  if decide (97 ≤ n ≤ 122)%nat then ascii_of_nat (n - 32) else c.

Fixpoint upper (s : string) : string :=
  match s with
  | EmptyString => EmptyString
  | String c s' => String (upper_ascii c) (upper s')
  end.

Module correlate.

Definition _share_indicators (alert1 alert2 : Alert) : bool :=
  let ips1 := default [] (Evidence.ips (Alert.evidence alert1)) in
  let ips2 := default [] (Evidence.ips (Alert.evidence alert2)) in
  let device_ids1 :=
    default [] (Evidence.device_ids (Alert.evidence alert1)) in
  let device_ids2 :=
    default [] (Evidence.device_ids (Alert.evidence alert2)) in
  if intersects ips1 ips2 then true
  else if intersects device_ids1 device_ids2 then true
  else false.

(** The inner loop [for existing in current_group], which sets
    [should_merge] and leaves at the first member that is close in time or
    shares an indicator. *)
Fixpoint should_merge (window : Z) (alert : Alert)
    (current_group : list Alert) : bool :=
  match current_group with
  | [] => false
  | existing :: others =>
      if Alert.ts_start alert <=? Alert.ts_end existing + window then true
      else if _share_indicators alert existing then true
      else should_merge window alert others
  end.

(** The loop [for alert in alerts[1:]], carrying the closed groups and the
    open one; the open group is closed when the loop ends. *)
Fixpoint merge_loop (window : Z) (groups : list (list Alert))
    (current_group : list Alert) (alerts : list Alert)
  : list (list Alert) :=
  match alerts with
  | [] => groups ++ [current_group]
  | alert :: rest =>
      if should_merge window alert current_group
      then merge_loop window groups (current_group ++ [alert]) rest
      else merge_loop window (groups ++ [current_group]) [alert] rest
  end.

Definition _merge_alerts_into_cases `{PyRuntime} (user : string)
    (alerts : list Alert) (window_hours : Q) : list (list Alert) :=
  match alerts with
  | [] => []
  | first :: rest => merge_loop (timedelta_hours window_hours) [] [first] rest
  end.

Definition _build_timeline `{PyRuntime} (alerts : list Alert)
    (event_index : gmap string AuthEvent) : list AuthEvent :=
  let event_ids := set_order (concat (Alert.related_event_ids <$> alerts)) in
  let events := omap (λ event_id, event_index !! event_id) event_ids in
  sort_by (key_le AuthEvent.ts) events.

Definition detector_names : gmap string string :=
  list_to_map [
    ("impossible_travel", "impossible travel patterns");
    ("fail_success_chain", "brute force/credential stuffing attempts");
    ("new_device_ua", "new device anomalies")
  ].

(** [", ".join(ds[:-1]) + " and " + ds[-1]], or the only description, or
    the fixed text when there is none. *)
Definition detection_text (detector_descriptions : list string) : string :=
  if decide (1 < length detector_descriptions)%nat then
    String.concat ", " (removelast detector_descriptions)
      +:+ " and " +:+ List.last detector_descriptions ""
  else default "suspicious activity" (head detector_descriptions).

Definition count_result (r : string) (timeline : list AuthEvent) : nat :=
  length (filter (λ e, AuthEvent.result e = r) timeline).

Definition _generate_summary `{PyRuntime} (user : string)
    (alerts : list Alert) (severity : string) (timeline : list AuthEvent)
  : string :=
  let detectors := set_order (Alert.detector <$> alerts) in
  let detector_descriptions :=
    (λ d, default d (detector_names !! d)) <$> sort_by String.leb detectors in
  let detection_text := detection_text detector_descriptions in
  let success_count := count_result "success" timeline in
  let failure_count := count_result "failure" timeline in
  let unique_ips :=
    length (set_order (AuthEvent.source_ip <$> timeline)) in
  let unique_countries :=
    length (set_order
              (omap (λ e, if truthy_str (AuthEvent.country e)
                          then AuthEvent.country e else None) timeline)) in
  let summary :=
    "A " +:+ upper severity
      +:+ "-severity security incident was detected for user " +:+ user
      +:+ " involving " +:+ detection_text +:+ ". "
      +:+ "The incident spans " +:+ pretty (length alerts)
      +:+ " alert(s) and " +:+ pretty (length timeline)
      +:+ " authentication event(s). " in
  let summary :=
    if decide (0 < failure_count)%nat then
      summary +:+ "There were " +:+ pretty failure_count +:+ " failed and "
        +:+ pretty success_count +:+ " successful login attempts. "
    else summary in
  let summary :=
    if decide (1 < unique_ips)%nat then
      summary +:+ "Activity originated from " +:+ pretty unique_ips
        +:+ " distinct IP addresses"
        +:+ (if decide (1 < unique_countries)%nat
             then " across " +:+ pretty unique_countries +:+ " countries"
             else "")
        +:+ ". "
    else summary in
  summary +:+ "Immediate investigation is recommended.".

Definition _generate_recommendations `{PyRuntime} (alerts : list Alert)
  : list string :=
  let detectors := set_order (Alert.detector <$> alerts) in
  ["Contact user to verify recent login activity"]
    ++ (if mem "impossible_travel" detectors then
          ["Verify user's actual location and travel history";
           "Check for VPN or proxy usage"]
        else [])
    ++ (if mem "fail_success_chain" detectors then
          ["Reset user credentials immediately";
           "Enable or verify MFA enrollment";
           "Review and block suspicious source IPs"]
        else [])
    ++ (if mem "new_device_ua" detectors then
          ["Confirm new device is authorized by user";
           "Review device enrollment policies"]
        else [])
    ++ ["Review conditional access policies";
        "Check for data exfiltration or account changes";
        "Document incident for compliance records"].

(** [_build_case], given the eight hexadecimal digits [hex] drawn from
    [uuid.uuid4()]. [min()] and [max()] raise on an empty list of alerts. *)
Definition _build_case `{PyRuntime} (hex : string) (user : string)
    (alerts : list Alert) (event_index : gmap string AuthEvent)
  : option Case :=
  match alerts with
  | [] => None
  | a0 :: rest =>
      let ts_start := py_min (Alert.ts_start a0) (Alert.ts_start <$> rest) in
      let ts_end := py_max (Alert.ts_end a0) (Alert.ts_end <$> rest) in
      '(overall_score, overall_severity) ←
        scoring.calculate_case_score alerts;
      let timeline := _build_timeline alerts event_index in
      let summary :=
        _generate_summary user alerts overall_severity timeline in
      let recommended_actions := _generate_recommendations alerts in
      Some {|
        Case.case_id := "CASE-" +:+ hex;
        Case.user := user;
        Case.ts_start := ts_start;
        Case.ts_end := ts_end;
        Case.alerts := alerts;
        Case.overall_severity := overall_severity;
        Case.overall_score := overall_score;
        Case.summary := summary;
        Case.recommended_actions := recommended_actions;
        Case.timeline := timeline
      |}
  end.

Definition severity_order : gmap string Z :=
  list_to_map [("critical", 0); ("high", 1); ("medium", 2); ("low", 3)].

(** The sort key [(severity_order.get(c.overall_severity, 4), c.ts_start)]
    and the lexicographic comparison of two such keys. *)
Definition case_key (c : Case) : Z * Z :=
  (default 4 (severity_order !! Case.overall_severity c), Case.ts_start c).

Definition case_le (c1 c2 : Case) : bool :=
  let '(r1, t1) := case_key c1 in
  let '(r2, t2) := case_key c2 in
  (r1 <? r2) || ((r1 =? r2) && (t1 <=? t2)).

(** The loop [for case_alerts in user_cases]; [n] identifiers have been
    drawn before it starts and [uuid k] is the [k]-th one drawn. *)
Fixpoint build_cases `{PyRuntime} (uuid : nat → string) (n : nat)
    (user : string) (user_cases : list (list Alert))
    (event_index : gmap string AuthEvent) : option (list Case) :=
  match user_cases with
  | [] => Some []
  | case_alerts :: rest =>
      case ← _build_case (uuid n) user case_alerts event_index;
      cases ← build_cases uuid (S n) user rest event_index;
      Some (case :: cases)
  end.

(** The loop [for user, user_alert_list in user_alerts.items()]. *)
Fixpoint user_loop `{PyRuntime} (uuid : nat → string) (n : nat)
    (user_alerts : list (string * list Alert))
    (event_index : gmap string AuthEvent) (window_hours : Q)
  : option (list Case) :=
  match user_alerts with
  | [] => Some []
  | (user, user_alert_list) :: rest =>
      let user_alert_list :=
        sort_by (key_le Alert.ts_start) user_alert_list in
      let user_cases :=
        _merge_alerts_into_cases user user_alert_list window_hours in
      cases ← build_cases uuid n user user_cases event_index;
      more ← user_loop uuid (n + length user_cases) rest event_index
               window_hours;
      Some (cases ++ more)
  end.

Definition correlate_cases `{PyRuntime} (uuid : nat → string)
    (alerts : list Alert) (event_index : gmap string AuthEvent)
    (window_hours : Q) : option (list Case) :=
  match alerts with
  | [] => Some []
  | _ :: _ =>
      let user_alerts := group_by Alert.user alerts in
      cases ← user_loop uuid 0 user_alerts event_index window_hours;
      Some (sort_by case_le cases)
  end.

End correlate.

(** ** ingest.py *)

Module ingest.

(** [s.split(".")]: the pieces between the dots; there is always at least
    one piece. *)
Fixpoint split_dot (s : string) : list string :=
  match s with
  | EmptyString => [EmptyString]
  | String c s' =>
      if Ascii.eqb c "."%char then EmptyString :: split_dot s'
      else match split_dot s' with
           | [] => [String c EmptyString]
           | part :: parts => String c part :: parts
           end
  end.

Section fingerprint.

(** [hashlib.md5(b).hexdigest()], a function of the bytes it is given. *)
Variable md5_hexdigest : string → string.

Definition _generate_fingerprint (user_agent source_ip : string) : string :=
  let parts := split_dot source_ip in
  let ip_prefix :=
    if decide (3 ≤ length parts)%nat then String.concat "." (take 3 parts)
    else source_ip in
  let fingerprint_input := user_agent +:+ ":" +:+ ip_prefix in
  let hash_digest := md5_hexdigest fingerprint_input in
  "fp-" +:+ String.substring 0 12 hash_digest.

End fingerprint.

(** The index [parse_jsonl] and [parse_jsonl_from_string] fill while they
    append the events they accept, [event_index[event.event_id] = event]:
    the two functions return the list of these events together with
    [index_events] of it. *)
Definition index_events (events : list AuthEvent) : gmap string AuthEvent :=
  fold_left (λ event_index event,
               <[AuthEvent.event_id event := event]> event_index)
            events ∅.

End ingest.

(** ** report.py *)

Module report.

(** One turn of the loop [severity_counts[case.overall_severity] += 1] of
    [generate_cases_md]; the mapping is a plain [dict], a severity it does
    not hold raises [KeyError]. *)
Definition count_case (severity_counts : gmap string Z) (case : Case)
  : option (gmap string Z) :=
  n ← severity_counts !! Case.overall_severity case;
  Some (<[Case.overall_severity case := n + 1]> severity_counts).

Fixpoint tally (severity_counts : gmap string Z) (cases : list Case)
  : option (gmap string Z) :=
  match cases with
  | [] => Some severity_counts
  | case :: rest =>
      severity_counts ← count_case severity_counts case;
      tally severity_counts rest
  end.

Definition severity_counts (cases : list Case) : option (gmap string Z) :=
  tally (list_to_map [("critical", 0); ("high", 0); ("medium", 0);
                      ("low", 0)]) cases.

(** The rows of the summary table, [severity_counts[sev]] for the four
    severities in display order. *)
Definition summary_rows (severity_counts : gmap string Z)
  : option (list (string * Z)) :=
  mapM (λ sev, n ← severity_counts !! sev; Some (sev, n))
       ["critical"; "high"; "medium"; "low"].

End report.

(** ** cli.py *)

Module cli.

(** Steps 2 and 3 of [analyze], on the events and the index that
    [parse_jsonl] returned: the detectors run with the options of the
    command line (the multi-IP threshold and the look-back keep their
    defaults, 15 and 30), then the alerts are correlated. *)
Definition analyze `{PyRuntime} (uuid : nat → string)
    (events : list AuthEvent) (event_index : gmap string AuthEvent)
    (speed_threshold max_travel_hours : Q) (failure_window min_failures : Z)
    (case_window : Q) : option (list Alert * list Case) :=
  alerts ←
    detectors.run_all_detectors events speed_threshold max_travel_hours
      failure_window min_failures 15 30;
  cases ← correlate.correlate_cases uuid alerts event_index case_window;
  Some (alerts, cases).

End cli.

(** ** A reference runtime and sample data

    Sets iterate in the order [remove_dups] leaves, floating-point
    arithmetic is exact, a [timedelta] is rounded to the nearest
    microsecond (a tie goes to the even one), distances are measured on a
    flat grid of 111 km per degree, and the family of a user agent is the
    user-agent string itself. *)

Module reference.

(** The integer nearest to [q], the even one of the two when [q] lies
    half-way. *)
Definition round_half_even (q : Q) : Z :=
  let below := Qfloor q in
  match (q - inject_Z below ?= 1 # 2)%Q with
  | Lt => below
  | Gt => below + 1
  | Eq => if Z.even below then below else below + 1
  end.

Definition runtime : PyRuntime := {|
  set_order := remove_dups;
  set_order_NoDup := NoDup_remove_dups;
  set_order_elem l x := elem_of_remove_dups l x;
  fl := id;
  timedelta_hours := λ h, round_half_even (h * 3600000000);
  haversine := λ '(la1, lo1) '(la2, lo2),
    (111 * (Qabs (la1 - la2) + Qabs (lo1 - lo2)))%Q;
  _get_ua_family := λ ua,
    if truthy_str ua then default "Unknown" ua else "Unknown"
|}.

(** The same runtime, except that sets iterate in the opposite order. *)
Definition reversed_runtime : PyRuntime := {|
  set_order := λ l, remove_dups (reverse l);
  set_order_NoDup := λ l, NoDup_remove_dups (reverse l);
  set_order_elem l x :=
    iff_trans (elem_of_remove_dups (reverse l) x) (elem_of_reverse x l);
  fl := @fl runtime;
  timedelta_hours := @timedelta_hours runtime;
  haversine := @haversine runtime;
  _get_ua_family := @_get_ua_family runtime
|}.

Definition evidence_of (extra : list (string * pyval)) : Evidence :=
  {| Evidence.ips := Some []; Evidence.device_ids := Some [];
     Evidence.countries := Some []; Evidence.extra := list_to_map extra |}.

(** A brute-force alert over ten failures, of medium severity. *)
Definition chain_alert : Alert := {|
  Alert.detector := "fail_success_chain";
  Alert.ts_start := 0; Alert.ts_end := 660000000;
  Alert.user := "u@corp.com"; Alert.severity := "medium";
  Alert.score := 60;
  Alert.evidence := evidence_of [("failure_count", VInt 10)];
  Alert.related_event_ids := []
|}.

(** A new-device alert from a new country, recorded with medium
    severity. *)
Definition device_alert : Alert := {|
  Alert.detector := "new_device_ua";
  Alert.ts_start := 700000000; Alert.ts_end := 700000000;
  Alert.user := "u@corp.com"; Alert.severity := "medium";
  Alert.score := 60;
  Alert.evidence :=
    evidence_of [("is_new_device", VBool true);
                 ("is_new_country", VBool true)];
  Alert.related_event_ids := []
|}.

End reference.

(** ** Vocabulary of the statements *)

(** Being sorted by an integer key, ascending. *)
Definition key_rel {A} (key : A → Z) : relation A := λ a b, key a ≤ key b.

(** The events of one user, in the order of the list. *)
Definition events_of (user : string) (events : list AuthEvent)
  : list AuthEvent :=
  filter (λ e, AuthEvent.user e = user) events.

(** The two patterns that earn a case 10 points: a chain alert over at
    least ten failures, and a new-device alert with a new device in a new
    country. *)
Definition chain_of_ten (a : Alert) : bool :=
  bool_decide (Alert.detector a = "fail_success_chain")
  && bool_decide (py_ge_int (Evidence.get (Alert.evidence a) "failure_count"
                               (VInt 0)) 10 = Some true).

Definition new_device_new_country (a : Alert) : bool :=
  bool_decide (Alert.detector a = "new_device_ua")
  && truthy (Evidence.get (Alert.evidence a) "is_new_device" (VBool false))
  && truthy (Evidence.get (Alert.evidence a) "is_new_country" (VBool false)).

(** The largest base score of the alerts. *)
Definition base_of (alerts : list Alert) : Z :=
  match alerts with
  | [] => 0
  | a0 :: rest =>
      py_max (scoring.get_base_score (Alert.severity a0))
             (scoring.get_base_score ∘ Alert.severity <$> rest)
  end.

(** The score the specification describes for a case: the largest base
    score, 15 more for two distinct detectors, 10 more for a chain of ten
    failures and, independently, 10 more for a new device in a new country,
    capped at 100. *)
Definition spec_case_score (alerts : list Alert) : Z :=
  let multi :=
    if decide (1 < length (remove_dups (Alert.detector <$> alerts)))%nat
    then 15 else 0 in
  let chain := if existsb chain_of_ten alerts then 10 else 0 in
  let device := if existsb new_device_new_country alerts then 10 else 0 in
  Z.min 100 (base_of alerts + multi + chain + device).

(** The number of failures of a window that come from one IP. *)
Definition failures_from (ip : string) (failures : list AuthEvent) : Z :=
  Z.of_nat (length (filter (λ f, AuthEvent.source_ip f = ip) failures)).

(** The severity policy of the chain detector, over the failures of the
    window: high for a same-IP attack whose largest per-IP count reaches 12,
    else medium when the failures reach the threshold that fired, else
    low. *)
Definition chain_severity (failures : list AuthEvent) (attack_type : string)
    (threshold_used : Z) : string :=
  if bool_decide (attack_type = "same_ip")
     && (12 <=? fail_success_chain.max_count
                  (fail_success_chain.count_ips failures))
  then "high"
  else if threshold_used <=? Z.of_nat (length failures) then "medium"
  else "low".

(** The failures the chain detector collects for a success event:
    [prevs] are the user's events sorted before it. *)
Definition trailing_failures (window_minutes : Z) (prevs : list AuthEvent)
    (success : AuthEvent) : list AuthEvent :=
  fail_success_chain.scan_back
    (AuthEvent.ts success - fail_success_chain.minutes window_minutes)
    (reverse prevs).

(** The trigger policy over the failures of a window: the attack type and
    the threshold that fires, first match first. *)
Definition triggers (min_failures_same_ip min_failures_multi_ip : Z)
    (failures : list AuthEvent) (attack_type : string) (threshold : Z)
  : Prop :=
  ((∃ ip, min_failures_same_ip ≤ failures_from ip failures)
   ∧ attack_type = "same_ip" ∧ threshold = min_failures_same_ip)
  ∨ ((∀ ip, failures_from ip failures < min_failures_same_ip)
     ∧ min_failures_multi_ip ≤ Z.of_nat (length failures)
     ∧ attack_type = "multi_ip" ∧ threshold = min_failures_multi_ip).

(** The geo-located successes of one user, in the order of the list. *)
Definition located_of (user : string) (events : list AuthEvent)
  : list impossible_travel.located :=
  filter (λ p, AuthEvent.user p.1 = user) (omap impossible_travel.locate events).

(** The baseline the new-device walk holds after the events [pre]. *)
Definition baseline_after `{PyRuntime} (pre : list AuthEvent)
  : new_device_ua.DeviceBaseline :=
  fold_left new_device_ua.update_baseline pre new_device_ua.empty_baseline.

(** An event carries a device id when the id is present and not empty. *)
Definition carries_device (e : AuthEvent) : Prop :=
  truthy_str (AuthEvent.device_id e) = true.

(** The standardized evidence keys of an alert, as correlation reads
    them. *)
Definition alert_ips (a : Alert) : list string :=
  default [] (Evidence.ips (Alert.evidence a)).
Definition alert_device_ids (a : Alert) : list string :=
  default [] (Evidence.device_ids (Alert.evidence a)).

(** Two alerts share an indicator: an IP or a device id. *)
Definition shares_indicator (a b : Alert) : Prop :=
  (∃ ip, ip ∈ alert_ips a ∧ ip ∈ alert_ips b)
  ∨ (∃ d, d ∈ alert_device_ids a ∧ d ∈ alert_device_ids b).

(** The merge predicate of the correlation pass, for a candidate and a
    member of the open group; [window] is in microseconds. *)
Definition merges_with (window : Z) (candidate member : Alert) : Prop :=
  Alert.ts_start candidate ≤ Alert.ts_end member + window
  ∨ shares_indicator candidate member.

(** Two cases that agree on everything but their identifier. *)
Definition same_case_upto_id (c1 c2 : Case) : Prop :=
  Case.user c1 = Case.user c2
  ∧ Case.ts_start c1 = Case.ts_start c2
  ∧ Case.ts_end c1 = Case.ts_end c2
  ∧ Case.alerts c1 = Case.alerts c2
  ∧ Case.overall_severity c1 = Case.overall_severity c2
  ∧ Case.overall_score c1 = Case.overall_score c2
  ∧ Case.summary c1 = Case.summary c2
  ∧ Case.recommended_actions c1 = Case.recommended_actions c2
  ∧ Case.timeline c1 = Case.timeline c2.

(** The event ids a group of alerts refers to. *)
Definition referenced (alerts : list Alert) (event_id : string) : Prop :=
  ∃ a, a ∈ alerts ∧ event_id ∈ Alert.related_event_ids a.

(** An index that files every event under its own id, as ingestion builds
    it. *)
Definition keyed_by_id (event_index : gmap string AuthEvent) : Prop :=
  ∀ k e, event_index !! k = Some e → AuthEvent.event_id e = k.

(** ** Sample event logs (those of the repository's tests) *)

Module fixtures.

Definition minute : Z := 60000000.
Definition hour : Z := 60 * minute.

Definition event (event_id : string) (ts : Z) (user source_ip : string)
    (result : string) : AuthEvent := {|
  AuthEvent.event_id := event_id; AuthEvent.ts := ts;
  AuthEvent.user := user; AuthEvent.source_ip := source_ip;
  AuthEvent.country := None; AuthEvent.city := None;
  AuthEvent.lat := None; AuthEvent.lon := None;
  AuthEvent.user_agent := None; AuthEvent.device_id := None;
  AuthEvent.result := result; AuthEvent.failure_reason := None
|}.

Definition bf_failure (event_id : string) (i : Z) : AuthEvent := {|
  AuthEvent.event_id := event_id; AuthEvent.ts := i * minute;
  AuthEvent.user := "brute@corp.com"; AuthEvent.source_ip := "10.0.0.1";
  AuthEvent.country := Some "US"; AuthEvent.city := None;
  AuthEvent.lat := None; AuthEvent.lon := None;
  AuthEvent.user_agent := None; AuthEvent.device_id := None;
  AuthEvent.result := "failure";
  AuthEvent.failure_reason := Some "invalid_password"
|}.

Definition bf_failures : list AuthEvent :=
  [bf_failure "bf-000" 0; bf_failure "bf-001" 1; bf_failure "bf-002" 2;
   bf_failure "bf-003" 3; bf_failure "bf-004" 4; bf_failure "bf-005" 5;
   bf_failure "bf-006" 6; bf_failure "bf-007" 7; bf_failure "bf-008" 8;
   bf_failure "bf-009" 9].

Definition bf_success : AuthEvent := {|
  AuthEvent.event_id := "bf-success"; AuthEvent.ts := 11 * minute;
  AuthEvent.user := "brute@corp.com"; AuthEvent.source_ip := "10.0.0.1";
  AuthEvent.country := Some "US"; AuthEvent.city := None;
  AuthEvent.lat := None; AuthEvent.lon := None;
  AuthEvent.user_agent := None; AuthEvent.device_id := None;
  AuthEvent.result := "success"; AuthEvent.failure_reason := None
|}.

(** Ten failures from 10.0.0.1, one a minute, and a success from the same
    IP in the twelfth minute. *)
Definition brute_force_events : list AuthEvent := bf_failures ++ [bf_success].

Definition login (event_id : string) (ts : Z) (source_ip country device_id
    user_agent : string) : AuthEvent := {|
  AuthEvent.event_id := event_id; AuthEvent.ts := ts;
  AuthEvent.user := "newdev@corp.com"; AuthEvent.source_ip := source_ip;
  AuthEvent.country := Some country; AuthEvent.city := None;
  AuthEvent.lat := None; AuthEvent.lon := None;
  AuthEvent.user_agent := Some user_agent;
  AuthEvent.device_id := Some device_id;
  AuthEvent.result := "success"; AuthEvent.failure_reason := None
|}.

(** A baseline login, then a login two hours later from another device in
    another country. *)
Definition nd_001 : AuthEvent :=
  login "nd-001" 0 "192.168.1.1" "US" "dev-known-001"
    "Mozilla/5.0 Chrome/120.0".
Definition nd_002 : AuthEvent :=
  login "nd-002" (2 * hour) "10.10.10.10" "RU" "dev-new-suspicious"
    "Mozilla/5.0 Safari/604.1".
Definition new_device_events : list AuthEvent := [nd_001; nd_002].

Definition located_login (event_id : string) (ts : Z) (source_ip country
    city : string) (lat lon : Q) : AuthEvent := {|
  AuthEvent.event_id := event_id; AuthEvent.ts := ts;
  AuthEvent.user := "travel@corp.com"; AuthEvent.source_ip := source_ip;
  AuthEvent.country := Some country; AuthEvent.city := Some city;
  AuthEvent.lat := Some lat; AuthEvent.lon := Some lon;
  AuthEvent.user_agent := None; AuthEvent.device_id := None;
  AuthEvent.result := "success"; AuthEvent.failure_reason := None
|}.

(** New York, then Tokyo ninety minutes later. *)
Definition it_001 : AuthEvent :=
  located_login "it-001" 0 "1.1.1.1" "US" "New York"
    (407128 # 10000) (-740060 # 10000).
Definition it_002 : AuthEvent :=
  located_login "it-002" (90 * minute) "2.2.2.2" "JP" "Tokyo"
    (356762 # 10000) (1396503 # 10000).
Definition impossible_travel_events : list AuthEvent := [it_001; it_002].

(** A failed attempt from one device, then the user's first successful
    login, from another device. *)
Definition first_failure : AuthEvent := {|
  AuthEvent.event_id := "f-1"; AuthEvent.ts := 0;
  AuthEvent.user := "u@corp.com"; AuthEvent.source_ip := "10.0.0.1";
  AuthEvent.country := None; AuthEvent.city := None;
  AuthEvent.lat := None; AuthEvent.lon := None;
  AuthEvent.user_agent := None; AuthEvent.device_id := Some "dev-A";
  AuthEvent.result := "failure"; AuthEvent.failure_reason := None
|}.
Definition first_success : AuthEvent := {|
  AuthEvent.event_id := "s-1"; AuthEvent.ts := minute;
  AuthEvent.user := "u@corp.com"; AuthEvent.source_ip := "10.0.0.1";
  AuthEvent.country := None; AuthEvent.city := None;
  AuthEvent.lat := None; AuthEvent.lon := None;
  AuthEvent.user_agent := None; AuthEvent.device_id := Some "dev-B";
  AuthEvent.result := "success"; AuthEvent.failure_reason := None
|}.
Definition failure_then_success : list AuthEvent :=
  [first_failure; first_success].

(** Three failures, then a success. *)
Definition below_threshold_events : list AuthEvent :=
  [event "f-0" 0 "test@corp.com" "10.0.0.1" "failure";
   event "f-1" minute "test@corp.com" "10.0.0.1" "failure";
   event "f-2" (2 * minute) "test@corp.com" "10.0.0.1" "failure";
   event "s-001" (5 * minute) "test@corp.com" "10.0.0.1" "success"].

(** A login from a known device in a country not seen before. *)
Definition nd_003 : AuthEvent :=
  login "nd-003" (3 * hour) "10.10.10.10" "RU" "dev-known-001"
    "Mozilla/5.0 Chrome/120.0".
Definition new_country_events : list AuthEvent := [nd_001; nd_003].

End fixtures.

(** ** Sample alerts and index for the correlation engine *)

Module samples.

Definition alert (detector : string) (ts_start ts_end : Z)
    (ips device_ids related : list string) : Alert := {|
  Alert.detector := detector;
  Alert.ts_start := ts_start; Alert.ts_end := ts_end;
  Alert.user := "u@corp.com"; Alert.severity := "medium";
  Alert.score := 50;
  Alert.evidence := {|
    Evidence.ips := Some ips; Evidence.device_ids := Some device_ids;
    Evidence.countries := Some []; Evidence.extra := ∅
  |};
  Alert.related_event_ids := related
|}.

(** Three alerts of one user: the second starts an hour after the first
    ends and shares nothing with it; the third starts a day later and
    shares the IP of the second. *)
Definition a1 : Alert :=
  alert "new_device_ua" 0 0 ["1.1.1.1"] ["dev-1"] ["e1"].
Definition a2 : Alert :=
  alert "impossible_travel" fixtures.hour (2 * fixtures.hour)
    ["2.2.2.2"] ["dev-2"] ["e1"; "e2"; "gone"].
Definition a3 : Alert :=
  alert "new_device_ua" (26 * fixtures.hour) (26 * fixtures.hour)
    ["2.2.2.2"] ["dev-3"] ["e3"].

Definition e1 : AuthEvent :=
  fixtures.event "e1" 0 "u@corp.com" "1.1.1.1" "success".
Definition e2 : AuthEvent :=
  fixtures.event "e2" fixtures.hour "u@corp.com" "2.2.2.2" "success".
Definition e3 : AuthEvent :=
  fixtures.event "e3" (26 * fixtures.hour) "u@corp.com" "2.2.2.2" "success".

(** The index knows "e1", "e2" and "e3"; "gone" is in no entry. *)
Definition event_index : gmap string AuthEvent :=
  list_to_map [("e1", e1); ("e2", e2); ("e3", e3)].

(** Two events recorded at the same instant, and an alert that refers to
    both. *)
Definition tie_a : AuthEvent :=
  fixtures.event "a" 0 "u@corp.com" "1.1.1.1" "failure".
Definition tie_b : AuthEvent :=
  fixtures.event "b" 0 "u@corp.com" "1.1.1.1" "success".
Definition tie_alert : Alert :=
  alert "fail_success_chain" 0 0 ["1.1.1.1"] [] ["a"; "b"].
Definition tie_index : gmap string AuthEvent :=
  list_to_map [("a", tie_a); ("b", tie_b)].

Definition uuid_a (n : nat) : string := "0000000" +:+ pretty n.
Definition uuid_b (n : nat) : string := "FFFFFFF" +:+ pretty n.

End samples.

(** The alerts of one user, in the order of the list. *)
Definition alerts_of (user : string) (alerts : list Alert) : list Alert :=
  filter (λ a, Alert.user a = user) alerts.

(** Two cases that agree on everything but their identifier and the order
    of their timeline. *)
Definition same_case_upto_ties (c1 c2 : Case) : Prop :=
  Case.user c1 = Case.user c2
  ∧ Case.ts_start c1 = Case.ts_start c2
  ∧ Case.ts_end c1 = Case.ts_end c2
  ∧ Case.alerts c1 = Case.alerts c2
  ∧ Case.overall_severity c1 = Case.overall_severity c2
  ∧ Case.overall_score c1 = Case.overall_score c2
  ∧ Case.summary c1 = Case.summary c2
  ∧ Case.recommended_actions c1 = Case.recommended_actions c2
  ∧ Case.timeline c1 ≡ₚ Case.timeline c2.

(** The order of strings [sorted] uses. *)
Definition string_le : relation string := λ s1 s2, String.leb s1 s2 = true.

(** ** Vocabulary of the further properties *)

(** The place of a severity in the order of the case list: 0 for critical,
    1 for high, 2 for medium, 3 for low, 4 for any other word. *)
Definition severity_rank (severity : string) : Z :=
  default 4 (correlate.severity_order !! severity).

(** The order in which [correlate_cases] returns its cases: the more severe
    first, the earlier first among cases of one severity. *)
Definition case_before (c1 c2 : Case) : Prop :=
  severity_rank (Case.overall_severity c1)
    < severity_rank (Case.overall_severity c2)
  ∨ (severity_rank (Case.overall_severity c1)
       = severity_rank (Case.overall_severity c2)
     ∧ Case.ts_start c1 ≤ Case.ts_start c2).

(** The values that compare with an integer: [int], [bool] and [float]
    objects (infinities and NaN included). The other values of an evidence
    mapping, [None], strings and lists, do not. *)
Definition is_number (v : pyval) : bool :=
  match v with
  | VBool _ | VInt _ | VFloat _ => true
  | VNone | VStr _ | VStrs _ => false
  end.

(** A chain alert whose recorded failure count is not a number. *)
Definition samples_bad_chain_alert : Alert := {|
  Alert.detector := "fail_success_chain";
  Alert.ts_start := 0; Alert.ts_end := 0;
  Alert.user := "u@corp.com"; Alert.severity := "medium";
  Alert.score := 50;
  Alert.evidence := reference.evidence_of [("failure_count", VStr "ten")];
  Alert.related_event_ids := []
|}.

(** A well-formed chain alert of another user, over ten failures. *)
Definition samples_other_user_alert : Alert := {|
  Alert.detector := "fail_success_chain";
  Alert.ts_start := 0; Alert.ts_end := 660000000;
  Alert.user := "v@corp.com"; Alert.severity := "medium";
  Alert.score := 60;
  Alert.evidence := reference.evidence_of [("failure_count", VInt 10)];
  Alert.related_event_ids := []
|}.

(** A chain alert whose recorded failure count is the float 10.5. *)
Definition samples_float_chain_alert : Alert := {|
  Alert.detector := "fail_success_chain";
  Alert.ts_start := 0; Alert.ts_end := 0;
  Alert.user := "u@corp.com"; Alert.severity := "medium";
  Alert.score := 50;
  Alert.evidence :=
    reference.evidence_of [("failure_count", VFloat (FFinite (21 # 2)))];
  Alert.related_event_ids := []
|}.

(** A string without a dot, such as one octet of an IPv4 address. *)
Fixpoint dot_free (s : string) : bool :=
  match s with
  | EmptyString => true
  | String c s' => negb (Ascii.eqb c "."%char) && dot_free s'
  end.

(** The number of cases of one severity. *)
Definition cases_of_severity (severity : string) (cases : list Case) : Z :=
  Z.of_nat (length (filter (λ c, Case.overall_severity c = severity) cases)).

(** The brute-force log followed by the log of a user below the
    thresholds. *)
Definition samples_two_users : list AuthEvent :=
  fixtures.brute_force_events ++ fixtures.below_threshold_events.

(** * Properties *)

(** ** Sets, sorting and grouping *)

Section set_order_facts.
Context `{PyRuntime}.

Lemma set_order_perm l : set_order l ≡ₚ remove_dups l.
Proof.
  apply NoDup_Permutation.
  - apply set_order_NoDup.
  - apply NoDup_remove_dups.
  - intros x. by rewrite set_order_elem, elem_of_remove_dups.
Qed.

Lemma set_order_length l : length (set_order l) = length (remove_dups l).
Proof. by rewrite set_order_perm. Qed.

End set_order_facts.

Section sort_facts.
Context {A : Type}.
Implicit Types (le : A → A → bool) (key : A → Z) (l : list A).

Lemma sort_insert_perm le x l : sort_insert le x l ≡ₚ x :: l.
Proof.
  induction l as [|y l IH]; simpl; [done|].
  destruct (le x y); [done|]. rewrite IH. apply Permutation_swap.
Qed.

Lemma sort_by_perm le l : sort_by le l ≡ₚ l.
Proof.
  induction l as [|x l IH]; simpl; [done|].
  by rewrite sort_insert_perm, IH.
Qed.

Lemma sort_by_elem_of le l x : x ∈ sort_by le l ↔ x ∈ l.
Proof. by rewrite sort_by_perm. Qed.


Lemma sort_by_nil_inv le l : sort_by le l = [] → l = [].
Proof.
  intros Hs. apply Permutation_nil_r. rewrite <- Hs. by rewrite sort_by_perm.
Qed.

Lemma sort_insert_sorted key x l :
  StronglySorted (key_rel key) l →
  StronglySorted (key_rel key) (sort_insert (key_le key) x l).
Proof.
  induction 1 as [|y l Hl IH Hy]; simpl.
  - repeat constructor.
  - unfold key_le at 1. destruct (Z.leb_spec (key x) (key y)) as [Hxy|Hxy].
    + constructor; [by constructor|]. constructor; [done|].
      eapply Forall_impl; [exact Hy|]. unfold key_rel. intros; lia.
    + constructor; [done|]. rewrite sort_insert_perm.
      constructor; [unfold key_rel; lia|done].
Qed.

Lemma sort_by_sorted key l :
  StronglySorted (key_rel key) (sort_by (key_le key) l).
Proof.
  induction l; simpl; [constructor|]. by apply sort_insert_sorted.
Qed.

(** In a sorted list, what stands before an element has a key that is not
    larger. *)
Lemma sorted_before key l1 x l2 :
  StronglySorted (key_rel key) (l1 ++ x :: l2) →
  Forall (λ y, key y ≤ key x) l1.
Proof.
  intros Hs. apply Forall_forall. intros y Hy.
  eapply (StronglySorted_app_1_elem_of (key_rel key)); [exact Hs|done|left].
Qed.

End sort_facts.

Section dict_facts.
Context {A : Type}.
Implicit Types (d : list (string * A)) (k : string).

Lemma dict_get_upd dflt (f : A → A) k k' d :
  dict_get k' (dict_upd dflt f k d)
  = if bool_decide (k' = k) then Some (f (default dflt (dict_get k d)))
    else dict_get k' d.
Proof.
  induction d as [|[k0 v] d IH]; simpl.
  - by case_bool_decide.
  - destruct (decide (k = k0)) as [->|Hne].
    + rewrite !bool_decide_eq_true_2 by done. simpl.
      by case_bool_decide.
    + rewrite (bool_decide_eq_false_2 (k = k0)) by done. simpl.
      rewrite IH. repeat case_bool_decide; simplify_eq; done.
Qed.

Lemma dict_upd_keys dflt (f : A → A) k d :
  (dict_upd dflt f k d).*1
  = if bool_decide (k ∈ d.*1) then d.*1 else d.*1 ++ [k].
Proof.
  induction d as [|[k0 v] d IH]; csimpl; [done|].
  destruct (decide (k = k0)) as [->|Hne].
  - rewrite bool_decide_eq_true_2 by done.
    rewrite (bool_decide_eq_true_2 (k0 ∈ k0 :: d.*1)) by left. done.
  - rewrite bool_decide_eq_false_2 by done. csimpl. rewrite IH.
    destruct (decide (k ∈ d.*1)).
    + rewrite !bool_decide_eq_true_2; [done|by right|done].
    + rewrite !bool_decide_eq_false_2; [done| |done].
      intros [?|?]%elem_of_cons; done.
Qed.

Lemma dict_upd_NoDup dflt (f : A → A) k d :
  NoDup d.*1 → NoDup (dict_upd dflt f k d).*1.
Proof.
  intros Hd. rewrite dict_upd_keys. case_bool_decide; [done|].
  apply NoDup_app. split_and!; [done| |apply NoDup_singleton].
  intros x Hx ->%list_elem_of_singleton. done.
Qed.

Lemma dict_get_elem_of k v d :
  NoDup d.*1 → (k, v) ∈ d ↔ dict_get k d = Some v.
Proof.
  induction d as [|[k0 v0] d IH]; csimpl; intros Hd.
  - split; [by intros ?%elem_of_nil|done].
  - apply NoDup_cons in Hd as [Hk0 Hd]. rewrite elem_of_cons.
    case_bool_decide as Hk; simplify_eq.
    + split; [intros [?|Hin]; simplify_eq; [done|]|naive_solver].
      exfalso. apply Hk0. apply list_elem_of_fmap. by exists (k0, v).
    + rewrite <- IH by done. naive_solver.
Qed.

End dict_facts.

Section group_facts.
Context {A : Type} (key : A → string).
Implicit Types (l : list A).

Lemma group_by_snoc l x :
  group_by key (l ++ [x]) = dict_append (key x) x (group_by key l).
Proof. unfold group_by. by rewrite fold_left_app. Qed.

Lemma group_by_NoDup l : NoDup (group_by key l).*1.
Proof.
  induction l as [|x l IH] using rev_ind; [constructor|].
  rewrite group_by_snoc. by apply dict_upd_NoDup.
Qed.

Lemma group_by_get l k :
  dict_get k (group_by key l)
  = match filter (λ x, key x = k) l with
    | [] => None
    | vs => Some vs
    end.
Proof.
  induction l as [|x l IH] using rev_ind; [done|].
  rewrite group_by_snoc. unfold dict_append. rewrite dict_get_upd.
  rewrite filter_app, filter_cons, filter_nil.
  case_bool_decide as Hk; simplify_eq.
  - rewrite decide_True by done. rewrite IH.
    destruct (filter _ l); simpl; done.
  - rewrite decide_False by done. by rewrite app_nil_r.
Qed.

(** The groups are the non-empty classes of the key, each in the order of
    the list. *)
Lemma elem_of_group_by l k vs :
  (k, vs) ∈ group_by key l ↔ vs = filter (λ x, key x = k) l ∧ vs ≠ [].
Proof.
  rewrite dict_get_elem_of by apply group_by_NoDup. rewrite group_by_get.
  destruct (filter _ l) eqn:Hf; naive_solver.
Qed.
End group_facts.

Lemma elem_of_concat {A} (x : A) (ls : list (list A)) :
  x ∈ concat ls ↔ ∃ l, l ∈ ls ∧ x ∈ l.
Proof.
  rewrite list_elem_of_In, in_concat.
  split; intros (l & ? & ?); exists l; by rewrite ?list_elem_of_In in *.
Qed.

Lemma mapM_id_Some {A} (l : list (option A)) (k : list A) :
  mapM id l = Some k ↔ l = Some <$> k.
Proof.
  rewrite mapM_Some. split.
  - induction 1; csimpl; simplify_eq/=; by f_equal.
  - intros ->. induction k; csimpl; constructor; done.
Qed.

Lemma py_max_spec x xs :
  py_max x xs ∈ x :: xs ∧ ∀ y, y ∈ x :: xs → y ≤ py_max x xs.
Proof.
  unfold py_max. revert x. induction xs as [|z xs IH]; intros x; simpl.
  - split; [left|]. intros y ->%list_elem_of_singleton. lia.
  - destruct (IH (Z.max x z)) as [Hin Hle]. split.
    + apply elem_of_cons in Hin as [Heq|Hin]; [|by do 2 right].
      rewrite Heq. destruct (Z.max_spec x z) as [[_ ->]|[_ ->]];
        [right; left|left].
    + intros y Hy. assert (y ≤ Z.max x z ∨ y ∈ xs) as [?|?].
      { apply elem_of_cons in Hy as [->|Hy]; [left; lia|].
        apply elem_of_cons in Hy as [->|Hy]; [left; lia|by right]. }
      * etrans; [done|]. apply Hle. left.
      * apply Hle. by right.
Qed.

Lemma py_min_spec x xs :
  py_min x xs ∈ x :: xs ∧ ∀ y, y ∈ x :: xs → py_min x xs ≤ y.
Proof.
  unfold py_min. revert x. induction xs as [|z xs IH]; intros x; simpl.
  - split; [left|]. intros y ->%list_elem_of_singleton. lia.
  - destruct (IH (Z.min x z)) as [Hin Hle]. split.
    + apply elem_of_cons in Hin as [Heq|Hin]; [|by do 2 right].
      rewrite Heq. destruct (Z.min_spec x z) as [[_ ->]|[_ ->]];
        [left|right; left].
    + intros y Hy. assert (Z.min x z ≤ y ∨ y ∈ xs) as [?|?].
      { apply elem_of_cons in Hy as [->|Hy]; [left; lia|].
        apply elem_of_cons in Hy as [->|Hy]; [left; lia|by right]. }
      * etrans; [|done]. apply Hle. left.
      * apply Hle. by right.
Qed.

(** ** The failure→success chain detector *)

Section chain_facts.
Context `{PyRuntime}.
Import fail_success_chain.
Implicit Types (F prevs : list AuthEvent) (ip : string).

Lemma count_ips_snoc F f :
  count_ips (F ++ [f]) = dict_incr (AuthEvent.source_ip f) (count_ips F).
Proof. unfold count_ips. by rewrite fold_left_app. Qed.

Lemma count_ips_NoDup F : NoDup (count_ips F).*1.
Proof.
  induction F as [|f F IH] using rev_ind; [constructor|].
  rewrite count_ips_snoc. by apply dict_upd_NoDup.
Qed.

Lemma failures_from_snoc ip F f :
  failures_from ip (F ++ [f])
  = failures_from ip F + (if decide (AuthEvent.source_ip f = ip) then 1 else 0).
Proof.
  unfold failures_from. rewrite filter_app, filter_cons, filter_nil.
  case_decide; rewrite length_app; simpl; lia.
Qed.

Lemma failures_from_nonneg ip F : 0 ≤ failures_from ip F.
Proof. unfold failures_from. lia. Qed.

Lemma failures_from_le_length ip F :
  failures_from ip F ≤ Z.of_nat (length F).
Proof.
  unfold failures_from. pose proof (length_filter (λ f, AuthEvent.source_ip f = ip) F).
  lia.
Qed.

(** The tally holds, for every IP that occurs, the number of failures
    from it. *)
Lemma count_ips_get ip F :
  dict_get ip (count_ips F)
  = if decide (failures_from ip F = 0) then None
    else Some (failures_from ip F).
Proof.
  induction F as [|f F IH] using rev_ind; [done|].
  rewrite count_ips_snoc, failures_from_snoc. unfold dict_incr.
  rewrite dict_get_upd. pose proof (failures_from_nonneg ip F).
  case_bool_decide as Hip;
    destruct (decide (AuthEvent.source_ip f = ip)); simplify_eq.
  - rewrite IH. rewrite (decide_False (P := _ + 1 = 0)) by lia.
    case_decide as Hz; simpl; [|done]. by rewrite Hz.
  - rewrite IH, Z.add_0_r. done.
Qed.

Lemma elem_of_count_ips ip n F :
  (ip, n) ∈ count_ips F ↔ n = failures_from ip F ∧ n ≠ 0.
Proof.
  rewrite dict_get_elem_of by apply count_ips_NoDup. rewrite count_ips_get.
  case_decide; naive_solver.
Qed.

Lemma count_ips_nil_inv F : count_ips F = [] → F = [].
Proof.
  destruct F as [|f F] using rev_ind; [done|].
  rewrite count_ips_snoc. unfold dict_incr.
  destruct (count_ips F) as [|[??]?]; simpl; [done|]. by case_bool_decide.
Qed.

(** [max_count] is the largest per-IP count: no IP has more failures, and
    some IP has as many when there is a failure. *)
Lemma max_count_upper ip F :
  failures_from ip F ≤ max_count (count_ips F).
Proof.
  destruct (decide (failures_from ip F = 0)) as [H0|Hn0].
  - rewrite H0. unfold max_count.
    destruct ((count_ips F).*2) as [|n ns] eqn:Hv; [done|].
    assert (n ∈ (count_ips F).*2) as Hn by (rewrite Hv; left).
    apply list_elem_of_fmap in Hn as ([ip' n'] & -> & Hin).
    apply elem_of_count_ips in Hin as [-> ?]. simpl.
    pose proof (failures_from_nonneg ip' F).
    destruct (py_max_spec (failures_from ip' F) ns) as [_ Hle].
    specialize (Hle (failures_from ip' F)). etrans; [done|]. apply Hle. left.
  - assert ((ip, failures_from ip F) ∈ count_ips F) as Hin
      by by apply elem_of_count_ips.
    assert (failures_from ip F ∈ (count_ips F).*2) as Hv.
    { apply list_elem_of_fmap. by exists (ip, failures_from ip F). }
    unfold max_count. destruct ((count_ips F).*2) as [|n ns]; [by apply elem_of_nil in Hv|].
    by apply py_max_spec.
Qed.

Lemma max_count_attained F :
  F ≠ [] → ∃ ip, failures_from ip F = max_count (count_ips F) ∧ 0 < failures_from ip F.
Proof.
  intros HF. unfold max_count.
  destruct ((count_ips F).*2) as [|n ns] eqn:Hv.
  { apply fmap_nil_inv in Hv. by apply count_ips_nil_inv in Hv. }
  destruct (py_max_spec n ns) as [Hin _]. rewrite <- Hv in Hin.
  apply list_elem_of_fmap in Hin as ([ip m] & Hm & Hin). simpl in Hm.
  apply elem_of_count_ips in Hin as [-> ?]. exists ip.
  pose proof (failures_from_nonneg ip F). split; [done|lia].
Qed.


(** The same-IP test of the trigger policy, in terms of the failures. *)
Lemma max_count_ge m F :
  F ≠ [] → m ≤ max_count (count_ips F) ↔ ∃ ip, m ≤ failures_from ip F.
Proof.
  intros HF. split.
  - intros Hm. destruct (max_count_attained F HF) as (ip & Hip & _).
    exists ip. lia.
  - intros [ip Hip]. pose proof (max_count_upper ip F). lia.
Qed.

Lemma scan_back_elem_of ws prevs f :
  f ∈ scan_back ws prevs →
  f ∈ prevs ∧ AuthEvent.result f = "failure" ∧ ws ≤ AuthEvent.ts f.
Proof.
  induction prevs as [|p prevs IH]; simpl; [by intros ?%elem_of_nil|].
  destruct (Z.ltb_spec (AuthEvent.ts p) ws); [by intros ?%elem_of_nil|].
  case_bool_decide.
  - intros [->|Hin]%elem_of_cons; [split_and!; [left|done|done]|].
    destruct (IH Hin) as (?&?&?). split_and!; [by right|done|done].
  - intros Hin. destruct (IH Hin) as (?&?&?). split_and!; [by right|done|done].
Qed.

(** The scan keeps the failures of the run of events, most recent first,
    that are not older than the window; it stops at the first older
    event. *)
Lemma scan_back_window ws prevs :
  ∃ run older,
    prevs = run ++ older
    ∧ Forall (λ e, ws ≤ AuthEvent.ts e) run
    ∧ (∀ e, head older = Some e → AuthEvent.ts e < ws)
    ∧ scan_back ws prevs
      = filter (λ e, AuthEvent.result e = "failure") run.
Proof.
  induction prevs as [|p prevs IH]; simpl.
  - exists [], []. by split_and!.
  - destruct (Z.ltb_spec (AuthEvent.ts p) ws) as [Hlt|Hge].
    + exists [], (p :: prevs). split_and!; [done|constructor| |done].
      intros e [= <-]. done.
    + destruct IH as (run & older & -> & Hrun & Hold & ->).
      exists (p :: run), older. split_and!; [done|by constructor|done|].
      rewrite filter_cons. by case_bool_decide; case_decide.
Qed.
End chain_facts.

Section chain_alerts.
Context `{PyRuntime}.
Import fail_success_chain.
Implicit Types (F prevs : list AuthEvent) (a : Alert).

(** On a non-empty window [_create_alert] returns an alert, and these are
    its fields. *)
Lemma create_alert_spec user F success attack_type threshold_used :
  F ≠ [] →
  ∃ a first_failure,
    _create_alert user F success (count_ips F) attack_type threshold_used
      = Some a
    ∧ head (sort_by (key_le AuthEvent.ts) F) = Some first_failure
    ∧ Alert.detector a = "fail_success_chain"
    ∧ Alert.user a = user
    ∧ Alert.ts_start a = AuthEvent.ts first_failure
    ∧ Alert.ts_end a = AuthEvent.ts success
    ∧ Alert.severity a = chain_severity F attack_type threshold_used
    ∧ Evidence.get (Alert.evidence a) "attack_type" VNone = VStr attack_type
    ∧ Evidence.get (Alert.evidence a) "threshold_used" VNone
      = VInt threshold_used
    ∧ Evidence.get (Alert.evidence a) "failure_count" VNone
      = VInt (Z.of_nat (length F))
    ∧ Evidence.get (Alert.evidence a) "max_same_ip_failures" VNone
      = VInt (max_count (count_ips F))
    ∧ Alert.related_event_ids a
      = (AuthEvent.event_id <$> F) ++ [AuthEvent.event_id success].
Proof.
  intros HF. unfold _create_alert, chain_severity.
  destruct (head (sort_by (key_le AuthEvent.ts) F)) as [first|] eqn:Hhd; last first.
  { apply head_None in Hhd. by apply sort_by_nil_inv in Hhd. }
  destruct (last (sort_by (key_le AuthEvent.ts) F)) as [lst|] eqn:Hlast; last first.
  { apply last_None in Hlast. by apply sort_by_nil_inv in Hlast. }
  destruct (head (count_ips F).*1) as [ip0|] eqn:Hip; last first.
  { apply head_None, fmap_nil_inv in Hip. by apply count_ips_nil_inv in Hip. }
  simpl. destruct (bool_decide (attack_type = "same_ip")); simpl;
    (eexists _, first; split; [reflexivity|]; split_and!; reflexivity).
Qed.

(** The body of the loop never raises, and appends an alert exactly when
    the event is a success whose window holds failures that trigger. *)
Lemma check_event_spec w m1 m2 user prevs event :
  ∃ o, check_event w m1 m2 user prevs event = Some o
    ∧ ∀ a, o = Some a ↔
        AuthEvent.result event = "success"
        ∧ trailing_failures w prevs event ≠ []
        ∧ ∃ attack_type threshold,
            triggers m1 m2 (trailing_failures w prevs event)
              attack_type threshold
            ∧ _create_alert user (trailing_failures w prevs event) event
                (count_ips (trailing_failures w prevs event))
                attack_type threshold = Some a.
Proof.
  unfold check_event. fold (trailing_failures w prevs event).
  case_bool_decide as Hres; simpl.
  2:{ exists None. split; [done|]. intros a. split; [done|tauto]. }
  destruct (trailing_failures w prevs event) as [|f F'] eqn:HF.
  { exists None. split; [done|]. intros a. split; [done|]. by intros (_&?&_). }
  set (F := f :: F') in *. assert (F ≠ []) as HFne by done.
  clearbody F. clear HF f F'.
  destruct (Z.leb_spec m1 (max_count (count_ips F))) as [Hm1|Hm1].
  - destruct (create_alert_spec user F event "same_ip" m1 HFne)
      as (a0 & ff & Hc & _).
    rewrite Hc. exists (Some a0). split; [done|]. intros a. split.
    + intros [= <-]. split_and!; [done..|]. exists "same_ip", m1.
      split; [|done]. left. split_and!; [|done..].
      by apply max_count_ge.
    + intros (_ & _ & ty & thr & Htr & Hca).
      destruct Htr as [(_ & -> & ->)|(Hlt & _)]; [congruence|].
      exfalso. destruct (max_count_attained F HFne) as (ip & Hip & _).
      specialize (Hlt ip). lia.
  - destruct (Z.leb_spec m2 (Z.of_nat (length F))) as [Hm2|Hm2].
    + destruct (create_alert_spec user F event "multi_ip" m2 HFne)
        as (a0 & ff & Hc & _).
      rewrite Hc. exists (Some a0). split; [done|]. intros a. split.
      * intros [= <-]. split_and!; [done..|]. exists "multi_ip", m2.
        split; [|done]. right. split_and!; [|done..].
        intros ip. pose proof (max_count_upper ip F). lia.
      * intros (_ & _ & ty & thr & Htr & Hca).
        destruct Htr as [([ip Hip] & _)|(_ & _ & -> & ->)]; [|congruence].
        pose proof (max_count_upper ip F). lia.
    + exists None. split; [done|]. intros a. split; [done|].
      intros (_ & _ & ty & thr & Htr & _).
      destruct Htr as [([ip Hip] & _)|(_ & ? & _)]; [|lia].
      pose proof (max_count_upper ip F). lia.
Qed.

(** One user's alerts: those of the positions of the sorted list. *)
Lemma detect_user_spec w m1 m2 user user_evts :
  ∃ alerts, detect_user w m1 m2 user user_evts = Some alerts
    ∧ ∀ a, a ∈ alerts ↔
        ∃ prevs event later,
          sort_by (key_le AuthEvent.ts) user_evts = prevs ++ event :: later
          ∧ check_event w m1 m2 user prevs event = Some (Some a).
Proof.
  unfold detect_user. set (sorted := sort_by _ user_evts).
  set (body := λ (i : nat) event,
         check_event w m1 m2 user (take i sorted) event).
  destruct (mapM id (imap body sorted)) as [found|] eqn:Hm; last first.
  { exfalso. apply mapM_None in Hm. apply Exists_exists in Hm as (o & Ho & Hn).
    apply elem_of_lookup_imap in Ho as (i & e & -> & _).
    destruct (check_event_spec w m1 m2 user (take i sorted) e) as (o & Ho & _).
    unfold body in Hn. simpl in Hn. congruence. }
  simpl. eexists. split; [done|]. intros a.
  apply mapM_id_Some in Hm. rewrite list_elem_of_omap. split.
  - intros (o & Ho & Hid). simpl in Hid. subst o.
    assert (Some (Some a) ∈ imap body sorted) as Hin.
    { rewrite Hm. by apply list_elem_of_fmap_2. }
    apply elem_of_lookup_imap in Hin as (i & e & Hb & Hi).
    exists (take i sorted), e, (drop (S i) sorted). split; [|done].
    by rewrite take_drop_middle.
  - intros (prevs & e & later & Hs & Hc). exists (Some a). split; [|done].
    assert (Some (Some a) ∈ imap body sorted) as Hin.
    { apply elem_of_lookup_imap. exists (length prevs), e. unfold body.
      rewrite Hs at 1 2. rewrite take_app_length. split; [done|].
      by rewrite list_lookup_middle. }
    rewrite Hm in Hin. apply list_elem_of_fmap in Hin as (o & [= <-] & ?).
    done.
Qed.

(** The detector never raises; its alerts are those of the successes of
    each user's time-sorted events. *)
Lemma detect_chain_spec events w m1 m2 :
  ∃ alerts, detect_fail_success_chain events w m1 m2 = Some alerts
    ∧ ∀ a, a ∈ alerts ↔
        ∃ user prevs event later,
          sort_by (key_le AuthEvent.ts) (events_of user events)
            = prevs ++ event :: later
          ∧ check_event w m1 m2 user prevs event = Some (Some a).
Proof.
  unfold detect_fail_success_chain.
  set (f := λ '(user, user_evts), detect_user w m1 m2 user user_evts).
  destruct (mapM f (group_by AuthEvent.user events)) as [per_user|] eqn:Hm;
    last first.
  { exfalso. apply mapM_None in Hm.
    apply Exists_exists in Hm as ([u evts] & _ & Hn).
    destruct (detect_user_spec w m1 m2 u evts) as (? & ? & _).
    simpl in Hn. congruence. }
  simpl. eexists. split; [done|]. intros a. apply mapM_Some in Hm.
  rewrite elem_of_concat. split.
  - intros (l & Hl & Ha). apply list_elem_of_lookup in Hl as [i Hi].
    destruct (Forall2_lookup_r _ _ _ _ _ Hm Hi) as ([u evts] & Hg & Hf).
    simpl in Hf. destruct (detect_user_spec w m1 m2 u evts) as (l' & Hl' & Hspec).
    assert (l' = l) as -> by congruence.
    destruct (proj1 (Hspec a) Ha) as (prevs & e & later & Hs & Hc).
    apply list_elem_of_lookup_2, elem_of_group_by in Hg as [Hevts _].
    subst evts. by exists u, prevs, e, later.
  - intros (u & prevs & e & later & Hs & Hc).
    assert ((u, events_of u events) ∈ group_by AuthEvent.user events) as Hg.
    { apply elem_of_group_by. split; [done|]. intros Hnil.
      fold (events_of u events) in Hnil. rewrite Hnil in Hs.
      by destruct prevs. }
    apply list_elem_of_lookup in Hg as [i Hi].
    destruct (Forall2_lookup_l _ _ _ _ _ Hm Hi) as (l & Hl & Hf).
    simpl in Hf. exists l. split; [by eapply list_elem_of_lookup_2|].
    destruct (detect_user_spec w m1 m2 u (events_of u events))
      as (l' & Hl' & Hspec).
    assert (l' = l) as -> by congruence.
    apply Hspec. by exists prevs, e, later.
Qed.
End chain_alerts.

Section chain_claims.
Context `{PyRuntime}.
Import fail_success_chain.
Implicit Types (F prevs : list AuthEvent) (a : Alert).

(** When the policy triggers, the failures reach the threshold that
    fired. *)
Lemma triggers_threshold m1 m2 F attack_type threshold :
  triggers m1 m2 F attack_type threshold → threshold ≤ Z.of_nat (length F).
Proof.
  intros [([ip Hip] & _ & ->)|(_ & ? & _ & ->)]; [|done].
  pose proof (failures_from_le_length ip F). lia.
Qed.

Lemma triggers_severity m1 m2 F attack_type threshold :
  triggers m1 m2 F attack_type threshold →
  chain_severity F attack_type threshold = "high"
  ∨ chain_severity F attack_type threshold = "medium".
Proof.
  intros Htr. apply triggers_threshold in Htr. unfold chain_severity.
  destruct (_ && _); [by left|]. right.
  destruct (Z.leb_spec threshold (Z.of_nat (length F))); [done|lia].
Qed.

(** Every alert of the detector, traced back to the success event and the
    window it comes from. *)
Lemma chain_alert_origin events w m1 m2 alerts a :
  detect_fail_success_chain events w m1 m2 = Some alerts →
  a ∈ alerts →
  ∃ user prevs success later attack_type threshold first_failure,
    sort_by (key_le AuthEvent.ts) (events_of user events)
      = prevs ++ success :: later
    ∧ AuthEvent.result success = "success"
    ∧ trailing_failures w prevs success ≠ []
    ∧ triggers m1 m2 (trailing_failures w prevs success)
        attack_type threshold
    ∧ first_failure ∈ trailing_failures w prevs success
    ∧ Alert.ts_start a = AuthEvent.ts first_failure
    ∧ Alert.ts_end a = AuthEvent.ts success
    ∧ Alert.severity a
      = chain_severity (trailing_failures w prevs success)
          attack_type threshold.
Proof.
  intros Hd Ha.
  destruct (detect_chain_spec events w m1 m2) as (alerts' & Hd' & Hspec).
  assert (alerts' = alerts) as -> by congruence.
  apply Hspec in Ha as (user & prevs & s & later & Hsort & Hc).
  destruct (check_event_spec w m1 m2 user prevs s) as (o & Ho & Hiff).
  assert (o = Some a) as -> by congruence.
  destruct (proj1 (Hiff a) eq_refl) as (Hres & HF & ty & thr & Htr & Hca).
  destruct (create_alert_spec user _ s ty thr HF)
    as (a' & ff & Hca' & Hhd & _ & _ & Hts & Hte & Hsev & _).
  assert (a' = a) as -> by congruence.
  exists user, prevs, s, later, ty, thr, ff. split_and!; try done.
  apply (sort_by_elem_of (key_le AuthEvent.ts)).
  apply head_Some_elem_of. exact Hhd.
Qed.
End chain_claims.

(** ** The impossible-travel detector *)

Lemma Qgt_bool_true a b : Qgt_bool a b = true ↔ (b < a)%Q.
Proof.
  unfold Qgt_bool. rewrite negb_true_iff, <- not_true_iff_false, Qle_bool_iff.
  split; [apply Qnot_le_lt|apply Qlt_not_le].
Qed.

Lemma Qgt_bool_false a b : Qgt_bool a b = false ↔ (a <= b)%Q.
Proof.
  unfold Qgt_bool. by rewrite negb_false_iff, Qle_bool_iff.
Qed.

Lemma Qle_bool_false a b : Qle_bool a b = false ↔ (b < a)%Q.
Proof.
  rewrite <- not_true_iff_false, Qle_bool_iff.
  split; [apply Qnot_le_lt|apply Qlt_not_le].
Qed.

Lemma elem_of_consecutive_pairs {A} (l : list A) x y :
  (x, y) ∈ impossible_travel.consecutive_pairs l
  ↔ ∃ l1 l2, l = l1 ++ x :: y :: l2.
Proof.
  unfold impossible_travel.consecutive_pairs.
  induction l as [|z l IH]; simpl.
  - split; [by intros ?%elem_of_nil|]. intros (l1 & l2 & Hl). by destruct l1.
  - destruct l as [|z' l]; simpl in *.
    + split; [by intros ?%elem_of_nil|]. intros (l1 & l2 & Hl).
      destruct l1 as [|? [|??]]; simplify_eq.
    + rewrite elem_of_cons, IH. split.
      * intros [[= -> ->]|(l1 & l2 & ->)]; [by exists [], l|].
        by exists (z :: l1), l2.
      * intros (l1 & l2 & Hl). destruct l1 as [|z0 l1]; simplify_eq/=.
        -- by left.
        -- right. by exists l1, l2.
  Qed.

Section travel_facts.
Context `{PyRuntime}.
Import impossible_travel.

(** A pair is skipped when its elapsed time exceeds [max_hours] or is not
    positive; a pair that is flagged has an elapsed time in between and a
    required speed above the threshold. *)
Lemma check_pair_skips thr max_hours e1 loc1 e2 loc2 :
  let dt := hours_between (AuthEvent.ts e1) (AuthEvent.ts e2) in
  (max_hours < dt)%Q ∨ (dt <= 0)%Q →
  check_pair thr max_hours ((e1, loc1), (e2, loc2)) = None.
Proof.
  intros dt Hdt. unfold check_pair. fold dt.
  destruct Hdt as [Hgt|Hle].
  - apply Qgt_bool_true in Hgt. by rewrite Hgt.
  - apply Qle_bool_iff in Hle. rewrite Hle. by rewrite orb_true_r.
Qed.

Lemma check_pair_Some thr max_hours e1 loc1 e2 loc2 a :
  check_pair thr max_hours ((e1, loc1), (e2, loc2)) = Some a →
  let dt := hours_between (AuthEvent.ts e1) (AuthEvent.ts e2) in
  let speed := fl (haversine loc1 loc2 / dt) in
  (0 < dt)%Q ∧ (dt <= max_hours)%Q ∧ (thr < speed)%Q
  ∧ a = _create_alert e1 e2 (haversine loc1 loc2) dt (Finite speed).
Proof.
  intros Hc dt speed. unfold check_pair in Hc. fold dt in Hc.
  destruct (Qgt_bool dt max_hours) eqn:Hmax; [done|].
  destruct (Qle_bool dt 0) eqn:Hpos; [done|]. simpl in Hc.
  apply Qgt_bool_false in Hmax. apply Qle_bool_false in Hpos.
  assert (Qgt_bool dt 0 = true) as Hgt by by apply Qgt_bool_true.
  rewrite Hgt in Hc. fold speed in Hc. simpl in Hc.
  destruct (Qgt_bool speed thr) eqn:Hs; [|done].
  apply Qgt_bool_true in Hs. by simplify_eq.
Qed.

(** Every alert comes from two neighbours of a user's time-sorted
    geo-located successes. *)
Lemma travel_alert_origin events thr max_hours a :
  a ∈ detect_impossible_travel events thr max_hours →
  ∃ user l1 p1 p2 l2,
    sort_by (key_le (AuthEvent.ts ∘ fst)) (located_of user events)
      = l1 ++ p1 :: p2 :: l2
    ∧ check_pair thr max_hours (p1, p2) = Some a.
Proof.
  unfold detect_impossible_travel. rewrite elem_of_concat.
  intros (l & Hl & Ha). apply list_elem_of_fmap in Hl as ([u evts] & -> & Hg).
  apply elem_of_group_by in Hg as [-> _]. unfold detect_user in Ha.
  apply list_elem_of_omap in Ha as ([p1 p2] & Hp & Hc).
  apply elem_of_consecutive_pairs in Hp as (l1 & l2 & Hs).
  by exists u, l1, p1, p2, l2.
Qed.

Lemma create_travel_alert_span e1 e2 d h s :
  Alert.ts_start (_create_alert e1 e2 d h s)
  ≤ Alert.ts_end (_create_alert e1 e2 d h s).
Proof. simpl. lia. Qed.
End travel_facts.

Section travel_complete.
Context `{PyRuntime}.
Import impossible_travel.

Lemma travel_alert_emitted events thr max_hours user l1 p1 p2 l2 a :
  sort_by (key_le (AuthEvent.ts ∘ fst)) (located_of user events)
    = l1 ++ p1 :: p2 :: l2 →
  check_pair thr max_hours (p1, p2) = Some a →
  a ∈ detect_impossible_travel events thr max_hours.
Proof.
  intros Hs Hc. unfold detect_impossible_travel. apply elem_of_concat.
  exists (detect_user thr max_hours (located_of user events)). split.
  - apply list_elem_of_fmap. exists (user, located_of user events).
    split; [done|]. apply elem_of_group_by. split; [done|].
    fold (located_of user events). intros Hnil. rewrite Hnil in Hs.
    by destruct l1.
  - unfold detect_user. apply list_elem_of_omap. exists (p1, p2).
    split; [|done]. apply elem_of_consecutive_pairs. by exists l1, l2.
Qed.
End travel_complete.

(** ** The new-device detector *)

Lemma truthy_str_true o : truthy_str o = true ↔ ∃ s, o = Some s ∧ s ≠ "".
Proof.
  destruct o as [s|]; simpl.
  - rewrite negb_true_iff, String.eqb_neq. naive_solver.
  - naive_solver.
Qed.

Lemma mem_true x s : mem x s = true ↔ x ∈ s.
Proof. unfold mem. apply bool_decide_eq_true. Qed.

Lemma mem_false x s : mem x s = false ↔ x ∉ s.
Proof. unfold mem. apply bool_decide_eq_false. Qed.

Section device_facts.
Context `{PyRuntime}.
Import new_device_ua.
Implicit Types (e event : AuthEvent) (b : DeviceBaseline) (a : Alert).

(** What the three flags of [_check_for_anomaly] mean. *)
Lemma is_new_device_true e b :
  truthy (is_new_device e b) = true
  ↔ ∃ d, AuthEvent.device_id e = Some d ∧ d ≠ "" ∧ d ∉ device_ids b.
Proof.
  unfold is_new_device. destruct (AuthEvent.device_id e) as [d|]; [|naive_solver].
  destruct (String.eqb_spec d "") as [->|Hd]; simpl; [naive_solver|].
  rewrite negb_true_iff, mem_false. naive_solver.
Qed.

Lemma is_new_ua_family_true e b :
  is_new_ua_family e b = true
  ↔ truthy_str (AuthEvent.user_agent e) = true
    ∧ ua_families b ≠ []
    ∧ _get_ua_family (AuthEvent.user_agent e) ≠ ""
    ∧ _get_ua_family (AuthEvent.user_agent e) ∉ ua_families b.
Proof.
  unfold is_new_ua_family, new_ua_family. rewrite bool_decide_eq_true.
  destruct (truthy_str (AuthEvent.user_agent e)); simpl;
    [|split; [by intros [??]|by intros [? _]]].
  destruct (ua_families b) as [|f fs] eqn:Hb; simpl;
    [split; [by intros [??]|by intros (_&?&_)]|].
  rewrite <- Hb.
  destruct (String.eqb_spec (_get_ua_family (AuthEvent.user_agent e)) "")
    as [He|He]; simpl; [split; [by intros [??]|by intros (_&_&?&_)]|].
  destruct (mem _ (ua_families b)) eqn:Hm; simpl.
  - apply mem_true in Hm. split; [by intros [??]|by intros (_&_&_&?)].
  - apply mem_false in Hm. split; [|by eexists]. intros _. split_and!; try done.
    by rewrite Hb.
Qed.

Lemma is_new_country_true e b :
  truthy (is_new_country e b) = true
  ↔ ∃ c, AuthEvent.country e = Some c ∧ countries b ≠ [] ∧ c ∉ countries b.
Proof.
  unfold is_new_country. destruct (AuthEvent.country e) as [c|];
    [|naive_solver].
  destruct (countries b) as [|c0 cs] eqn:Hb; simpl; [naive_solver|].
  rewrite negb_true_iff, mem_false. naive_solver.
Qed.

(** No alert unless the device or the UA family is new; the severity of an
    alert is decided by the country flag. *)
Lemma check_for_anomaly_None e b user :
  _check_for_anomaly e b user = None
  ↔ truthy (is_new_device e b) = false ∧ is_new_ua_family e b = false.
Proof.
  unfold _check_for_anomaly.
  destruct (truthy (is_new_device e b)), (is_new_ua_family e b); simpl;
    naive_solver.
Qed.

Lemma check_for_anomaly_Some e b user a :
  _check_for_anomaly e b user = Some a →
  (truthy (is_new_device e b) = true ∨ is_new_ua_family e b = true)
  ∧ Alert.severity a
    = (if truthy (is_new_country e b) then "high" else "medium")
  ∧ Alert.detector a = "new_device_ua"
  ∧ Alert.user a = user
  ∧ Alert.ts_start a = AuthEvent.ts e
  ∧ Alert.ts_end a = AuthEvent.ts e
  ∧ Alert.related_event_ids a = [AuthEvent.event_id e].
Proof.
  unfold _check_for_anomaly.
  destruct (truthy (is_new_device e b)) eqn:Hd,
    (is_new_ua_family e b) eqn:Hu; simpl; intros [= <-]; simpl;
    (split; [tauto|]); by destruct (truthy (is_new_country e b)).
Qed.

(** The walk: the alert of each event is computed from the baseline
    folded over the events before it. *)
Lemma walk_spec user b evts a :
  a ∈ walk user b evts
  ↔ ∃ pre e post,
      evts = pre ++ e :: post
      ∧ step_alert user (fold_left update_baseline pre b) e = Some a.
Proof.
  revert b. induction evts as [|e0 evts IH]; intros b; simpl.
  - split; [by intros ?%elem_of_nil|]. intros (pre & ? & ? & ? & _).
    by destruct pre.
  - rewrite elem_of_app, IH. split.
    + intros [Ha|(pre & e & post & -> & Hs)].
      * exists [], e0, evts. split; [done|]. simpl.
        destruct (step_alert user b e0); simpl in Ha;
          [by apply list_elem_of_singleton in Ha; subst|by apply elem_of_nil in Ha].
      * by exists (e0 :: pre), e, post.
    + intros (pre & e & post & Heq & Hs). destruct pre as [|p pre];
        simplify_eq/=.
      * left. rewrite Hs. simpl. left.
      * right. by exists pre, e, post.
Qed.

Lemma detect_new_device_spec events days a :
  a ∈ detect_new_device events days
  ↔ ∃ user pre e post,
      events_of user (sort_by (key_le AuthEvent.ts) events)
        = pre ++ e :: post
      ∧ step_alert user (baseline_after pre) e = Some a.
Proof.
  unfold detect_new_device.
  destruct (sort_by (key_le AuthEvent.ts) events) as [|e0 sorted] eqn:Hs.
  { split; [by intros ?%elem_of_nil|]. intros (u & pre & ? & ? & Hf & _).
    by destruct pre. }
  rewrite <- Hs. clear Hs e0 sorted. rewrite elem_of_concat. split.
  - intros (l & Hl & Ha).
    apply list_elem_of_fmap in Hl as ([u evts] & -> & Hg).
    apply elem_of_group_by in Hg as [-> _].
    apply walk_spec in Ha as (pre & e & post & Heq & Hst).
    by exists u, pre, e, post.
  - intros (u & pre & e & post & Heq & Hst).
    exists (walk u empty_baseline (events_of u (sort_by (key_le AuthEvent.ts) events))).
    split.
    + apply list_elem_of_fmap.
      exists (u, events_of u (sort_by (key_le AuthEvent.ts) events)).
      split; [done|]. apply elem_of_group_by. split; [done|].
      fold (events_of u (sort_by (key_le AuthEvent.ts) events)).
      rewrite Heq. by destruct pre.
    + apply walk_spec. by exists pre, e, post.
Qed.

(** The baseline after a run of events: what the events that carry a
    device id have contributed. *)
Lemma baseline_after_snoc pre e :
  baseline_after (pre ++ [e]) = update_baseline (baseline_after pre) e.
Proof. unfold baseline_after. by rewrite fold_left_app. Qed.

Lemma update_baseline_carries b e :
  carries_device e →
  ∃ d, AuthEvent.device_id e = Some d ∧ d ≠ ""
    ∧ update_baseline b e =
        {| device_ids := set_order (device_ids b ++ [d]);
           ua_families :=
             set_order (ua_families b
                          ++ [_get_ua_family (AuthEvent.user_agent e)]);
           countries :=
             set_order (countries b
                          ++ (if truthy_str (AuthEvent.country e)
                              then option_list (AuthEvent.country e)
                              else []));
           last_seen := Some (AuthEvent.ts e) |}.
Proof.
  intros (d & Hd & Hne)%truthy_str_true. exists d. split_and!; [done..|].
  unfold update_baseline. rewrite Hd. simpl.
  destruct (String.eqb_spec d ""); [done|]. done.
Qed.

Lemma update_baseline_skips b e :
  ¬ carries_device e → update_baseline b e = b.
Proof.
  unfold carries_device, update_baseline.
  destruct (AuthEvent.device_id e) as [d|]; simpl; [|done].
  by destruct (negb (String.eqb d "")).
Qed.

Lemma baseline_device_ids pre d :
  d ∈ device_ids (baseline_after pre)
  ↔ ∃ p, p ∈ pre ∧ AuthEvent.device_id p = Some d ∧ d ≠ "".
Proof.
  induction pre as [|e pre IH] using rev_ind.
  - split; [by intros ?%elem_of_nil|]. by intros (? & ?%elem_of_nil & _).
  - rewrite baseline_after_snoc.
    destruct (decide (carries_device e)) as [Hc|Hc].
    + destruct (update_baseline_carries (baseline_after pre) e Hc)
        as (d' & Hd' & Hne & ->). simpl.
      rewrite set_order_elem, elem_of_app, IH, list_elem_of_singleton.
      setoid_rewrite elem_of_app. setoid_rewrite list_elem_of_singleton.
      split.
      * intros [(p & ? & ? & ?)| ->]; [exists p|exists e]; naive_solver.
      * intros (p & [?| ->] & ? & ?); [left; by exists p|right; congruence].
    + rewrite update_baseline_skips by done. rewrite IH.
      setoid_rewrite elem_of_app. setoid_rewrite list_elem_of_singleton.
      split; [naive_solver|]. intros (p & [?| ->] & Hp & ?); [by exists p|].
      exfalso. apply Hc. apply truthy_str_true. by exists d.
Qed.

Lemma baseline_ua_families pre f :
  f ∈ ua_families (baseline_after pre)
  ↔ ∃ p, p ∈ pre ∧ carries_device p
      ∧ f = _get_ua_family (AuthEvent.user_agent p).
Proof.
  induction pre as [|e pre IH] using rev_ind.
  - split; [by intros ?%elem_of_nil|]. by intros (? & ?%elem_of_nil & _).
  - rewrite baseline_after_snoc.
    destruct (decide (carries_device e)) as [Hc|Hc].
    + destruct (update_baseline_carries (baseline_after pre) e Hc)
        as (d' & Hd' & Hne & ->). simpl.
      rewrite set_order_elem, elem_of_app, IH, list_elem_of_singleton.
      setoid_rewrite elem_of_app. setoid_rewrite list_elem_of_singleton.
      split.
      * intros [(p & ? & ? & ?)| ->]; [exists p|exists e]; naive_solver.
      * intros (p & [?| ->] & ? & ?); [left; by exists p|by right].
    + rewrite update_baseline_skips by done. rewrite IH.
      setoid_rewrite elem_of_app. setoid_rewrite list_elem_of_singleton.
      split; [intros (p & ? & ?); exists p; tauto|].
      intros (p & [Hin|Heq] & Hp & Hrest); [by exists p|]. by subst p.
Qed.

Lemma baseline_countries pre c :
  c ∈ countries (baseline_after pre)
  ↔ ∃ p, p ∈ pre ∧ carries_device p
      ∧ AuthEvent.country p = Some c ∧ c ≠ "".
Proof.
  induction pre as [|e pre IH] using rev_ind.
  - split; [by intros ?%elem_of_nil|]. by intros (? & ?%elem_of_nil & _).
  - rewrite baseline_after_snoc.
    destruct (decide (carries_device e)) as [Hc|Hc].
    + destruct (update_baseline_carries (baseline_after pre) e Hc)
        as (d' & Hd' & Hne & ->). simpl.
      rewrite set_order_elem, elem_of_app, IH.
      setoid_rewrite elem_of_app. setoid_rewrite list_elem_of_singleton.
      split.
      * intros [(p & ? & ? & ?)|Hin]; [exists p; naive_solver|].
        exists e. destruct (truthy_str (AuthEvent.country e)) eqn:Ht;
          [|by apply elem_of_nil in Hin].
        apply truthy_str_true in Ht as (c' & Hc' & ?). rewrite Hc' in Hin.
        apply list_elem_of_singleton in Hin as ->. naive_solver.
      * intros (p & [?| ->] & ? & Hp & ?); [left; by exists p|right].
        rewrite Hp. simpl. destruct (String.eqb_spec c ""); [done|].
        simpl. left.
    + rewrite update_baseline_skips by done. rewrite IH.
      setoid_rewrite elem_of_app. setoid_rewrite list_elem_of_singleton.
      split; [intros (p & ? & ?); exists p; tauto|].
      intros (p & [Hin|Heq] & Hp & Hrest); [by exists p|]. by subst p.
Qed.

Lemma baseline_knows_device pre :
  device_ids (baseline_after pre) ≠ []
  ↔ ∃ p, p ∈ pre ∧ carries_device p.
Proof.
  split.
  - intros Hne. destruct (device_ids (baseline_after pre)) as [|d ds] eqn:Hd;
      [done|].
    assert (d ∈ device_ids (baseline_after pre)) as Hin by (rewrite Hd; left).
    apply baseline_device_ids in Hin as (p & ? & ? & ?). exists p.
    split; [done|]. apply truthy_str_true. by exists d.
  - intros (p & Hp & (d & Hd & Hne)%truthy_str_true) Hnil.
    assert (d ∈ device_ids (baseline_after pre)) as Hin.
    { apply baseline_device_ids. by exists p. }
    rewrite Hnil in Hin. by apply elem_of_nil in Hin.
Qed.

(** One step of the walk appends an alert exactly when the event is a
    success, the baseline knows a device, and the check finds an
    anomaly. *)
Lemma step_alert_Some user b e a :
  step_alert user b e = Some a
  ↔ AuthEvent.result e = "success" ∧ device_ids b ≠ []
    ∧ _check_for_anomaly e b user = Some a.
Proof.
  unfold step_alert. case_bool_decide; [|naive_solver].
  destruct (device_ids b); simpl; naive_solver.
Qed.
End device_facts.

(** ** The correlation pass *)

Lemma intersects_true s1 s2 : intersects s1 s2 = true ↔ ∃ x, x ∈ s1 ∧ x ∈ s2.
Proof.
  unfold intersects. rewrite existsb_exists.
  setoid_rewrite mem_true. setoid_rewrite <- list_elem_of_In. done.
Qed.

Section merge_facts.
Import correlate.
Implicit Types (a b alert : Alert) (g cur : list Alert)
  (gs : list (list Alert)) (w : Z).

Lemma share_indicators_true a b :
  _share_indicators a b = true ↔ shares_indicator a b.
Proof.
  unfold _share_indicators, shares_indicator.
  fold (alert_ips a) (alert_ips b) (alert_device_ids a) (alert_device_ids b).
  rewrite <- !intersects_true.
  destruct (intersects (alert_ips a) (alert_ips b)),
    (intersects (alert_device_ids a) (alert_device_ids b)); naive_solver.
Qed.

(** The candidate joins the open group exactly when it merges with some
    member. *)
Lemma should_merge_true w alert cur :
  should_merge w alert cur = true ↔ ∃ m, m ∈ cur ∧ merges_with w alert m.
Proof.
  induction cur as [|m cur IH]; simpl.
  - split; [done|]. by intros (? & ?%elem_of_nil & _).
  - setoid_rewrite elem_of_cons. unfold merges_with at 1.
    destruct (Z.leb_spec (Alert.ts_start alert) (Alert.ts_end m + w)).
    { split; [|done]. intros _. exists m. split; [by left|by left]. }
    destruct (_share_indicators alert m) eqn:Hs.
    { apply share_indicators_true in Hs. split; [|done]. intros _.
      exists m. split; [by left|by right]. }
    rewrite IH. split.
    + intros (m' & ? & ?). exists m'. split; [by right|done].
    + intros (m' & [->|?] & Hm); [|by exists m'].
      destruct Hm as [?|Hm]; [lia|].
      apply share_indicators_true in Hm. congruence.
Qed.

(** One more alert at the end of the input: the closed groups stay as they
    are, and the alert joins the open group or opens a new one. *)
Lemma merge_loop_snoc w gs cur rest alert :
  ∃ closed open,
    merge_loop w gs cur rest = closed ++ [open]
    ∧ merge_loop w gs cur (rest ++ [alert])
      = if should_merge w alert open
        then closed ++ [open ++ [alert]]
        else closed ++ [open; [alert]].
Proof.
  revert gs cur. induction rest as [|x rest IH]; intros gs cur; simpl.
  - exists gs, cur. split; [done|].
    destruct (should_merge w alert cur); [done|].
    by rewrite <- app_assoc.
  - destruct (should_merge w x cur); apply IH.
Qed.

(** The groups are consecutive runs of the input. *)
Lemma merge_loop_concat w gs cur rest :
  concat (merge_loop w gs cur rest) = concat gs ++ cur ++ rest.
Proof.
  revert gs cur. induction rest as [|x rest IH]; intros gs cur; simpl.
  - by rewrite concat_app, (right_id_L [] (++)); simpl;
      rewrite (right_id_L [] (++)).
  - destruct (should_merge w x cur); rewrite IH.
    + by rewrite <- !app_assoc.
    + rewrite concat_app. simpl. rewrite (right_id_L [] (++)).
      by rewrite <- !app_assoc.
Qed.

Lemma merge_loop_nonempty w gs cur rest :
  Forall (λ g, g ≠ []) gs → cur ≠ [] →
  Forall (λ g, g ≠ []) (merge_loop w gs cur rest).
Proof.
  revert gs cur. induction rest as [|x rest IH]; intros gs cur Hgs Hcur; simpl.
  - apply Forall_app. split; [done|]. by constructor.
  - destruct (should_merge w x cur); apply IH; try done.
    + by destruct cur.
    + apply Forall_app. split; [done|]. by constructor.
Qed.

(** The group that is open when the loop ends begins with the group that
    was open at any earlier point or was opened later; the closed groups
    are a prefix of the result. *)
Lemma merge_loop_closed w gs cur rest :
  ∃ q later,
    merge_loop w gs cur rest = gs ++ (cur ++ q) :: later
    ∧ q ++ concat later = rest.
Proof.
  revert gs cur. induction rest as [|x rest IH]; intros gs cur; simpl.
  - exists [], []. by rewrite (right_id_L [] (++)).
  - destruct (should_merge w x cur).
    + destruct (IH gs (cur ++ [x])) as (q & later & -> & <-).
      exists (x :: q), later. by rewrite <- !app_assoc.
    + destruct (IH (gs ++ [cur]) [x]) as (q & later & -> & <-).
      exists [], (([x] ++ q) :: later). rewrite (right_id_L [] (++)).
      by rewrite <- !app_assoc.
Qed.

(** Alerts that each merge with a member of the open group are all
    appended to it. *)
Lemma merge_loop_absorbs w gs cur m l rest :
  m ∈ cur → Forall (λ x, merges_with w x m) l →
  merge_loop w gs cur (l ++ rest) = merge_loop w gs (cur ++ l) rest.
Proof.
  intros Hm Hl. revert cur Hm.
  induction Hl as [|x l Hx Hl IH]; intros cur Hm; simpl.
  - by rewrite (right_id_L [] (++)).
  - assert (should_merge w x cur = true) as ->.
    { apply should_merge_true. by exists m. }
    rewrite IH; [|apply elem_of_app; by left].
    by rewrite <- app_assoc.
Qed.

(** The state of the loop after a prefix of the input. *)
Lemma merge_loop_app w gs cur l1 l2 :
  ∃ gs' cur',
    merge_loop w gs cur (l1 ++ l2) = merge_loop w gs' cur' l2
    ∧ concat gs' ++ cur' = concat gs ++ cur ++ l1
    ∧ (cur ≠ [] → cur' ≠ []).
Proof.
  revert gs cur. induction l1 as [|x l1 IH]; intros gs cur; simpl.
  - exists gs, cur. by rewrite (right_id_L [] (++)).
  - destruct (should_merge w x cur).
    + destruct (IH gs (cur ++ [x])) as (gs' & cur' & -> & Hc & Hne).
      exists gs', cur'. split_and!; [done| |].
      * rewrite Hc. by rewrite <- !app_assoc.
      * intros _. apply Hne. by destruct cur.
    + destruct (IH (gs ++ [cur]) [x]) as (gs' & cur' & -> & Hc & Hne).
      exists gs', cur'. split_and!; [done| |].
      * rewrite Hc, concat_app. simpl. rewrite (right_id_L [] (++)).
        by rewrite <- !app_assoc.
      * intros _. by apply Hne.
Qed.

(** An alert and the alerts after it that merge with it end in one
    group, a run of the input. *)
Lemma merge_loop_same_group w gs cur l1 a l2 l3 :
  Forall (λ x, merges_with w x a) l2 →
  ∃ closed p q later,
    merge_loop w gs cur (l1 ++ a :: l2 ++ l3)
      = closed ++ (p ++ a :: l2 ++ q) :: later
    ∧ concat closed ++ p = concat gs ++ cur ++ l1
    ∧ q ++ concat later = l3.
Proof.
  intros Hl2.
  destruct (merge_loop_app w gs cur l1 (a :: l2 ++ l3))
    as (gs' & cur' & -> & Hc & _). simpl.
  destruct (should_merge w a cur').
  - rewrite (merge_loop_absorbs w gs' (cur' ++ [a]) a l2 l3);
      [|apply elem_of_app; right; left|done].
    destruct (merge_loop_closed w gs' ((cur' ++ [a]) ++ l2) l3)
      as (q & later & -> & Hq).
    exists gs', cur', q, later. split_and!; [|done..].
    by rewrite <- !app_assoc.
  - rewrite (merge_loop_absorbs w (gs' ++ [cur']) [a] a l2 l3);
      [|left|done].
    destruct (merge_loop_closed w (gs' ++ [cur']) ([a] ++ l2) l3)
      as (q & later & -> & Hq).
    exists (gs' ++ [cur']), [], q, later. split_and!; [|..|done].
    + by rewrite <- !app_assoc.
    + rewrite concat_app. simpl. by rewrite !(right_id_L [] (++)).
Qed.
End merge_facts.

Section merge_pass.
Context `{PyRuntime}.
Import correlate.
Implicit Types (a b alert : Alert) (alerts : list Alert).

Lemma merge_pass_snoc user window_hours pre alert :
  pre ≠ [] →
  ∃ closed open,
    _merge_alerts_into_cases user pre window_hours = closed ++ [open]
    ∧ _merge_alerts_into_cases user (pre ++ [alert]) window_hours
      = if should_merge (timedelta_hours window_hours) alert open
        then closed ++ [open ++ [alert]]
        else closed ++ [open; [alert]].
Proof.
  destruct pre as [|first rest]; [done|]. intros _. simpl.
  apply merge_loop_snoc.
Qed.

Lemma merge_pass_concat user window_hours alerts :
  concat (_merge_alerts_into_cases user alerts window_hours) = alerts
  ∧ Forall (λ g, g ≠ []) (_merge_alerts_into_cases user alerts window_hours).
Proof.
  destruct alerts as [|first rest]; simpl; [by split|]. split.
  - by rewrite merge_loop_concat.
  - by apply merge_loop_nonempty.
Qed.

Lemma merge_pass_same_group user window_hours l1 a l2 l3 :
  Forall (λ x, merges_with (timedelta_hours window_hours) x a) l2 →
  ∃ closed p q later,
    _merge_alerts_into_cases user (l1 ++ a :: l2 ++ l3) window_hours
      = closed ++ (p ++ a :: l2 ++ q) :: later
    ∧ concat closed ++ p = l1
    ∧ q ++ concat later = l3.
Proof.
  intros Hl2. destruct l1 as [|first l1]; simpl.
  - rewrite (merge_loop_absorbs _ [] [a] a l2 l3); [|left|done].
    destruct (merge_loop_closed (timedelta_hours window_hours) []
                ([a] ++ l2) l3) as (q & later & -> & Hq).
    exists [], [], q, later. by rewrite <- app_assoc.
  - destruct (merge_loop_same_group (timedelta_hours window_hours) []
                [first] l1 a l2 l3 Hl2) as (closed & p & q & later & -> & ? & ?).
    by exists closed, p, q, later.
Qed.

(** In the time-sorted list, an alert that starts within the window of an
    earlier alert's end is in the group of that alert, with everything
    between them. *)
Lemma merge_pass_time user window_hours user_alert_list l1 a l2 b l3 :
  sort_by (key_le Alert.ts_start) user_alert_list
    = l1 ++ a :: l2 ++ b :: l3 →
  Alert.ts_start b ≤ Alert.ts_end a + timedelta_hours window_hours →
  ∃ closed p q later,
    _merge_alerts_into_cases user
      (sort_by (key_le Alert.ts_start) user_alert_list) window_hours
      = closed ++ (p ++ a :: l2 ++ b :: q) :: later
    ∧ concat closed ++ p = l1 ∧ q ++ concat later = l3.
Proof.
  intros Hs Hab.
  pose proof (sort_by_sorted Alert.ts_start user_alert_list) as Hsorted.
  rewrite Hs in Hsorted. rewrite Hs.
  destruct (merge_pass_same_group user window_hours l1 a (l2 ++ [b]) l3)
    as (closed & p & q & later & Hm & ? & ?).
  { replace (l1 ++ a :: l2 ++ b :: l3) with ((l1 ++ a :: l2) ++ b :: l3)
      in Hsorted by (by rewrite <- app_assoc).
    apply sorted_before in Hsorted.
    apply Forall_app in Hsorted as [_ Hsorted].
    apply Forall_cons in Hsorted as [_ Hl2].
    apply Forall_app. split.
    - eapply Forall_impl; [exact Hl2|]. intros x Hx. left. simpl in Hx. lia.
    - constructor; [|done]. by left. }
  exists closed, p, q, later. rewrite <- !app_assoc in Hm. simpl in Hm.
  by rewrite <- Hm.
Qed.

(** Two neighbours that share an indicator are in one group. *)
Lemma merge_pass_share user window_hours l1 a b l3 :
  shares_indicator b a →
  ∃ closed p q later,
    _merge_alerts_into_cases user (l1 ++ a :: b :: l3) window_hours
      = closed ++ (p ++ a :: b :: q) :: later
    ∧ concat closed ++ p = l1 ∧ q ++ concat later = l3.
Proof.
  intros Hshare.
  destruct (merge_pass_same_group user window_hours l1 a [b] l3)
    as (closed & p & q & later & Hm & ? & ?).
  { constructor; [|done]. by right. }
  by exists closed, p, q, later.
Qed.
End merge_pass.

(** ** Timelines and cases *)

Lemma sort_by_Forall2 {A} (R : A → A → Prop) (le : A → A → bool) l1 l2 :
  (∀ a a' b b', R a a' → R b b' → le a b = le a' b') →
  Forall2 R l1 l2 → Forall2 R (sort_by le l1) (sort_by le l2).
Proof.
  intros Hle. induction 1 as [|x y l1 l2 Hxy Hl IH]; simpl; [constructor|].
  revert IH. generalize (sort_by le l1) (sort_by le l2). clear Hl l1 l2.
  induction 1 as [|x' y' k1 k2 Hxy' Hk IH]; simpl.
  - by repeat constructor.
  - rewrite (Hle x y x' y') by done.
    destruct (le y y'); by repeat constructor.
Qed.

Section timeline_facts.
Context `{PyRuntime}.
Import correlate.
Implicit Types (alerts : list Alert) (idx : gmap string AuthEvent).

Lemma build_timeline_sorted alerts idx :
  StronglySorted (key_rel AuthEvent.ts) (_build_timeline alerts idx).
Proof. apply sort_by_sorted. Qed.

Lemma elem_of_related alerts id :
  id ∈ concat (Alert.related_event_ids <$> alerts) ↔ referenced alerts id.
Proof.
  rewrite elem_of_concat. unfold referenced. split.
  - intros (l & Hl & Hid). apply list_elem_of_fmap in Hl as (a & -> & Ha).
    by exists a.
  - intros (a & Ha & Hid). exists (Alert.related_event_ids a).
    split; [by apply list_elem_of_fmap_2|done].
Qed.

Lemma elem_of_build_timeline alerts idx e :
  e ∈ _build_timeline alerts idx
  ↔ ∃ id, referenced alerts id ∧ idx !! id = Some e.
Proof.
  unfold _build_timeline. rewrite sort_by_elem_of, list_elem_of_omap.
  by setoid_rewrite set_order_elem; setoid_rewrite elem_of_related.
Qed.

(** Every referenced id is looked up once: the timeline is, up to order,
    the events found for a duplicate-free list of the referenced ids. *)
Lemma build_timeline_once alerts idx :
  ∃ ids, NoDup ids ∧ (∀ id, id ∈ ids ↔ referenced alerts id)
    ∧ _build_timeline alerts idx ≡ₚ omap (λ id, idx !! id) ids.
Proof.
  exists (set_order (concat (Alert.related_event_ids <$> alerts))).
  split_and!.
  - apply set_order_NoDup.
  - intros id. by rewrite set_order_elem, elem_of_related.
  - apply sort_by_perm.
Qed.

Lemma omap_lookup_event_ids idx (ids : list string) :
  keyed_by_id idx →
  AuthEvent.event_id <$> omap (λ id, idx !! id) ids
  = filter (λ id, is_Some (idx !! id)) ids.
Proof.
  intros Hk. induction ids as [|id ids IH]; csimpl; [done|].
  rewrite filter_cons. destruct (idx !! id) as [e|] eqn:He; csimpl.
  - rewrite IH. f_equal. by apply Hk.
  - done.
Qed.

Lemma build_timeline_NoDup alerts idx :
  keyed_by_id idx →
  NoDup (AuthEvent.event_id <$> _build_timeline alerts idx).
Proof.
  intros Hk. destruct (build_timeline_once alerts idx) as (ids & Hnd & _ & Hp).
  rewrite Hp, omap_lookup_event_ids by done. by apply NoDup_filter.
Qed.

(** Whether a case can be built does not depend on the index. *)
Lemma build_case_is_Some hex user alerts idx idx' :
  is_Some (_build_case hex user alerts idx)
  → is_Some (_build_case hex user alerts idx').
Proof.
  unfold _build_case. destruct alerts as [|a0 rest]; [done|].
  destruct (scoring.calculate_case_score (a0 :: rest)) as [[??]|]; simpl;
    [by eauto|by intros [??]].
Qed.

Lemma build_case_timeline hex user alerts idx c :
  _build_case hex user alerts idx = Some c →
  Case.timeline c = _build_timeline alerts idx ∧ Case.alerts c = alerts.
Proof.
  unfold _build_case. destruct alerts as [|a0 rest]; [done|].
  destruct (scoring.calculate_case_score (a0 :: rest)) as [[??]|]; simpl;
    [|done]. by intros [= <-].
Qed.
End timeline_facts.

Section cases_of_groups.
Context `{PyRuntime}.
Import correlate.
Implicit Types (alerts : list Alert) (idx : gmap string AuthEvent)
  (uuid : nat → string).

Lemma build_case_fields hex user alerts idx c :
  _build_case hex user alerts idx = Some c →
  Case.user c = user ∧ Case.alerts c = alerts.
Proof.
  unfold _build_case. destruct alerts as [|a0 rest]; [done|].
  destruct (scoring.calculate_case_score (a0 :: rest)) as [[??]|]; simpl;
    [|done]. by intros [= <-].
Qed.

(** The time span of a case is the least start and the greatest end of its
    alerts. *)
Lemma build_case_span hex user alerts idx c :
  _build_case hex user alerts idx = Some c →
  (Case.ts_start c ∈ Alert.ts_start <$> alerts
   ∧ ∀ a, a ∈ alerts → Case.ts_start c ≤ Alert.ts_start a)
  ∧ (Case.ts_end c ∈ Alert.ts_end <$> alerts
     ∧ ∀ a, a ∈ alerts → Alert.ts_end a ≤ Case.ts_end c).
Proof.
  unfold _build_case. destruct alerts as [|a0 rest]; [done|].
  destruct (scoring.calculate_case_score (a0 :: rest)) as [[??]|]; simpl;
    [|done]. intros [= <-]. simpl.
  destruct (py_min_spec (Alert.ts_start a0) (Alert.ts_start <$> rest))
    as [Hmin_in Hmin].
  destruct (py_max_spec (Alert.ts_end a0) (Alert.ts_end <$> rest))
    as [Hmax_in Hmax].
  split; (split; [done|]); intros a Ha.
  - apply Hmin. by apply (list_elem_of_fmap_2 Alert.ts_start) in Ha.
  - apply Hmax. by apply (list_elem_of_fmap_2 Alert.ts_end) in Ha.
Qed.

(** Each group of a user becomes one case, in order. *)
Lemma build_cases_spec uuid n user groups idx cases :
  build_cases uuid n user groups idx = Some cases →
  Forall2 (λ g c, Case.user c = user ∧ Case.alerts c = g) groups cases.
Proof.
  revert n cases. induction groups as [|g groups IH]; intros n cases; simpl.
  - intros [= <-]. constructor.
  - destruct (_build_case (uuid n) user g idx) as [c|] eqn:Hc; simpl; [|done].
    destruct (build_cases uuid (S n) user groups idx) as [cs|] eqn:Hcs; simpl;
      [|done].
    intros [= <-]. constructor; [by eapply build_case_fields|by eapply IH].
Qed.

Lemma user_loop_spec uuid n user_alerts idx window_hours cases :
  user_loop uuid n user_alerts idx window_hours = Some cases →
  Forall2 (λ ug c, Case.user c = ug.1 ∧ Case.alerts c = ug.2)
    (concat ((λ '(user, l),
                (λ g, (user, g))
                  <$> _merge_alerts_into_cases user
                        (sort_by (key_le Alert.ts_start) l) window_hours)
             <$> user_alerts))
    cases.
Proof.
  revert n cases. induction user_alerts as [|[user l] rest IH];
    intros n cases; simpl.
  - intros [= <-]. constructor.
  - set (groups := _merge_alerts_into_cases user _ window_hours).
    destruct (build_cases uuid n user groups idx) as [cs|] eqn:Hcs; simpl;
      [|done].
    destruct (user_loop uuid _ rest idx window_hours) as [more|] eqn:Hmore;
      simpl; [|done].
    intros [= <-]. apply Forall2_app; [|by eapply IH].
    apply build_cases_spec in Hcs. apply Forall2_fmap_l.
    eapply Forall2_impl; [exact Hcs|]. done.
Qed.

(** The cases of a run are the groups of the users' passes: every case
    holds one group of its user, and every group is held by a case. *)
Lemma correlate_cases_groups uuid alerts idx window_hours cases :
  correlate_cases uuid alerts idx window_hours = Some cases →
  (∀ c, c ∈ cases →
        Case.alerts c
        ∈ _merge_alerts_into_cases (Case.user c)
            (sort_by (key_le Alert.ts_start) (alerts_of (Case.user c) alerts))
            window_hours)
  ∧ (∀ user g,
       g ∈ _merge_alerts_into_cases user
             (sort_by (key_le Alert.ts_start) (alerts_of user alerts))
             window_hours →
       ∃ c, c ∈ cases ∧ Case.user c = user ∧ Case.alerts c = g).
Proof.
  unfold correlate_cases. destruct alerts as [|a0 alerts'] eqn:Halerts.
  { intros [= <-]. split; [by intros ? ?%elem_of_nil|].
    intros user g Hg. simpl in Hg. by apply elem_of_nil in Hg. }
  rewrite <- Halerts. clear Halerts a0 alerts'.
  destruct (user_loop uuid 0 _ idx window_hours) as [cs|] eqn:Hloop; simpl;
    [|done].
  intros [= <-]. apply user_loop_spec in Hloop. split.
  - intros c Hc. apply sort_by_elem_of in Hc.
    apply list_elem_of_lookup in Hc as [i Hi].
    destruct (Forall2_lookup_r _ _ _ _ _ Hloop Hi) as ([u g] & Hug & Hu & Hg).
    simpl in *. apply list_elem_of_lookup_2, elem_of_concat in Hug
      as (l & Hl & Hin).
    apply list_elem_of_fmap in Hl as ([u' l'] & -> & Hgrp).
    apply list_elem_of_fmap in Hin as (g' & [= -> ->] & Hg').
    apply elem_of_group_by in Hgrp as [-> _]. by rewrite Hu, Hg.
  - intros user g Hg.
    assert ((user, g) ∈ concat ((λ '(user, l),
                (λ g, (user, g))
                  <$> _merge_alerts_into_cases user
                        (sort_by (key_le Alert.ts_start) l) window_hours)
             <$> group_by Alert.user alerts)) as Hin.
    { apply elem_of_concat. eexists. split.
      - apply list_elem_of_fmap. exists (user, alerts_of user alerts).
        split; [reflexivity|]. apply elem_of_group_by. split; [done|].
        fold (alerts_of user alerts). intros Hnil. rewrite Hnil in Hg.
        simpl in Hg. by apply elem_of_nil in Hg.
      - simpl. by apply list_elem_of_fmap_2. }
    apply list_elem_of_lookup in Hin as [i Hi].
    destruct (Forall2_lookup_l _ _ _ _ _ Hloop Hi) as (c & Hc & Hu & Hg').
    exists c. split_and!; [|done..].
    apply sort_by_elem_of. by eapply list_elem_of_lookup_2.
Qed.
End cases_of_groups.

(** ** Runs under different set orders *)

Lemma string_leb_trans s1 s2 s3 :
  String.leb s1 s2 = true → String.leb s2 s3 = true → String.leb s1 s3 = true.
Proof.
  unfold String.leb. revert s2 s3.
  induction s1 as [|a s1 IH]; intros [|b s2] [|c s3]; simpl; try done.
  unfold Ascii.compare.
  destruct (N.compare_spec (N_of_ascii a) (N_of_ascii b)) as [Hab|Hab|Hab],
    (N.compare_spec (N_of_ascii b) (N_of_ascii c)) as [Hbc|Hbc|Hbc],
    (N.compare_spec (N_of_ascii a) (N_of_ascii c)) as [Hac|Hac|Hac];
    try done; try lia.
  apply IH.
Qed.

#[local] Instance string_le_trans : Transitive string_le.
Proof. intros s1 s2 s3. apply string_leb_trans. Qed.

#[local] Instance string_le_antisym : AntiSymm (=) string_le.
Proof. intros s1 s2. apply String.leb_antisym. Qed.

Lemma sort_insert_string_Sorted x l :
  Sorted string_le l → Sorted string_le (sort_insert String.leb x l).
Proof.
  induction 1 as [|y l Hl IH Hy]; simpl.
  - by repeat constructor.
  - destruct (String.leb x y) eqn:Hxy.
    + constructor; [by constructor|]. by constructor.
    + constructor; [done|].
      assert (string_le y x) as Hyx.
      { destruct (String.leb_total x y) as [?|?]; [congruence|done]. }
      destruct l as [|z l]; simpl in *.
      * by constructor.
      * destruct (String.leb x z); constructor; [done|].
        by apply HdRel_inv in Hy.
Qed.

Lemma sort_by_string_Sorted l : Sorted string_le (sort_by String.leb l).
Proof. induction l; simpl; [constructor|]. by apply sort_insert_string_Sorted. Qed.

(** Sorting strings forgets the order they came in. *)
Lemma sort_by_string_perm l1 l2 :
  l1 ≡ₚ l2 → sort_by String.leb l1 = sort_by String.leb l2.
Proof.
  intros Hp. apply (Sorted_unique string_le); try apply sort_by_string_Sorted.
  by rewrite !sort_by_perm.
Qed.

Lemma remove_dups_length_perm (l1 l2 : list string) :
  l1 ≡ₚ l2 → length (remove_dups l1) = length (remove_dups l2).
Proof.
  intros Hp. apply Permutation_length, NoDup_Permutation;
    try apply NoDup_remove_dups.
  intros x. by rewrite !elem_of_remove_dups, Hp.
Qed.

(** Events sorted by time whose timestamps are pairwise distinct are in one
    order only. *)
Lemma sorted_by_distinct_keys {A} (key : A → Z) (l1 l2 : list A) :
  NoDup (key <$> l1) →
  StronglySorted (key_rel key) l1 → StronglySorted (key_rel key) l2 →
  l1 ≡ₚ l2 → l1 = l2.
Proof.
  intros Hnd Hs1 Hs2 Hp. apply (StronglySorted_unique_strong (key_rel key));
    try done.
  intros x1 x2 Hx1 Hx2 H12 H21. unfold key_rel in *. rewrite <- Hp in Hx2.
  assert (key x1 = key x2) as Hk by lia.
  apply list_elem_of_lookup in Hx1 as [i Hi], Hx2 as [j Hj].
  assert (i = j) as ->; [|congruence].
  eapply NoDup_lookup; [exact Hnd| |].
  - rewrite list_lookup_fmap, Hi. done.
  - rewrite list_lookup_fmap, Hj. simpl. by rewrite Hk.
Qed.

Section two_runtimes.
Context (R1 R2 : PyRuntime).
Hypothesis same_timedelta :
  ∀ h, @timedelta_hours R1 h = @timedelta_hours R2 h.
Import correlate.
Implicit Types (alerts : list Alert) (idx : gmap string AuthEvent)
  (uuid : nat → string).

Lemma set_orders_perm l : @set_order R1 l ≡ₚ @set_order R2 l.
Proof. by rewrite !set_order_perm. Qed.

Lemma score_any_runtime alerts :
  @scoring.calculate_case_score R1 alerts
  = @scoring.calculate_case_score R2 alerts.
Proof.
  unfold scoring.calculate_case_score. destruct alerts; [done|].
  by rewrite !set_order_length.
Qed.

Lemma merge_any_runtime user alerts window_hours :
  @_merge_alerts_into_cases R1 user alerts window_hours
  = @_merge_alerts_into_cases R2 user alerts window_hours.
Proof.
  unfold _merge_alerts_into_cases. destruct alerts; [done|].
  by rewrite same_timedelta.
Qed.

Lemma timeline_any_runtime alerts idx :
  @_build_timeline R1 alerts idx ≡ₚ @_build_timeline R2 alerts idx.
Proof.
  unfold _build_timeline. rewrite !sort_by_perm.
  by rewrite set_orders_perm.
Qed.

Lemma timeline_any_runtime_eq alerts idx :
  NoDup (AuthEvent.ts <$> @_build_timeline R1 alerts idx) →
  @_build_timeline R1 alerts idx = @_build_timeline R2 alerts idx.
Proof.
  intros Hnd. apply (sorted_by_distinct_keys AuthEvent.ts); [done|..].
  - apply build_timeline_sorted.
  - apply build_timeline_sorted.
  - apply timeline_any_runtime.
Qed.

Lemma summary_any_runtime user alerts severity tl1 tl2 :
  tl1 ≡ₚ tl2 →
  @_generate_summary R1 user alerts severity tl1
  = @_generate_summary R2 user alerts severity tl2.
Proof.
  intros Hp. unfold _generate_summary.
  rewrite (sort_by_string_perm (@set_order R1 _) (@set_order R2 _))
    by apply set_orders_perm.
  rewrite !set_order_length.
  assert (∀ r, count_result r tl1 = count_result r tl2) as Hcount.
  { intros r. unfold count_result. by rewrite Hp. }
  rewrite !Hcount.
  rewrite (remove_dups_length_perm (AuthEvent.source_ip <$> tl1)
             (AuthEvent.source_ip <$> tl2)) by by rewrite Hp.
  rewrite (remove_dups_length_perm
             (omap (λ e, if truthy_str (AuthEvent.country e)
                         then AuthEvent.country e else None) tl1)
             (omap (λ e, if truthy_str (AuthEvent.country e)
                         then AuthEvent.country e else None) tl2))
    by by rewrite Hp.
  by rewrite (Permutation_length Hp).
Qed.

Lemma recommendations_any_runtime alerts :
  @_generate_recommendations R1 alerts = @_generate_recommendations R2 alerts.
Proof.
  unfold _generate_recommendations.
  assert (∀ x l, mem x (@set_order R1 l) = mem x (@set_order R2 l)) as Hmem.
  { intros x l. unfold mem. apply bool_decide_ext.
    by rewrite !set_order_elem. }
  by rewrite !Hmem.
Qed.

Lemma build_case_any_runtime hex1 hex2 user alerts idx :
  option_Forall2 same_case_upto_ties
    (@_build_case R1 hex1 user alerts idx)
    (@_build_case R2 hex2 user alerts idx).
Proof.
  unfold _build_case. destruct alerts as [|a0 rest]; [constructor|].
  rewrite score_any_runtime.
  destruct (@scoring.calculate_case_score R2 (a0 :: rest)) as [[??]|]; simpl;
    constructor.
  repeat split; simpl; try done.
  - apply summary_any_runtime, timeline_any_runtime.
  - apply recommendations_any_runtime.
  - apply timeline_any_runtime.
Qed.

Lemma build_cases_any_runtime uuid1 uuid2 n1 n2 user groups idx :
  option_Forall2 (Forall2 same_case_upto_ties)
    (@build_cases R1 uuid1 n1 user groups idx)
    (@build_cases R2 uuid2 n2 user groups idx).
Proof.
  revert n1 n2. induction groups as [|g groups IH]; intros n1 n2; simpl.
  - by repeat constructor.
  - destruct (build_case_any_runtime (uuid1 n1) (uuid2 n2) user g idx)
      as [c1 c2 Hc|]; simpl; [|constructor].
    destruct (IH (S n1) (S n2)) as [cs1 cs2 Hcs|]; simpl; constructor.
    by constructor.
Qed.

Lemma user_loop_any_runtime uuid1 uuid2 n1 n2 user_alerts idx window_hours :
  option_Forall2 (Forall2 same_case_upto_ties)
    (@user_loop R1 uuid1 n1 user_alerts idx window_hours)
    (@user_loop R2 uuid2 n2 user_alerts idx window_hours).
Proof.
  revert n1 n2. induction user_alerts as [|[user l] rest IH];
    intros n1 n2; simpl.
  - by repeat constructor.
  - rewrite merge_any_runtime.
    set (groups := @_merge_alerts_into_cases R2 user _ window_hours).
    destruct (build_cases_any_runtime uuid1 uuid2 n1 n2 user groups idx)
      as [cs1 cs2 Hcs|]; simpl; [|constructor].
    destruct (IH (n1 + length groups)%nat (n2 + length groups)%nat)
      as [more1 more2 Hmore|]; simpl; constructor.
    by apply Forall2_app.
Qed.

Lemma case_le_upto_ties c1 c1' c2 c2' :
  same_case_upto_ties c1 c1' → same_case_upto_ties c2 c2' →
  case_le c1 c2 = case_le c1' c2'.
Proof.
  intros (_ & Ht1 & _ & _ & Hs1 & _) (_ & Ht2 & _ & _ & Hs2 & _).
  unfold case_le, case_key. by rewrite Ht1, Ht2, Hs1, Hs2.
Qed.

(** Under another iteration order of sets a run returns the same cases, in
    the same order, with the same fields, except that timeline events of
    equal timestamp may be arranged differently. *)
Lemma correlate_cases_any_runtime uuid1 uuid2 alerts idx window_hours :
  option_Forall2 (Forall2 same_case_upto_ties)
    (@correlate_cases R1 uuid1 alerts idx window_hours)
    (@correlate_cases R2 uuid2 alerts idx window_hours).
Proof.
  unfold correlate_cases. destruct alerts as [|a0 alerts].
  { by repeat constructor. }
  destruct (user_loop_any_runtime uuid1 uuid2 0 0
              (group_by Alert.user (a0 :: alerts)) idx window_hours)
    as [cs1 cs2 Hcs|]; simpl; constructor.
  apply sort_by_Forall2; [|done]. intros. by apply case_le_upto_ties.
Qed.
End two_runtimes.

(** The order of timeline events of equal timestamp is the iteration order
    of the set of their ids: the two sample runtimes, which differ in that
    order only, arrange the two simultaneous events differently. *)
Lemma timeline_ties_follow_set_order :
  correlate._build_timeline (H := reference.runtime)
    [samples.tie_alert] samples.tie_index = [samples.tie_a; samples.tie_b]
  ∧ correlate._build_timeline (H := reference.reversed_runtime)
      [samples.tie_alert] samples.tie_index = [samples.tie_b; samples.tie_a].
Proof. split; vm_compute; reflexivity. Qed.

(** ** Single-user inputs *)

Lemma group_by_single {A} (key : A → string) (l : list A) k :
  l ≠ [] → Forall (λ x, key x = k) l → group_by key l = [(k, l)].
Proof.
  induction l as [|x l IH] using rev_ind; [done|]. intros _ Hall.
  apply Forall_app in Hall as [Hl Hx]. apply Forall_inv in Hx.
  rewrite group_by_snoc. destruct l as [|y l].
  - simpl. by rewrite Hx.
  - rewrite IH by done. unfold dict_append. simpl.
    rewrite bool_decide_eq_true_2 by done. done.
Qed.

(** An element that is last in the input and has the largest key stays
    last. *)
Lemma sort_insert_snoc {A} (key : A → Z) y l x :
  key y ≤ key x →
  sort_insert (key_le key) y (l ++ [x]) = sort_insert (key_le key) y l ++ [x].
Proof.
  intros Hyx. induction l as [|z l IH]; simpl.
  - unfold key_le. by rewrite (proj2 (Z.leb_le _ _) Hyx).
  - destruct (key_le key y z); [done|]. by rewrite IH.
Qed.

Lemma sort_by_snoc {A} (key : A → Z) l x :
  Forall (λ y, key y ≤ key x) l →
  sort_by (key_le key) (l ++ [x]) = sort_by (key_le key) l ++ [x].
Proof.
  induction 1 as [|y l Hy Hl IH]; simpl; [done|].
  rewrite IH. by apply sort_insert_snoc.
Qed.

Section chain_example.
Context `{PyRuntime}.
Import fail_success_chain.

(** A user's alerts as a list: one entry per position that triggers. *)
Lemma detect_user_eq w m1 m2 user user_evts :
  detect_user w m1 m2 user user_evts
  = Some (omap id
            (imap (λ i event,
                     default None
                       (check_event w m1 m2 user
                          (take i (sort_by (key_le AuthEvent.ts) user_evts))
                          event))
                  (sort_by (key_le AuthEvent.ts) user_evts))).
Proof.
  unfold detect_user. set (sorted := sort_by _ user_evts).
  match goal with |- context [mapM id ?l] => set (found := l) end.
  assert (found = Some <$> imap (λ i event,
            default None (check_event w m1 m2 user (take i sorted) event))
            sorted) as Hf.
  { unfold found. apply list_eq. intros i.
    rewrite list_lookup_fmap, !list_lookup_imap.
    destruct (sorted !! i) as [e|]; simpl; [|done].
    destruct (check_event_spec w m1 m2 user (take i sorted) e)
      as (o & -> & _). done. }
  apply mapM_id_Some in Hf. rewrite Hf. done.
Qed.

Lemma scan_back_all ws prevs :
  Forall (λ f, AuthEvent.result f = "failure" ∧ ws ≤ AuthEvent.ts f) prevs →
  scan_back ws prevs = prevs.
Proof.
  induction 1 as [|f prevs [Hr Hts] _ IH]; simpl; [done|].
  destruct (Z.ltb_spec (AuthEvent.ts f) ws); [lia|].
  rewrite bool_decide_eq_true_2 by done. by rewrite IH.
Qed.

Lemma failures_from_all ip F :
  Forall (λ f, AuthEvent.source_ip f = ip) F →
  failures_from ip F = Z.of_nat (length F).
Proof.
  intros Hall. unfold failures_from. f_equal.
  induction Hall as [|f F Hf _ IH]; [done|].
  rewrite filter_cons, decide_True by done. simpl. by rewrite IH.
Qed.

Lemma omap_imap_none {A B} (g : nat → A → option B) (l : list A) :
  (∀ i x, l !! i = Some x → g i x = None) → omap id (imap g l) = [].
Proof.
  revert g. induction l as [|x l IH]; intros g Hg; simpl; [done|].
  rewrite (Hg 0%nat x) by done. simpl. apply IH.
  intros i y Hy. by apply (Hg (S i)).
Qed.

(** Failures of one user from one IP, all within the look-back window of
    a success that follows them: when they reach the same-IP threshold,
    the detector emits exactly one alert, a same-IP one that counts every
    failure and refers to every failure and to the success. *)
Lemma chain_single_burst w m1 m2 user ip fs s :
  Forall (λ f, AuthEvent.user f = user ∧ AuthEvent.result f = "failure"
               ∧ AuthEvent.source_ip f = ip
               ∧ AuthEvent.ts s - minutes w ≤ AuthEvent.ts f ≤ AuthEvent.ts s)
         fs →
  AuthEvent.user s = user → AuthEvent.result s = "success" →
  fs ≠ [] → m1 ≤ Z.of_nat (length fs) →
  ∃ a, detect_fail_success_chain (fs ++ [s]) w m1 m2 = Some [a]
    ∧ Evidence.get (Alert.evidence a) "attack_type" VNone = VStr "same_ip"
    ∧ Evidence.get (Alert.evidence a) "failure_count" VNone
      = VInt (Z.of_nat (length fs))
    ∧ (∀ f, f ∈ fs → AuthEvent.event_id f ∈ Alert.related_event_ids a)
    ∧ AuthEvent.event_id s ∈ Alert.related_event_ids a
    ∧ length (Alert.related_event_ids a) = S (length fs).
Proof.
  intros Hfs Hsu Hsr Hne Hm1.
  set (sfs := sort_by (key_le AuthEvent.ts) fs).
  assert (sfs ≡ₚ fs) as Hperm by apply sort_by_perm.
  assert (Forall (λ f, AuthEvent.user f = user
               ∧ AuthEvent.result f = "failure"
               ∧ AuthEvent.source_ip f = ip
               ∧ AuthEvent.ts s - minutes w ≤ AuthEvent.ts f ≤ AuthEvent.ts s)
            sfs) as Hsfs by by rewrite Hperm.
  set (F := reverse sfs).
  assert (F ≡ₚ fs) as HF by (unfold F; by rewrite reverse_Permutation).
  assert (F ≠ []) as HFne.
  { intros HFnil. rewrite HFnil in HF. by apply Permutation_nil_l in HF. }
  assert (trailing_failures w sfs s = F) as Htr.
  { unfold trailing_failures. apply scan_back_all. unfold F.
    apply Forall_reverse. eapply Forall_impl; [exact Hsfs|]. naive_solver. }
  assert (length F = length fs) as Hlen by by rewrite HF.
  destruct (create_alert_spec user F s "same_ip" m1 HFne)
    as (a & ff & Hca & _ & _ & _ & _ & _ & _ & Hat & _ & Hfc & _ & Hrel).
  assert (check_event w m1 m2 user sfs s = Some (Some a)) as Hce.
  { destruct (check_event_spec w m1 m2 user sfs s) as (o & Ho & Hiff).
    rewrite Ho. f_equal. apply Hiff. rewrite Htr. split_and!; [done..|].
    exists "same_ip", m1. split; [|done]. left. split_and!; [|done..].
    exists ip. rewrite failures_from_all; [lia|].
    rewrite HF. eapply Forall_impl; [exact Hfs|]. naive_solver. }
  exists a. split_and!.
  - unfold detect_fail_success_chain.
    rewrite (group_by_single AuthEvent.user (fs ++ [s]) user).
    2:{ by destruct fs. }
    2:{ apply Forall_app. split; [|by constructor].
        eapply Forall_impl; [exact Hfs|]. naive_solver. }
    simpl. rewrite detect_user_eq.
    rewrite sort_by_snoc.
    2:{ eapply Forall_impl; [exact Hfs|]. naive_solver. }
    fold sfs. rewrite imap_app. simpl. rewrite omap_app.
    rewrite omap_imap_none.
    2:{ intros i e Hi. unfold check_event.
        assert (e ∈ sfs) as He by by eapply list_elem_of_lookup_2.
        rewrite Forall_forall in Hsfs. destruct (Hsfs e He) as (_ & Hr & _).
        rewrite bool_decide_eq_false_2; [done|]. rewrite Hr. done. }
    rewrite Nat.add_0_r, take_app_length, Hce. simpl. done.
  - done.
  - by rewrite Hfc, Hlen.
  - intros f Hf. rewrite Hrel. apply elem_of_app. left.
    apply list_elem_of_fmap_2. by rewrite HF.
  - rewrite Hrel. apply elem_of_app. right. left.
  - rewrite Hrel, length_app, length_fmap, Hlen. simpl. lia.
Qed.
End chain_example.

Section device_example.
Context `{PyRuntime}.
Import new_device_ua.

Lemma set_order_singleton x : set_order [x] = [x].
Proof.
  pose proof (set_order_perm [x]) as Hp. simpl in Hp.
  destruct (decide_rel elem_of x []) as [Hin|_];
    [by apply elem_of_nil in Hin|].
  by apply Permutation_singleton_r in Hp.
Qed.

(** A first login that carries a device id and a country, then a login of
    the same user from another device id and another country: exactly one
    alert, of high severity, for the second login. *)
Lemma second_login_new_device_new_country e1 e2 user d1 c1 d2 c2 days :
  AuthEvent.user e1 = user → AuthEvent.user e2 = user →
  AuthEvent.result e1 = "success" → AuthEvent.result e2 = "success" →
  AuthEvent.ts e1 ≤ AuthEvent.ts e2 →
  AuthEvent.device_id e1 = Some d1 → d1 ≠ "" →
  AuthEvent.country e1 = Some c1 → c1 ≠ "" →
  AuthEvent.device_id e2 = Some d2 → d2 ≠ "" → d2 ≠ d1 →
  AuthEvent.country e2 = Some c2 → c2 ≠ c1 →
  ∃ a, detect_new_device [e1; e2] days = [a]
    ∧ Alert.severity a = "high"
    ∧ Alert.related_event_ids a = [AuthEvent.event_id e2].
Proof.
  intros Hu1 Hu2 Hr1 Hr2 Hts Hd1 Hd1ne Hc1 Hc1ne Hd2 Hd2ne Hd21 Hc2 Hc21.
  assert (carries_device e1) as Hcar1.
  { apply truthy_str_true. by exists d1. }
  destruct (update_baseline_carries empty_baseline e1 Hcar1)
    as (d & Hd & _ & Hb1).
  assert (d = d1) as -> by congruence.
  set (b1 := update_baseline empty_baseline e1) in *.
  assert (device_ids b1 = [d1]) as Hdev.
  { rewrite Hb1. simpl. apply set_order_singleton. }
  assert (countries b1 = [c1]) as Hcou.
  { rewrite Hb1. simpl. rewrite Hc1. simpl.
    destruct (String.eqb_spec c1 ""); [done|]. simpl.
    apply set_order_singleton. }
  assert (truthy (is_new_device e2 b1) = true) as Hnd.
  { apply is_new_device_true. exists d2. split_and!; [done..|].
    rewrite Hdev. by intros ->%list_elem_of_singleton. }
  assert (truthy (is_new_country e2 b1) = true) as Hnc.
  { apply is_new_country_true. exists c2. rewrite Hcou. split_and!; [done..|].
    by intros ->%list_elem_of_singleton. }
  destruct (_check_for_anomaly e2 b1 user) as [a|] eqn:Hchk; last first.
  { apply check_for_anomaly_None in Hchk as [? _]. congruence. }
  destruct (check_for_anomaly_Some _ _ _ _ Hchk)
    as (_ & Hsev & _ & _ & _ & _ & Hrel).
  exists a. rewrite Hsev, Hnc. split_and!; [|done..].
  unfold detect_new_device. simpl.
  unfold key_le. rewrite (proj2 (Z.leb_le _ _) Hts).
  unfold group_by, dict_append. simpl. rewrite Hu1, Hu2.
  rewrite bool_decide_eq_true_2 by done. simpl.
  unfold step_alert at 1. rewrite Hr1. simpl.
  fold b1. unfold step_alert. rewrite Hr2, Hdev. simpl. rewrite Hchk.
  done.
Qed.
End device_example.

(** ** The scenarios of the test suite, on the reference runtime *)

Example three_failures_no_alert :
  fail_success_chain.detect_fail_success_chain (H := reference.runtime)
    fixtures.below_threshold_events 20 8 15 = Some [].
Proof. vm_compute. reflexivity. Qed.

Example new_country_alone_no_alert :
  new_device_ua.detect_new_device (H := reference.runtime)
    fixtures.new_country_events 30 = [].
Proof. vm_compute. reflexivity. Qed.

Example brute_force_alert_fields :
  (λ a, (Alert.severity a, Alert.score a, Alert.ts_start a, Alert.ts_end a,
         Alert.related_event_ids a))
    <$> default [] (fail_success_chain.detect_fail_success_chain
                      (H := reference.runtime)
                      fixtures.brute_force_events 20 8 15)
  = [("medium", 60, 0, 11 * fixtures.minute,
      ["bf-009"; "bf-008"; "bf-007"; "bf-006"; "bf-005"; "bf-004"; "bf-003";
       "bf-002"; "bf-001"; "bf-000"; "bf-success"])].
Proof. vm_compute. reflexivity. Qed.

Example new_device_alert_fields :
  (λ a, (Alert.severity a, Alert.score a, Alert.related_event_ids a))
    <$> new_device_ua.detect_new_device (H := reference.runtime)
          fixtures.new_device_events 30
  = [("high", 85, ["nd-002"])].
Proof. vm_compute. reflexivity. Qed.

Example sample_case_score :
  scoring.calculate_case_score (H := reference.runtime)
    [samples.a1; samples.a2; samples.a3] = Some (65, "medium").
Proof. vm_compute. reflexivity. Qed.

(** ** The case score *)

Section score_facts.
Context `{PyRuntime}.
Import scoring.

(** The scan for the two +10 patterns stops at the first alert that shows
    either of them: whatever the alerts, it adds 10 at most once. *)
Lemma pattern_bonus_once alerts bonus bonus' :
  pattern_bonus alerts bonus = Some bonus' →
  bonus' = bonus
           + (if existsb chain_of_ten alerts
                 || existsb new_device_new_country alerts
              then 10 else 0).
Proof.
  induction alerts as [|a alerts IH]; simpl.
  { intros [= <-]. lia. }
  unfold chain_of_ten at 1, new_device_new_country at 1.
  destruct (bool_decide (Alert.detector a = "fail_success_chain")) eqn:Hfsc;
    simpl.
  - destruct (py_ge_int _ 10) as [[|]|] eqn:Hge; simpl; [| |done].
    + intros [= <-]. done.
    + apply bool_decide_eq_true in Hfsc.
      rewrite (bool_decide_eq_false_2 (Alert.detector a = "new_device_ua"))
        by (rewrite Hfsc; done).
      simpl. apply IH.
  - destruct (bool_decide (Alert.detector a = "new_device_ua")); simpl;
      [|apply IH].
    destruct (truthy _ && truthy _) eqn:Hboth; simpl.
    + intros [= <-]. by rewrite orb_true_r.
    + apply IH.
Qed.

Lemma two_distinct_length (l : list string) x y :
  x ∈ l → y ∈ l → x ≠ y → (1 < length (remove_dups l))%nat.
Proof.
  intros Hx Hy Hxy. apply elem_of_remove_dups in Hx, Hy.
  destruct (remove_dups l) as [|z [|z' k]]; simpl; [|exfalso|lia].
  - by apply elem_of_nil in Hx.
  - apply list_elem_of_singleton in Hx, Hy. congruence.
Qed.

(** What the code computes: the largest base score, 15 for two detectors,
    and 10 when either pattern occurs, capped at 100. *)
Lemma calculate_case_score_value alerts score severity :
  alerts ≠ [] →
  calculate_case_score alerts = Some (score, severity) →
  score
  = Z.min 100
      (base_of alerts
       + (if decide (1 < length (remove_dups (Alert.detector <$> alerts)))%nat
          then 15 else 0)
       + (if existsb chain_of_ten alerts
             || existsb new_device_new_country alerts
          then 10 else 0))
  ∧ severity = severity_from_score score.
Proof.
  intros Hne. unfold calculate_case_score.
  destruct alerts as [|a0 rest]; [done|]. rewrite set_order_length.
  unfold base_of. remember (a0 :: rest) as alerts eqn:Halerts.
  destruct (pattern_bonus _ _) as [bonus|] eqn:Hb; simpl; [|done].
  apply pattern_bonus_once in Hb. intros [= <- <-]. split; [|done].
  f_equal. lia.
Qed.

(** The code and the score of the specification agree whenever the cap
    hides the second +10: that is the case when every alert that shows the
    new-device pattern has a base score of at least 75, as the alerts of the
    new-device detector have. *)
Lemma calculate_case_score_agrees alerts score severity :
  alerts ≠ [] →
  calculate_case_score alerts = Some (score, severity) →
  (∀ a, a ∈ alerts → new_device_new_country a = true →
        75 ≤ get_base_score (Alert.severity a)) →
  score = spec_case_score alerts.
Proof.
  intros Hne Hc Hhigh.
  destruct (calculate_case_score_value alerts score severity Hne Hc) as [-> _].
  unfold spec_case_score.
  destruct (existsb chain_of_ten alerts) eqn:Hch;
    destruct (existsb new_device_new_country alerts) eqn:Hnd; simpl; try lia.
  apply existsb_exists in Hch as (a1 & Ha1 & Hc1).
  apply existsb_exists in Hnd as (a2 & Ha2 & Hc2).
  apply list_elem_of_In in Ha1, Ha2.
  assert (75 ≤ base_of alerts) as Hbase.
  { specialize (Hhigh a2 Ha2 Hc2). etrans; [exact Hhigh|].
    destruct alerts as [|a0 rest]; [done|]. simpl.
    apply py_max_spec. apply elem_of_cons in Ha2 as [->|Ha2]; [left|right].
    by apply (list_elem_of_fmap_2 (get_base_score ∘ Alert.severity)) in Ha2. }
  unfold chain_of_ten in Hc1. unfold new_device_new_country in Hc2.
  apply andb_true_iff in Hc1 as [Hd1%bool_decide_eq_true _].
  apply andb_true_iff in Hc2 as [Hc2 _].
  apply andb_true_iff in Hc2 as [Hd2%bool_decide_eq_true _].
  rewrite decide_True; [lia|].
  apply (two_distinct_length _ "fail_success_chain" "new_device_ua");
    [| |done].
  - rewrite <- Hd1. by apply list_elem_of_fmap_2.
  - rewrite <- Hd2. by apply list_elem_of_fmap_2.
Qed.
End score_facts.

(** An alert of the new-device detector that shows the new-device pattern
    has severity high, hence a base score of 75. *)
Lemma new_device_pattern_is_high `{PyRuntime} event baseline user a :
  new_device_ua._check_for_anomaly event baseline user = Some a →
  new_device_new_country a = true →
  Alert.severity a = "high" ∧ scoring.get_base_score (Alert.severity a) = 75.
Proof.
  intros Hc Hp. unfold new_device_ua._check_for_anomaly in Hc.
  destruct (negb _ && negb _); [done|]. injection Hc as <-.
  unfold new_device_new_country in Hp. simpl in Hp.
  unfold Evidence.get in Hp. simpl in Hp.
  rewrite lookup_insert_eq in Hp.
  do 2 (rewrite lookup_insert_ne in Hp by done).
  rewrite lookup_insert_eq in Hp.
  simpl in Hp. apply andb_true_iff in Hp as [Hd Hcn].
  simpl. rewrite Hd, Hcn. simpl. by split.
Qed.

(** * The claims of the specification *)

(** C1 (the code departs from the claim). The claim gives a case with a
    chain of ten failures and a new device in a new country, from two
    detectors, all three bonuses. On the two sample alerts, both of medium
    severity, [calculate_case_score] returns 75, that is base + 15 + 10: the
    scan for the +10 patterns leaves its loop at the chain alert and never
    looks at the new-device alert. The score the claim describes, with its
    three independent bonuses, is 50 + 15 + 10 + 10 = 85. Whatever the
    alerts, the code adds 10 when either pattern occurs, once. *)
Theorem case_score_stops_at_first_pattern `{PyRuntime} :
  scoring.calculate_case_score [reference.chain_alert; reference.device_alert]
    = Some (75, "high")
  ∧ spec_case_score [reference.chain_alert; reference.device_alert] = 85
  ∧ (∀ alerts score severity,
       alerts ≠ [] →
       scoring.calculate_case_score alerts = Some (score, severity) →
       score
       = Z.min 100
           (base_of alerts
            + (if decide
                    (1 < length (remove_dups (Alert.detector <$> alerts)))%nat
               then 15 else 0)
            + (if existsb chain_of_ten alerts
                  || existsb new_device_new_country alerts
               then 10 else 0))).
Proof.
  split_and!.
  - unfold scoring.calculate_case_score.
    rewrite set_order_length. by vm_compute.
  - by vm_compute.
  - intros alerts score severity Hne Hc.
    by destruct (calculate_case_score_value alerts score severity Hne Hc).
Qed.

(** C2. The chain detector never raises, and its alerts are exactly those
    the trigger policy yields, success by success: for a success event of a
    user's time-sorted events whose trailing window holds failures, a
    same-IP alert if some IP has at least [min_failures_same_ip] of them,
    else a multi-IP alert if there are at least [min_failures_multi_ip] of
    them, else nothing. The window holds the failures among the events that
    immediately precede the success and are not older than
    [window_minutes]. The alert records the attack type, the number of
    failures of the window, and the ids of these failures and of the
    success. Ten failures of one user from one IP within eleven minutes
    before a success give, with the default thresholds, exactly one alert:
    same-IP, with a failure count of 10 and the eleven event ids. *)
Theorem chain_trigger_policy `{PyRuntime} :
  (∀ events w m1 m2,
     ∃ alerts,
       fail_success_chain.detect_fail_success_chain events w m1 m2
         = Some alerts
       ∧ ∀ a, a ∈ alerts ↔
           ∃ user prevs success later attack_type threshold,
             sort_by (key_le AuthEvent.ts) (events_of user events)
               = prevs ++ success :: later
             ∧ AuthEvent.result success = "success"
             ∧ trailing_failures w prevs success ≠ []
             ∧ triggers m1 m2 (trailing_failures w prevs success)
                 attack_type threshold
             ∧ fail_success_chain._create_alert user
                 (trailing_failures w prevs success) success
                 (fail_success_chain.count_ips
                    (trailing_failures w prevs success))
                 attack_type threshold = Some a
             ∧ Evidence.get (Alert.evidence a) "attack_type" VNone
               = VStr attack_type
             ∧ Evidence.get (Alert.evidence a) "failure_count" VNone
               = VInt (Z.of_nat (length (trailing_failures w prevs success)))
             ∧ Alert.related_event_ids a
               = (AuthEvent.event_id <$> trailing_failures w prevs success)
                   ++ [AuthEvent.event_id success])
  ∧ (∀ w prevs success,
       ∃ run older,
         reverse prevs = run ++ older
         ∧ Forall (λ e, AuthEvent.ts success - fail_success_chain.minutes w
                        ≤ AuthEvent.ts e) run
         ∧ (∀ e, head older = Some e →
                 AuthEvent.ts e
                 < AuthEvent.ts success - fail_success_chain.minutes w)
         ∧ trailing_failures w prevs success
           = filter (λ e, AuthEvent.result e = "failure") run)
  ∧ (∀ w m1 m2 user prevs event,
       trailing_failures w prevs event = []
       ∨ (∀ attack_type threshold,
            ¬ triggers m1 m2 (trailing_failures w prevs event)
                attack_type threshold) →
       fail_success_chain.check_event w m1 m2 user prevs event = Some None)
  ∧ (∀ user ip fs s,
       length fs = 10%nat →
       Forall (λ f, AuthEvent.user f = user
                    ∧ AuthEvent.result f = "failure"
                    ∧ AuthEvent.source_ip f = ip
                    ∧ AuthEvent.ts s - fail_success_chain.minutes 11
                      ≤ AuthEvent.ts f ≤ AuthEvent.ts s) fs →
       AuthEvent.user s = user → AuthEvent.result s = "success" →
       AuthEvent.source_ip s = ip →
       ∃ a,
         fail_success_chain.detect_fail_success_chain (fs ++ [s]) 20 8 15
           = Some [a]
         ∧ Evidence.get (Alert.evidence a) "attack_type" VNone
           = VStr "same_ip"
         ∧ Evidence.get (Alert.evidence a) "failure_count" VNone = VInt 10
         ∧ (∀ f, f ∈ fs →
              AuthEvent.event_id f ∈ Alert.related_event_ids a)
         ∧ AuthEvent.event_id s ∈ Alert.related_event_ids a
         ∧ length (Alert.related_event_ids a) = 11%nat).
Proof.
  split_and!.
  - intros events w m1 m2.
    destruct (detect_chain_spec events w m1 m2) as (alerts & Hd & Hspec).
    exists alerts. split; [done|]. intros a. rewrite Hspec. split.
    + intros (user & prevs & s & later & Hsort & Hc).
      destruct (check_event_spec w m1 m2 user prevs s) as (o & Ho & Hiff).
      assert (o = Some a) as -> by congruence.
      destruct (proj1 (Hiff a) eq_refl) as (Hres & HF & ty & thr & Htr & Hca).
      destruct (create_alert_spec user _ s ty thr HF)
        as (a' & ff & Hca' & _ & _ & _ & _ & _ & _ & Hat & _ & Hfc & _ & Hrel).
      assert (a' = a) as -> by congruence.
      exists user, prevs, s, later, ty, thr. by split_and!.
    + intros (user & prevs & s & later & ty & thr & Hsort & Hres & HF & Htr
              & Hca & _).
      exists user, prevs, s, later. split; [done|].
      destruct (check_event_spec w m1 m2 user prevs s) as (o & Ho & Hiff).
      rewrite Ho. f_equal. apply Hiff. split_and!; [done..|].
      by exists ty, thr.
  - intros w prevs s. apply scan_back_window.
  - intros w m1 m2 user prevs event Hno.
    destruct (check_event_spec w m1 m2 user prevs event) as (o & Ho & Hiff).
    rewrite Ho. f_equal. destruct o as [a|]; [|done]. exfalso.
    destruct (proj1 (Hiff a) eq_refl) as (_ & HF & ty & thr & Htr & _).
    destruct Hno as [Hnil|Hno]; [done|]. by apply (Hno ty thr).
  - intros user ip fs s Hlen Hfs Hsu Hsr Hsip.
    destruct (chain_single_burst 20 8 15 user ip fs s)
      as (a & Hd & Hat & Hfc & Hrel & Hrs & Hrl); try done.
    + eapply Forall_impl; [exact Hfs|]. unfold fail_success_chain.minutes.
      intros f (?&?&?&?&?). split_and!; [done..|lia|done].
    + by destruct fs.
    + rewrite Hlen. lia.
    + exists a. rewrite Hlen in Hfc, Hrl. by split_and!.
Qed.

(** The brute-force log of the tests: one same-IP alert over ten failures
    that refers to the eleven events. *)
Lemma chain_trigger_policy_witness :
  ∃ a,
    fail_success_chain.detect_fail_success_chain (H := reference.runtime)
      fixtures.brute_force_events 20 8 15 = Some [a]
    ∧ Evidence.get (Alert.evidence a) "attack_type" VNone = VStr "same_ip"
    ∧ Evidence.get (Alert.evidence a) "failure_count" VNone = VInt 10
    ∧ length (Alert.related_event_ids a) = 11%nat.
Proof.
  destruct (proj2 (proj2 (proj2 (chain_trigger_policy (H := reference.runtime))))
              "brute@corp.com" "10.0.0.1" fixtures.bf_failures
              fixtures.bf_success)
    as (a & Hd & Hat & Hfc & _ & _ & Hlen).
  - reflexivity.
  - repeat constructor; vm_compute; congruence.
  - reflexivity.
  - reflexivity.
  - reflexivity.
  - exists a. repeat split; assumption.
Defined.

(** C5. Every alert of the chain detector has severity high or medium: when
    the policy triggers, the failures of the window reach the threshold
    that fired (a same-IP count is at most the total), so the severity
    policy never falls through to low. *)
Theorem chain_severity_never_low `{PyRuntime} events w m1 m2 :
  (∃ alerts,
     fail_success_chain.detect_fail_success_chain events w m1 m2 = Some alerts
     ∧ ∀ a, a ∈ alerts →
         Alert.severity a = "high" ∨ Alert.severity a = "medium")
  ∧ (∀ failures attack_type threshold,
       triggers m1 m2 failures attack_type threshold →
       threshold ≤ Z.of_nat (length failures)
       ∧ chain_severity failures attack_type threshold ≠ "low").
Proof.
  split.
  - destruct (detect_chain_spec events w m1 m2) as (alerts & Hd & _).
    exists alerts. split; [done|]. intros a Ha.
    destruct (chain_alert_origin events w m1 m2 alerts a Hd Ha)
      as (user & prevs & s & later & ty & thr & ff & _ & _ & _ & Htr & _ & _
          & _ & ->).
    by eapply triggers_severity.
  - intros F ty thr Htr. split; [by eapply triggers_threshold|].
    destruct (triggers_severity m1 m2 F ty thr Htr) as [-> | ->]; done.
Qed.

(** C10. Every alert the three detectors construct spans a time interval
    that starts no later than it ends; so does every alert of their combined
    run, which never raises. *)
Theorem alert_span_ordered `{PyRuntime} events :
  (∀ speed_threshold_kmh max_hours a,
     a ∈ impossible_travel.detect_impossible_travel events
           speed_threshold_kmh max_hours →
     Alert.ts_start a ≤ Alert.ts_end a)
  ∧ (∀ w m1 m2,
       ∃ alerts,
         fail_success_chain.detect_fail_success_chain events w m1 m2
           = Some alerts
         ∧ ∀ a, a ∈ alerts → Alert.ts_start a ≤ Alert.ts_end a)
  ∧ (∀ lookback_days a,
       a ∈ new_device_ua.detect_new_device events lookback_days →
       Alert.ts_start a ≤ Alert.ts_end a)
  ∧ (∀ speed_threshold_kmh max_hours w m1 m2 lookback_days,
       ∃ alerts,
         detectors.run_all_detectors events speed_threshold_kmh max_hours
           w m1 m2 lookback_days = Some alerts
         ∧ ∀ a, a ∈ alerts → Alert.ts_start a ≤ Alert.ts_end a).
Proof.
  assert (∀ thr mh a,
            a ∈ impossible_travel.detect_impossible_travel events thr mh →
            Alert.ts_start a ≤ Alert.ts_end a) as Htravel.
  { intros thr mh a Ha.
    apply travel_alert_origin in Ha
      as (user & l1 & [e1 loc1] & [e2 loc2] & l2 & _ & Hc).
    apply check_pair_Some in Hc as (_ & _ & _ & ->).
    apply create_travel_alert_span. }
  assert (∀ w m1 m2,
            ∃ alerts,
              fail_success_chain.detect_fail_success_chain events w m1 m2
                = Some alerts
              ∧ ∀ a, a ∈ alerts → Alert.ts_start a ≤ Alert.ts_end a)
    as Hchain.
  { intros w m1 m2.
    destruct (detect_chain_spec events w m1 m2) as (alerts & Hd & _).
    exists alerts. split; [done|]. intros a Ha.
    destruct (chain_alert_origin events w m1 m2 alerts a Hd Ha)
      as (user & prevs & s & later & ty & thr & ff & Hsort & _ & _ & _ & Hff
          & -> & -> & _).
    apply scan_back_elem_of in Hff as (Hin & _ & _).
    rewrite elem_of_reverse in Hin.
    pose proof (sort_by_sorted AuthEvent.ts (events_of user events)) as Hs.
    rewrite Hsort in Hs. apply sorted_before in Hs.
    rewrite Forall_forall in Hs. by apply Hs. }
  assert (∀ days a,
            a ∈ new_device_ua.detect_new_device events days →
            Alert.ts_start a ≤ Alert.ts_end a) as Hdevice.
  { intros days a Ha.
    apply detect_new_device_spec in Ha as (user & pre & e & post & _ & Hst).
    apply step_alert_Some in Hst as (_ & _ & Hchk).
    apply check_for_anomaly_Some in Hchk as (_ & _ & _ & _ & -> & -> & _).
    done. }
  split_and!; [done..|].
  intros thr mh w m1 m2 days. unfold detectors.run_all_detectors.
  destruct (Hchain w m1 m2) as (chains & -> & Hc). simpl.
  eexists. split; [done|]. intros a.
  rewrite !elem_of_app. intros [Ha|[Ha|Ha]]; eauto.
Qed.


(** C4. The impossible-travel detector skips every pair of neighbours whose
    elapsed time exceeds [max_hours] or is not positive, and its alerts are
    exactly those of the neighbours, in a user's time-sorted geo-located
    successes, whose elapsed time [dt] satisfies [0 < dt <= max_hours] and
    whose required speed is strictly above the threshold. *)
Theorem travel_time_guard `{PyRuntime} events speed_threshold_kmh max_hours :
  (∀ e1 loc1 e2 loc2,
     let dt :=
       impossible_travel.hours_between (AuthEvent.ts e1) (AuthEvent.ts e2) in
     (max_hours < dt)%Q ∨ (dt <= 0)%Q →
     impossible_travel.check_pair speed_threshold_kmh max_hours
       ((e1, loc1), (e2, loc2)) = None)
  ∧ (∀ a,
       a ∈ impossible_travel.detect_impossible_travel events
             speed_threshold_kmh max_hours
       ↔ ∃ user l1 e1 loc1 e2 loc2 l2,
           sort_by (key_le (AuthEvent.ts ∘ fst)) (located_of user events)
             = l1 ++ (e1, loc1) :: (e2, loc2) :: l2
           ∧ impossible_travel.check_pair speed_threshold_kmh max_hours
               ((e1, loc1), (e2, loc2)) = Some a)
  ∧ (∀ e1 loc1 e2 loc2 a,
       impossible_travel.check_pair speed_threshold_kmh max_hours
         ((e1, loc1), (e2, loc2)) = Some a →
       let dt :=
         impossible_travel.hours_between (AuthEvent.ts e1) (AuthEvent.ts e2) in
       let speed := fl (haversine loc1 loc2 / dt) in
       (0 < dt)%Q ∧ (dt <= max_hours)%Q ∧ (speed_threshold_kmh < speed)%Q
       ∧ a = impossible_travel._create_alert e1 e2 (haversine loc1 loc2) dt
               (Finite speed)).
Proof.
  split_and!.
  - intros e1 loc1 e2 loc2. apply check_pair_skips.
  - intros a. split.
    + intros Ha. apply travel_alert_origin in Ha
        as (user & l1 & [e1 loc1] & [e2 loc2] & l2 & Hs & Hc).
      by exists user, l1, e1, loc1, e2, loc2, l2.
    + intros (user & l1 & e1 & loc1 & e2 & loc2 & l2 & Hs & Hc).
      by eapply travel_alert_emitted.
  - intros e1 loc1 e2 loc2 a. apply check_pair_Some.
Qed.

(** New York, then Tokyo ninety minutes later: the pair is flagged, its
    elapsed time is an hour and a half. *)
Lemma travel_time_guard_witness :
  ∃ a,
    impossible_travel.detect_impossible_travel (H := reference.runtime)
      fixtures.impossible_travel_events 900 6 = [a]
    ∧ (0 < impossible_travel.hours_between (H := reference.runtime)
             (AuthEvent.ts fixtures.it_001) (AuthEvent.ts fixtures.it_002)
         <= 6)%Q
    ∧ Alert.severity a = "critical".
Proof.
  eexists. split; [vm_compute; reflexivity|].
  split; [|vm_compute; reflexivity].
  pose proof (proj2 (proj2 (travel_time_guard (H := reference.runtime)
                              fixtures.impossible_travel_events 900 6))
                fixtures.it_001 (407128 # 10000, -740060 # 10000)%Q
                fixtures.it_002 (356762 # 10000, 1396503 # 10000)%Q)
    as Hpair.
  edestruct Hpair as (Hpos & Hmax & _); [vm_compute; reflexivity|].
  split; assumption.
Defined.

(** C6. The anomaly check of the new-device detector returns no alert
    unless the device id is new or the UA family is new (a new country alone
    gives nothing), and the alert it returns is of high severity when the
    country is new as well and of medium severity otherwise; every alert of
    the detector is the result of such a check on a success event. A first
    login that establishes a device and a country, followed by a login from
    another device id and another country, gives exactly one alert, of high
    severity. *)
Theorem new_device_alert_policy `{PyRuntime} :
  (∀ event baseline user,
     new_device_ua._check_for_anomaly event baseline user = None
     ↔ truthy (new_device_ua.is_new_device event baseline) = false
       ∧ new_device_ua.is_new_ua_family event baseline = false)
  ∧ (∀ event baseline user a,
       new_device_ua._check_for_anomaly event baseline user = Some a →
       Alert.severity a
       = if truthy (new_device_ua.is_new_country event baseline)
         then "high" else "medium")
  ∧ (∀ event baseline,
       (truthy (new_device_ua.is_new_device event baseline) = true
        ↔ ∃ d, AuthEvent.device_id event = Some d ∧ d ≠ ""
             ∧ d ∉ new_device_ua.device_ids baseline)
       ∧ (new_device_ua.is_new_ua_family event baseline = true
          ↔ truthy_str (AuthEvent.user_agent event) = true
            ∧ new_device_ua.ua_families baseline ≠ []
            ∧ _get_ua_family (AuthEvent.user_agent event) ≠ ""
            ∧ _get_ua_family (AuthEvent.user_agent event)
              ∉ new_device_ua.ua_families baseline)
       ∧ (truthy (new_device_ua.is_new_country event baseline) = true
          ↔ ∃ c, AuthEvent.country event = Some c
               ∧ new_device_ua.countries baseline ≠ []
               ∧ c ∉ new_device_ua.countries baseline))
  ∧ (∀ events lookback_days a,
       a ∈ new_device_ua.detect_new_device events lookback_days →
       ∃ user pre event post,
         events_of user (sort_by (key_le AuthEvent.ts) events)
           = pre ++ event :: post
         ∧ AuthEvent.result event = "success"
         ∧ new_device_ua._check_for_anomaly event (baseline_after pre) user
           = Some a)
  ∧ (∀ e1 e2 user d1 c1 d2 c2 lookback_days,
       AuthEvent.user e1 = user → AuthEvent.user e2 = user →
       AuthEvent.result e1 = "success" → AuthEvent.result e2 = "success" →
       AuthEvent.ts e1 ≤ AuthEvent.ts e2 →
       AuthEvent.device_id e1 = Some d1 → d1 ≠ "" →
       AuthEvent.country e1 = Some c1 → c1 ≠ "" →
       AuthEvent.device_id e2 = Some d2 → d2 ≠ "" → d2 ≠ d1 →
       AuthEvent.country e2 = Some c2 → c2 ≠ c1 →
       ∃ a, new_device_ua.detect_new_device [e1; e2] lookback_days = [a]
         ∧ Alert.severity a = "high"
         ∧ Alert.related_event_ids a = [AuthEvent.event_id e2]).
Proof.
  split_and!.
  - apply check_for_anomaly_None.
  - intros e b user a Hc. by apply check_for_anomaly_Some in Hc as (_ & ? & _).
  - intros e b. split_and!.
    + apply is_new_device_true.
    + apply is_new_ua_family_true.
    + apply is_new_country_true.
  - intros events days a Ha.
    apply detect_new_device_spec in Ha as (user & pre & e & post & Hs & Hst).
    apply step_alert_Some in Hst as (? & _ & ?).
    by exists user, pre, e, post.
  - intros. by eapply second_login_new_device_new_country.
Qed.

(** The new-device log of the tests: a baseline login, then a login from
    another device in another country. *)
Lemma new_device_alert_policy_witness :
  ∃ a,
    new_device_ua.detect_new_device (H := reference.runtime)
      fixtures.new_device_events 30 = [a]
    ∧ Alert.severity a = "high"
    ∧ Alert.related_event_ids a = ["nd-002"].
Proof.
  apply (proj2 (proj2 (proj2 (proj2
           (new_device_alert_policy (H := reference.runtime)))))
           fixtures.nd_001 fixtures.nd_002 "newdev@corp.com"
           "dev-known-001" "US" "dev-new-suspicious" "RU" 30);
    try reflexivity; try (vm_compute; congruence).
Defined.

(** C7, the claim as stated fails: a user's first successful login is
    checked, and flagged, when a failed attempt that carried a device id
    came before it. In the sample log the only success, "s-1", follows a
    failure from another device and produces an alert. *)
Lemma first_success_is_checked :
  head (filter (λ e, AuthEvent.result e = "success")
          fixtures.failure_then_success) = Some fixtures.first_success
  ∧ ∃ a,
      new_device_ua.detect_new_device (H := reference.runtime)
        fixtures.failure_then_success 30 = [a]
      ∧ Alert.related_event_ids a = ["s-1"].
Proof. split; [reflexivity|]. eexists. split; vm_compute; reflexivity. Qed.

(** C7, amended. In the walk over a user's time-ordered events a success is
    checked exactly when the baseline already knows a device, that is when
    some earlier event of the user, success or failure, carried a device
    id; so the user's first event never produces an alert, while a first
    success that follows such an event is checked. The check uses the
    baseline built from the events before the one checked. Every event that
    carries a device id, success or failure, then adds its device id, its
    UA family and (if present) its country to the baseline. *)
Theorem baseline_walk_order `{PyRuntime} :
  (∀ events lookback_days a,
     a ∈ new_device_ua.detect_new_device events lookback_days
     ↔ ∃ user pre event post,
         events_of user (sort_by (key_le AuthEvent.ts) events)
           = pre ++ event :: post
         ∧ AuthEvent.result event = "success"
         ∧ new_device_ua.device_ids (baseline_after pre) ≠ []
         ∧ new_device_ua._check_for_anomaly event (baseline_after pre) user
           = Some a)
  ∧ (∀ pre,
       new_device_ua.device_ids (baseline_after pre) ≠ []
       ↔ ∃ p, p ∈ pre ∧ carries_device p)
  ∧ (∀ user event,
       new_device_ua.step_alert user (baseline_after []) event = None)
  ∧ (∀ pre event,
       baseline_after (pre ++ [event])
       = new_device_ua.update_baseline (baseline_after pre) event)
  ∧ (∀ baseline event,
       ¬ carries_device event →
       new_device_ua.update_baseline baseline event = baseline)
  ∧ (∀ pre d,
       d ∈ new_device_ua.device_ids (baseline_after pre)
       ↔ ∃ p, p ∈ pre ∧ AuthEvent.device_id p = Some d ∧ d ≠ "")
  ∧ (∀ pre f,
       f ∈ new_device_ua.ua_families (baseline_after pre)
       ↔ ∃ p, p ∈ pre ∧ carries_device p
            ∧ f = _get_ua_family (AuthEvent.user_agent p))
  ∧ (∀ pre c,
       c ∈ new_device_ua.countries (baseline_after pre)
       ↔ ∃ p, p ∈ pre ∧ carries_device p
            ∧ AuthEvent.country p = Some c ∧ c ≠ "").
Proof.
  split_and!.
  - intros events days a. rewrite detect_new_device_spec.
    by setoid_rewrite step_alert_Some.
  - apply baseline_knows_device.
  - intros user e. unfold new_device_ua.step_alert. simpl.
    by case_bool_decide.
  - apply baseline_after_snoc.
  - apply update_baseline_skips.
  - apply baseline_device_ids.
  - apply baseline_ua_families.
  - apply baseline_countries.
Qed.

(** In the sample log the baseline that the success is checked against
    holds the device of the failed attempt, and only that. *)
Lemma baseline_walk_order_witness :
  (∀ d, d ∈ new_device_ua.device_ids
              (baseline_after (H := reference.runtime)
                 [fixtures.first_failure])
        ↔ ∃ p, p ∈ [fixtures.first_failure]
             ∧ AuthEvent.device_id p = Some d ∧ d ≠ "")
  ∧ new_device_ua.device_ids
      (baseline_after (H := reference.runtime) [fixtures.first_failure])
    = ["dev-A"].
Proof.
  split; [|reflexivity].
  apply (proj1 (proj2 (proj2 (proj2 (proj2 (proj2
           (baseline_walk_order (H := reference.runtime)))))))).
Defined.

(** C3. In the greedy pass over a user's alerts a candidate joins the open
    group if and only if, for some member of that group, it starts no later
    than the member's end plus the window, or it shares an IP or a device id
    with the member; otherwise the open group is closed and the candidate
    opens a new one. The closed groups are never touched again: the groups
    are consecutive runs of the input. Hence, in the time-sorted list, two
    alerts the later of which starts within the window of the earlier one's
    end are in one group, whatever their indicators; and two neighbours that
    share an indicator are in one group, whatever their times; the group
    becomes one case of the run. *)
Theorem greedy_merge_pass `{PyRuntime} user window_hours :
  let window := timedelta_hours window_hours in
  (∀ alert current_group,
     correlate.should_merge window alert current_group = true
     ↔ ∃ member, member ∈ current_group
         ∧ (Alert.ts_start alert ≤ Alert.ts_end member + window
            ∨ (∃ ip, ip ∈ alert_ips alert ∧ ip ∈ alert_ips member)
            ∨ (∃ d, d ∈ alert_device_ids alert
                  ∧ d ∈ alert_device_ids member)))
  ∧ (∀ pre alert,
       pre ≠ [] →
       ∃ closed open,
         correlate._merge_alerts_into_cases user pre window_hours
           = closed ++ [open]
         ∧ correlate._merge_alerts_into_cases user (pre ++ [alert])
             window_hours
           = if correlate.should_merge window alert open
             then closed ++ [open ++ [alert]]
             else closed ++ [open; [alert]])
  ∧ (∀ alerts,
       concat (correlate._merge_alerts_into_cases user alerts window_hours)
         = alerts
       ∧ Forall (λ g, g ≠ [])
           (correlate._merge_alerts_into_cases user alerts window_hours))
  ∧ (∀ user_alert_list l1 a l2 b l3,
       sort_by (key_le Alert.ts_start) user_alert_list
         = l1 ++ a :: l2 ++ b :: l3 →
       Alert.ts_start b ≤ Alert.ts_end a + window →
       ∃ closed p q later,
         correlate._merge_alerts_into_cases user
           (sort_by (key_le Alert.ts_start) user_alert_list) window_hours
           = closed ++ (p ++ a :: l2 ++ b :: q) :: later
         ∧ concat closed ++ p = l1 ∧ q ++ concat later = l3)
  ∧ (∀ l1 a b l3,
       shares_indicator b a →
       ∃ closed p q later,
         correlate._merge_alerts_into_cases user (l1 ++ a :: b :: l3)
           window_hours
           = closed ++ (p ++ a :: b :: q) :: later
         ∧ concat closed ++ p = l1 ∧ q ++ concat later = l3)
  ∧ (∀ uuid alerts event_index cases l1 a l2 b l3,
       correlate.correlate_cases uuid alerts event_index window_hours
         = Some cases →
       sort_by (key_le Alert.ts_start) (alerts_of user alerts)
         = l1 ++ a :: l2 ++ b :: l3 →
       Alert.ts_start b ≤ Alert.ts_end a + window
       ∨ (l2 = [] ∧ shares_indicator b a) →
       ∃ c p q,
         c ∈ cases ∧ Case.user c = user
         ∧ Case.alerts c = p ++ a :: l2 ++ b :: q).
Proof.
  intros window. split_and!.
  - intros alert cur. rewrite should_merge_true.
    unfold merges_with, shares_indicator. naive_solver.
  - intros pre alert. apply merge_pass_snoc.
  - intros alerts. apply merge_pass_concat.
  - intros l l1 a l2 b l3. apply merge_pass_time.
  - intros l1 a b l3. apply merge_pass_share.
  - intros uuid alerts idx cases l1 a l2 b l3 Hcases Hs Hab.
    assert (∃ closed p q later,
              correlate._merge_alerts_into_cases user
                (sort_by (key_le Alert.ts_start) (alerts_of user alerts))
                window_hours
              = closed ++ (p ++ a :: l2 ++ b :: q) :: later)
      as (closed & p & q & later & Hm).
    { destruct Hab as [Hab|[-> Hab]].
      - destruct (merge_pass_time user window_hours _ l1 a l2 b l3 Hs Hab)
          as (closed & p & q & later & Hm & _). by exists closed, p, q, later.
      - rewrite Hs.
        destruct (merge_pass_share user window_hours l1 a b l3 Hab)
          as (closed & p & q & later & Hm & _). by exists closed, p, q, later. }
    destruct (correlate_cases_groups uuid alerts idx window_hours cases Hcases)
      as [_ Hgroups].
    destruct (Hgroups user (p ++ a :: l2 ++ b :: q)) as (c & Hc & Hu & Ha).
    { rewrite Hm. apply elem_of_app. right. left. }
    by exists c, p, q.
Qed.

(** The sample alerts: the second starts within eight hours of the first
    and joins it without sharing anything; the third starts a day later and
    joins them through the IP it shares with the second. *)
Lemma greedy_merge_pass_witness :
  correlate._merge_alerts_into_cases (H := reference.runtime) "u@corp.com"
    [samples.a1; samples.a2; samples.a3] 8
  = [[samples.a1; samples.a2; samples.a3]]
  ∧ ¬ Alert.ts_start samples.a3
      ≤ Alert.ts_end samples.a2
        + timedelta_hours (PyRuntime := reference.runtime) 8
  ∧ ∃ closed p q later,
      correlate._merge_alerts_into_cases (H := reference.runtime) "u@corp.com"
        ([samples.a1] ++ samples.a2 :: samples.a3 :: []) 8
      = closed ++ (p ++ samples.a2 :: samples.a3 :: q) :: later
      ∧ concat closed ++ p = [samples.a1] ∧ q ++ concat later = [].
Proof.
  split; [vm_compute; reflexivity|].
  split; [vm_compute; intros Hle; apply Hle; reflexivity|].
  apply (proj1 (proj2 (proj2 (proj2 (proj2
           (greedy_merge_pass (H := reference.runtime) "u@corp.com" 8)))))
           [samples.a1] samples.a2 samples.a3 []).
  left. exists "2.2.2.2". split; vm_compute; left.
Defined.

(** C8. The timeline of a case is sorted by [ts] ascending and holds
    exactly the events the index has for the ids its alerts refer to, each
    referenced id looked up once (so that, in an index keyed by event id, no
    event id occurs twice). An id the index does not have is left out: the
    timeline is built all the same, and whether the case is built does not
    depend on the index. *)
Theorem case_timeline `{PyRuntime} alerts event_index :
  let timeline := correlate._build_timeline alerts event_index in
  StronglySorted (key_rel AuthEvent.ts) timeline
  ∧ (∀ e, e ∈ timeline
          ↔ ∃ id, referenced alerts id ∧ event_index !! id = Some e)
  ∧ (∃ ids, NoDup ids ∧ (∀ id, id ∈ ids ↔ referenced alerts id)
       ∧ timeline ≡ₚ omap (λ id, event_index !! id) ids)
  ∧ (keyed_by_id event_index → NoDup (AuthEvent.event_id <$> timeline))
  ∧ (∀ hex user event_index',
       is_Some (correlate._build_case hex user alerts event_index')
       → is_Some (correlate._build_case hex user alerts event_index))
  ∧ (∀ hex user c,
       correlate._build_case hex user alerts event_index = Some c →
       Case.timeline c = timeline).
Proof.
  intros timeline. split_and!.
  - apply build_timeline_sorted.
  - apply elem_of_build_timeline.
  - apply build_timeline_once.
  - apply build_timeline_NoDup.
  - intros hex user idx'. apply build_case_is_Some.
  - intros hex user c Hc. by apply build_case_timeline in Hc as [? _].
Qed.

(** The sample alerts refer to "e1" twice and to "gone", which the index
    does not have: the timeline holds "e1", "e2" and "e3" once each, in
    time order. *)
Lemma case_timeline_witness :
  correlate._build_timeline (H := reference.runtime)
    [samples.a1; samples.a2; samples.a3] samples.event_index
  = [samples.e1; samples.e2; samples.e3]
  ∧ NoDup (AuthEvent.event_id
             <$> correlate._build_timeline (H := reference.runtime)
                   [samples.a1; samples.a2; samples.a3] samples.event_index).
Proof.
  split; [vm_compute; reflexivity|].
  apply (proj1 (proj2 (proj2 (proj2
           (case_timeline (H := reference.runtime)
              [samples.a1; samples.a2; samples.a3] samples.event_index))))).
  intros k e Hk.
  assert (k = "e1" ∨ k = "e2" ∨ k = "e3") as Hcases.
  { unfold samples.event_index in Hk. simpl in Hk.
    apply lookup_insert_Some in Hk as [[<- _]|[_ Hk]]; [by left|].
    apply lookup_insert_Some in Hk as [[<- _]|[_ Hk]]; [by right; left|].
    apply lookup_insert_Some in Hk as [[<- _]|[_ Hk]]; [by right; right|].
    by rewrite lookup_empty in Hk. }
  destruct Hcases as [->|[->| ->]]; vm_compute in Hk;
    injection Hk as <-; reflexivity.
Defined.


(** * Further properties of the code *)

(** ** scoring.py *)

Section scoring_extras.
Context `{PyRuntime}.
Import scoring.

Lemma get_base_score_cases severity :
  (severity = "low" ∧ get_base_score severity = 25)
  ∨ (severity = "medium" ∧ get_base_score severity = 50)
  ∨ (severity = "high" ∧ get_base_score severity = 75)
  ∨ (severity = "critical" ∧ get_base_score severity = 95)
  ∨ ((severity ∉ ["low"; "medium"; "high"; "critical"])
     ∧ get_base_score severity = 25).
Proof.
  destruct (decide (severity = "low")) as [->|?]; [by left|].
  destruct (decide (severity = "medium")) as [->|?]; [by right; left|].
  destruct (decide (severity = "high")) as [->|?]; [by do 2 right; left|].
  destruct (decide (severity = "critical")) as [->|?];
    [by do 3 right; left|].
  do 4 right. split.
  - rewrite !elem_of_cons, elem_of_nil. tauto.
  - unfold get_base_score, BASE_SCORES. simpl.
    rewrite !lookup_insert_ne by done. by rewrite lookup_empty.
Qed.

Lemma severity_rank_unknown severity :
  severity ∉ ["low"; "medium"; "high"; "critical"] →
  severity_rank severity = 4.
Proof.
  rewrite !elem_of_cons, elem_of_nil. intros Hn.
  unfold severity_rank, correlate.severity_order. simpl.
  rewrite !lookup_insert_ne by (intros <-; tauto). by rewrite lookup_empty.
Qed.

Lemma severity_from_score_cases score :
  (90 ≤ score ∧ severity_from_score score = "critical")
  ∨ (70 ≤ score < 90 ∧ severity_from_score score = "high")
  ∨ (40 ≤ score < 70 ∧ severity_from_score score = "medium")
  ∨ (score < 40 ∧ severity_from_score score = "low").
Proof.
  unfold severity_from_score.
  destruct (Z.leb_spec 90 score); [by left|].
  destruct (Z.leb_spec 70 score); [by right; left|].
  destruct (Z.leb_spec 40 score); [by do 2 right; left|].
  by do 3 right.
Qed.

Lemma severity_from_score_mono s1 s2 :
  s1 ≤ s2 →
  severity_rank (severity_from_score s2)
  ≤ severity_rank (severity_from_score s1).
Proof.
  intros Hle.
  destruct (severity_from_score_cases s1) as [[? ->]|[[? ->]|[[? ->]|[? ->]]]];
    destruct (severity_from_score_cases s2)
      as [[? ->]|[[? ->]|[[? ->]|[? ->]]]];
    try lia; by vm_compute.
Qed.

Lemma severity_from_score_known score :
  severity_from_score score ∈ ["low"; "medium"; "high"; "critical"].
Proof.
  destruct (severity_from_score_cases score)
    as [[? ->]|[[? ->]|[[? ->]|[? ->]]]]; set_solver.
Qed.

Lemma base_score_values severity :
  get_base_score severity ∈ [25; 50; 75; 95].
Proof.
  destruct (get_base_score_cases severity)
    as [[_ ->]|[[_ ->]|[[_ ->]|[[_ ->]|[_ ->]]]]]; set_solver.
Qed.

(** X1. [severity_from_score] undoes [get_base_score]: the base score of
    each of the four severities lies in the band of that severity, and a
    word that is none of the four is scored, and therefore read back, as
    low. *)
Theorem base_score_round_trip severity :
  severity_from_score (get_base_score severity)
  = (if bool_decide (severity ∈ ["low"; "medium"; "high"; "critical"])
     then severity else "low")
  ∧ get_base_score severity ∈ [25; 50; 75; 95].
Proof.
  split; [|apply base_score_values].
  destruct (get_base_score_cases severity)
    as [[-> ->]|[[-> ->]|[[-> ->]|[[-> ->]|[Hn ->]]]]];
    try reflexivity.
  by rewrite bool_decide_eq_false_2.
Qed.

(** X2. The severity never drops when the score grows, and it is always
    one of the four severities. *)
Theorem severity_from_score_monotone s1 s2 :
  s1 ≤ s2 →
  severity_rank (severity_from_score s2)
  ≤ severity_rank (severity_from_score s1)
  ∧ severity_from_score s1 ∈ ["low"; "medium"; "high"; "critical"].
Proof.
  intros Hle. split; [by apply severity_from_score_mono|].
  apply severity_from_score_known.
Qed.

Lemma severity_from_score_monotone_witness :
  69 ≤ 70
  ∧ severity_rank (severity_from_score 70)
    ≤ severity_rank (severity_from_score 69)
  ∧ severity_from_score 69 ∈ ["low"; "medium"; "high"; "critical"].
Proof. split; [lia|]. apply severity_from_score_monotone. lia. Defined.

Lemma base_of_spec a0 rest :
  base_of (a0 :: rest) ∈ [25; 50; 75; 95]
  ∧ ∀ a, a ∈ a0 :: rest → get_base_score (Alert.severity a)
                          ≤ base_of (a0 :: rest).
Proof.
  unfold base_of.
  destruct (py_max_spec (get_base_score (Alert.severity a0))
              (get_base_score ∘ Alert.severity <$> rest)) as [Hin Hle].
  split.
  - apply elem_of_cons in Hin as [->|Hin].
    + apply base_score_values.
    + apply list_elem_of_fmap in Hin as (a & -> & _).
      apply base_score_values.
  - intros a Ha. apply Hle.
    apply elem_of_cons in Ha as [->|Ha]; [left|right].
    apply list_elem_of_fmap. by exists a.
Qed.

(** The score of a case within 25 of its largest base score. *)
Lemma case_score_interval alerts score severity :
  alerts ≠ [] →
  calculate_case_score alerts = Some (score, severity) →
  25 ≤ score ≤ 100
  ∧ base_of alerts ≤ score ≤ base_of alerts + 25
  ∧ severity = severity_from_score score.
Proof.
  intros Hne Hs.
  destruct (calculate_case_score_value _ _ _ Hne Hs) as [Hv ->].
  destruct alerts as [|a0 rest]; [done|]. clear Hne Hs.
  destruct (base_of_spec a0 rest) as [Hb _].
  assert (25 ≤ base_of (a0 :: rest) ≤ 95) as Hrange.
  { revert Hb. rewrite !elem_of_cons, elem_of_nil. lia. }
  assert (base_of (a0 :: rest) ≤ score ≤ base_of (a0 :: rest) + 25)
    as Hscore.
  { rewrite Hv.
    destruct (decide (1 < _)%nat); destruct (_ || _); lia. }
  assert (score ≤ 100) by (rewrite Hv; lia).
  split_and!; try done; lia.
Qed.

(** A score that reaches the base score of a severity is read as that
    severity or a more severe one. *)
Lemma severity_dominates severity score :
  get_base_score severity ≤ score →
  severity_rank (severity_from_score score) ≤ severity_rank severity.
Proof.
  intros Hle.
  destruct (get_base_score_cases severity)
    as [[Hs Hg]|[[Hs Hg]|[[Hs Hg]|[[Hs Hg]|[Hn Hg]]]]].
  5: { rewrite (severity_rank_unknown _ Hn).
       destruct (severity_from_score_cases score)
         as [[? ->]|[[? ->]|[[? ->]|[? ->]]]]; by vm_compute. }
  all: etrans;
    [apply (severity_from_score_mono (get_base_score severity)); lia|].
  all: rewrite Hg, Hs; by vm_compute.
Qed.

(** X3. The score of a non-empty case lies between 25 and 100, is at least
    the base score of each of its alerts and at most 25 above the largest of
    them; the severity of the case is read from that score, and no alert of
    the case is more severe than the case. *)
Theorem case_score_bounds alerts score severity :
  alerts ≠ [] →
  calculate_case_score alerts = Some (score, severity) →
  25 ≤ score ≤ 100
  ∧ base_of alerts ≤ score ≤ base_of alerts + 25
  ∧ severity = severity_from_score score
  ∧ ∀ a, a ∈ alerts →
      get_base_score (Alert.severity a) ≤ score
      ∧ severity_rank severity ≤ severity_rank (Alert.severity a).
Proof.
  intros Hne Hs.
  destruct (case_score_interval _ _ _ Hne Hs) as (Hr & Hb & ->).
  split; [done|]. split; [done|]. split; [done|].
  intros a Ha. destruct alerts as [|a0 rest]; [done|].
  destruct (base_of_spec a0 rest) as [_ Hle]. specialize (Hle a Ha).
  split; [lia|]. apply severity_dominates. lia.
Qed.

Lemma pattern_bonus_None alerts bonus :
  pattern_bonus alerts bonus = None
  ↔ ∃ pre a post,
      alerts = pre ++ a :: post
      ∧ Alert.detector a = "fail_success_chain"
      ∧ py_ge_int (Evidence.get (Alert.evidence a) "failure_count" (VInt 0))
          10 = None
      ∧ Forall (λ b, chain_of_ten b = false
                     ∧ new_device_new_country b = false) pre.
Proof.
  induction alerts as [|a alerts IH]; simpl.
  { split; [done|]. intros (pre & b & post & Heq & _).
    by destruct pre. }
  destruct (bool_decide (Alert.detector a = "fail_success_chain")) eqn:Hfsc;
    simpl.
  - apply bool_decide_eq_true in Hfsc.
    destruct (py_ge_int _ 10) as [[|]|] eqn:Hge; simpl.
    + split; [done|]. intros (pre & b & post & Heq & Hd & Hb & Hpre).
      exfalso. destruct pre as [|p pre]; simplify_eq/=; try congruence.
      apply Forall_cons in Hpre as [[Hc _] _].
      unfold chain_of_ten in Hc. rewrite Hge in Hc.
      rewrite bool_decide_eq_true_2 in Hc by done. done.
    + rewrite (bool_decide_eq_false_2 (Alert.detector a = "new_device_ua"))
        by (rewrite Hfsc; done).
      rewrite IH. split.
      * intros (pre & b & post & -> & Hd & Hb & Hpre).
        exists (a :: pre), b, post. split_and!; try done.
        constructor; [|done]. split.
        -- unfold chain_of_ten. rewrite Hge.
           by rewrite andb_comm.
        -- unfold new_device_new_country.
           rewrite bool_decide_eq_false_2 by (rewrite Hfsc; done). done.
      * intros (pre & b & post & Heq & Hd & Hb & Hpre).
        destruct pre as [|p pre]; simplify_eq/=; try congruence.
        apply Forall_cons in Hpre as [_ Hpre].
        by exists pre, b, post.
    + split; [|done]. intros _. by exists [], a, alerts.
  - apply bool_decide_eq_false in Hfsc.
    assert (∀ P, (∃ pre b post,
                a :: alerts = pre ++ b :: post
                ∧ Alert.detector b = "fail_success_chain" ∧ P b
                ∧ Forall (λ b, chain_of_ten b = false
                               ∧ new_device_new_country b = false) pre)
            ↔ new_device_new_country a = false
              ∧ ∃ pre b post,
                  alerts = pre ++ b :: post
                  ∧ Alert.detector b = "fail_success_chain" ∧ P b
                  ∧ Forall (λ b, chain_of_ten b = false
                                 ∧ new_device_new_country b = false) pre)
      as Hshift.
    { intros P. split.
      - intros (pre & b & post & Heq & Hd & Hb & Hpre).
        destruct pre as [|p pre]; simplify_eq/=; try done.
        apply Forall_cons in Hpre as [[_ Hn] Hpre].
        split; [done|]. by exists pre, b, post.
      - intros (Hn & pre & b & post & -> & Hd & Hb & Hpre).
        exists (a :: pre), b, post. split_and!; try done.
        constructor; [|done]. split; [|done].
        unfold chain_of_ten. by rewrite bool_decide_eq_false_2. }
    rewrite (Hshift (λ b, py_ge_int (Evidence.get (Alert.evidence b)
                                       "failure_count" (VInt 0)) 10 = None)).
    unfold new_device_new_country at 1.
    destruct (bool_decide (Alert.detector a = "new_device_ua")); simpl.
    + destruct (truthy _ && truthy _) eqn:Hboth; simpl.
      * split; [done|]. by intros [? _].
      * rewrite IH. tauto.
    + rewrite IH. tauto.
Qed.

Lemma py_ge_int_None v n : py_ge_int v n = None ↔ is_number v = false.
Proof. by destruct v as [| | |[| |]| |]. Qed.

Lemma case_score_None_inv alerts :
  calculate_case_score alerts = None →
  ∃ a, a ∈ alerts ∧ Alert.detector a = "fail_success_chain"
       ∧ py_ge_int (Evidence.get (Alert.evidence a) "failure_count"
                      (VInt 0)) 10 = None.
Proof.
  unfold calculate_case_score. destruct alerts as [|a0 rest]; [done|].
  destruct (pattern_bonus (a0 :: rest) _) eqn:Hp; simpl; [done|]. intros _.
  apply pattern_bonus_None in Hp as (pre & a & post & Heq & Hd & Hn & _).
  exists a. split; [|done]. rewrite Heq. apply elem_of_app. right. left.
Qed.

(** X4. On alerts whose evidence values are [None], booleans, integers,
    floats, strings or lists of strings, the score computation fails in
    one way only, a [TypeError] on the comparison [failure_count >= 10]:
    it fails exactly when the scan for the +10 patterns reaches, before
    any alert that shows a pattern, a chain alert whose recorded failure
    count is [None], a string or a list. A count that is an [int], a
    [bool] or a [float] (a NaN or an infinity included) never fails. *)
Theorem case_score_type_error alerts :
  calculate_case_score alerts = None
  ↔ ∃ pre a post,
      alerts = pre ++ a :: post
      ∧ Alert.detector a = "fail_success_chain"
      ∧ is_number (Evidence.get (Alert.evidence a) "failure_count" (VInt 0))
        = false
      ∧ Forall (λ b, chain_of_ten b = false
                     ∧ new_device_new_country b = false) pre.
Proof.
  assert (∀ a : Alert,
            py_ge_int (Evidence.get (Alert.evidence a) "failure_count"
                         (VInt 0)) 10 = None
            ↔ is_number (Evidence.get (Alert.evidence a) "failure_count"
                           (VInt 0)) = false) as Hnum.
  { intros a. apply py_ge_int_None. }
  unfold calculate_case_score. destruct alerts as [|a0 rest].
  { split; [done|]. intros (pre & b & post & Heq & _). by destruct pre. }
  destruct (pattern_bonus (a0 :: rest) _) eqn:Hp; simpl.
  - split; [done|].
    intros (pre & a & post & Heq & Hd & Hn & Hpre).
    apply Hnum in Hn.
    match type of Hp with
    | pattern_bonus _ ?b = _ =>
        pose proof (proj2 (pattern_bonus_None _ b)
                      (ex_intro _ pre (ex_intro _ a (ex_intro _ post
                         (conj Heq (conj Hd (conj Hn Hpre)))))))
    end. congruence.
  - split; [|done]. intros _.
    apply pattern_bonus_None in Hp as (pre & a & post & Heq & Hd & Hn & Hpre).
    apply Hnum in Hn. by exists pre, a, post.
Qed.

End scoring_extras.

Lemma case_score_bounds_witness :
  ∃ score severity,
    scoring.calculate_case_score (H := reference.runtime)
      [samples.a1; samples.a2; samples.a3] = Some (score, severity)
    ∧ 25 ≤ score ≤ 100 ∧ severity = scoring.severity_from_score score.
Proof.
  exists 65, "medium".
  split; [reflexivity|].
  pose proof (case_score_bounds (H := reference.runtime)
                [samples.a1; samples.a2; samples.a3] 65 "medium"
                ltac:(discriminate) eq_refl) as (Hr & _ & Hs & _).
  exact (conj Hr Hs).
Defined.


(** ** Grouped loops *)

Section filter_facts.
Context {A : Type} (P : A → Prop) `{!∀ x, Decision (P x)}.

Lemma filter_all (l : list A) : Forall P l → filter P l = l.
Proof.
  induction 1 as [|x l Hx _ IH]; [done|].
  by rewrite filter_cons_True, IH.
Qed.

Lemma filter_none (l : list A) : Forall (λ x, ¬ P x) l → filter P l = [].
Proof.
  induction 1 as [|x l Hx _ IH]; [done|]. by rewrite filter_cons_False.
Qed.

Lemma length_filter_concat (ls : list (list A)) :
  length (filter P (concat ls))
  = sum_list (length ∘ filter P <$> ls).
Proof.
  induction ls as [|l ls IH]; [done|]. csimpl.
  by rewrite filter_app, length_app, IH.
Qed.

End filter_facts.

Section group_perm.
Context {A : Type} (key : A → string).

Lemma dict_append_concat k (v : A) d :
  concat (dict_append k v d).*2 ≡ₚ concat d.*2 ++ [v].
Proof.
  unfold dict_append. induction d as [|[k' vs] d IH]; simpl; [done|].
  case_bool_decide; csimpl.
  - rewrite <- !(assoc_L (++)). f_equiv. apply Permutation_app_comm.
  - rewrite IH. by rewrite (assoc_L (++)).
Qed.

(** The groups hold the elements of the list, each once. *)
Lemma group_by_perm l : concat (group_by key l).*2 ≡ₚ l.
Proof.
  induction l as [|x l IH] using rev_ind; [done|].
  by rewrite group_by_snoc, dict_append_concat, IH.
Qed.

End group_perm.

Lemma mapM_total {A B} (f : A → option B) (g : A → B) (l : list A) :
  (∀ x, f x = Some (g x)) → mapM f l = Some (g <$> l).
Proof.
  intros Hf. apply mapM_Some.
  induction l as [|x l IH]; csimpl; constructor; auto.
Qed.


(** ** detectors/fail_success_chain.py *)

Section chain_extras.
Context `{PyRuntime}.
Import fail_success_chain.
Implicit Types (F prevs : list AuthEvent) (a : Alert).

Lemma events_of_elem_of user events e :
  e ∈ events_of user events ↔ AuthEvent.user e = user ∧ e ∈ events.
Proof. unfold events_of. by rewrite list_elem_of_filter. Qed.

Lemma events_of_idemp user events :
  events_of user (events_of user events) = events_of user events.
Proof.
  unfold events_of. apply filter_all, Forall_forall.
  by intros e [? _]%list_elem_of_filter.
Qed.

Lemma events_of_other user user' events :
  user' ≠ user → events_of user' (events_of user events) = [].
Proof.
  intros Hne. unfold events_of. apply filter_none, Forall_forall.
  intros e [? _]%list_elem_of_filter. congruence.
Qed.

(** The alert [_create_alert] returns, beyond the fields of
    [create_alert_spec]: the score and the standardized evidence. *)
Lemma create_alert_more user F success ip_counts attack_type threshold a :
  _create_alert user F success ip_counts attack_type threshold = Some a →
  Alert.score a
  = (if 10 <=? Z.of_nat (length F)
     then Z.min 100 (score_map !!! Alert.severity a + 10)
     else score_map !!! Alert.severity a)
  ∧ Evidence.ips (Alert.evidence a)
    = Some (set_order (ip_counts.*1 ++ [AuthEvent.source_ip success]))
  ∧ Evidence.device_ids (Alert.evidence a)
    = Some (set_order (omap AuthEvent.device_id (F ++ [success])))
  ∧ Evidence.get (Alert.evidence a) "distinct_ips" VNone
    = VInt (Z.of_nat (length ip_counts)).
Proof.
  unfold _create_alert.
  destruct (head (sort_by (key_le AuthEvent.ts) F)) as [first|]; [|done].
  destruct (last (sort_by (key_le AuthEvent.ts) F)) as [lst|]; [|done].
  simpl.
  destruct (if bool_decide (attack_type = "same_ip")
            then head ip_counts.*1 else Some "") as [?|]; [|done].
  simpl. intros [= <-]. simpl. split_and!; reflexivity.
Qed.

(** Every alert of the detector, with the window and the call of
    [_create_alert] it comes from. *)
Lemma chain_alert_anatomy events w m1 m2 alerts a :
  detect_fail_success_chain events w m1 m2 = Some alerts →
  a ∈ alerts →
  ∃ user prevs success later attack_type threshold,
    sort_by (key_le AuthEvent.ts) (events_of user events)
      = prevs ++ success :: later
    ∧ AuthEvent.result success = "success"
    ∧ trailing_failures w prevs success ≠ []
    ∧ triggers m1 m2 (trailing_failures w prevs success)
        attack_type threshold
    ∧ _create_alert user (trailing_failures w prevs success) success
        (count_ips (trailing_failures w prevs success))
        attack_type threshold = Some a.
Proof.
  intros Hd Ha.
  destruct (detect_chain_spec events w m1 m2) as (alerts' & Hd' & Hspec).
  assert (alerts' = alerts) as -> by congruence.
  apply Hspec in Ha as (user & prevs & s & later & Hsort & Hc).
  destruct (check_event_spec w m1 m2 user prevs s) as (o & Ho & Hiff).
  assert (o = Some a) as -> by congruence.
  destruct (proj1 (Hiff a) eq_refl) as (Hres & HF & ty & thr & Htr & Hca).
  by exists user, prevs, s, later, ty, thr.
Qed.

(** The failures of a window are events of the user that come before the
    success in the sorted list and do not come after it in time. *)
Lemma trailing_failures_elem_of user events w prevs success later f :
  sort_by (key_le AuthEvent.ts) (events_of user events)
    = prevs ++ success :: later →
  f ∈ trailing_failures w prevs success →
  f ∈ events ∧ AuthEvent.user f = user ∧ f ∈ prevs
  ∧ AuthEvent.result f = "failure"
  ∧ AuthEvent.ts success - minutes w ≤ AuthEvent.ts f ≤ AuthEvent.ts success.
Proof.
  intros Hsort Hf. unfold trailing_failures in Hf.
  apply scan_back_elem_of in Hf as (Hin & Hres & Hws).
  rewrite elem_of_reverse in Hin.
  assert (f ∈ events_of user events) as Hev.
  { apply (sort_by_elem_of (key_le AuthEvent.ts)). rewrite Hsort.
    apply elem_of_app. by left. }
  apply events_of_elem_of in Hev as [Hu Hev].
  split_and!; try done.
  pose proof (sort_by_sorted AuthEvent.ts (events_of user events)) as Hs.
  rewrite Hsort in Hs. apply sorted_before in Hs.
  rewrite Forall_forall in Hs. by apply Hs.
Qed.

(** X5. With a negative window the detector finds no failure to count:
    whenever it returns, it returns no alert, whatever the log and the
    thresholds. (Whether it returns is not stated: the subtraction
    [event.ts - timedelta(minutes=window_minutes)] can leave the range of
    [datetime], which the unbounded timestamps do not show.) *)
Theorem chain_negative_window events w m1 m2 alerts :
  w < 0 →
  detect_fail_success_chain events w m1 m2 = Some alerts →
  alerts = [].
Proof.
  intros Hw Hd.
  destruct alerts as [|a alerts]; [done|]. exfalso.
  destruct (chain_alert_anatomy events w m1 m2 _ a Hd)
    as (user & prevs & s & later & ty & thr & Hsort & _ & HF & _);
    [left|].
  destruct (trailing_failures w prevs s) as [|f F] eqn:HFe; [done|].
  assert (f ∈ trailing_failures w prevs s) as Hf by (rewrite HFe; left).
  destruct (trailing_failures_elem_of _ _ _ _ _ _ _ Hsort Hf)
    as (_ & _ & _ & _ & Hts).
  unfold minutes in Hts. lia.
Qed.

(** X6. The score of a chain alert is the base score of its severity, plus
    10 when the window holds ten failures or more: 50 or 60 for a medium
    alert, 75 or 85 for a high one. The failure count it records is the
    number of failures of the window, at least one, and the alert refers to
    one event more than that. *)
Theorem chain_alert_score events w m1 m2 alerts a :
  detect_fail_success_chain events w m1 m2 = Some alerts →
  a ∈ alerts →
  ∃ n, Evidence.get (Alert.evidence a) "failure_count" VNone = VInt n
    ∧ 1 ≤ n
    ∧ Z.of_nat (length (Alert.related_event_ids a)) = n + 1
    ∧ Alert.score a
      = scoring.get_base_score (Alert.severity a)
        + (if 10 <=? n then 10 else 0)
    ∧ Alert.score a ∈ [50; 60; 75; 85].
Proof.
  intros Hd Ha.
  destruct (chain_alert_anatomy _ _ _ _ _ _ Hd Ha)
    as (user & prevs & s & later & ty & thr & Hsort & _ & HF & Htr & Hca).
  destruct (create_alert_spec user _ s ty thr HF)
    as (a' & ff & Hca' & _ & _ & _ & _ & _ & Hsev & _ & _ & Hcount & _ & Hrel).
  assert (a' = a) as -> by congruence.
  destruct (create_alert_more _ _ _ _ _ _ _ Hca) as (Hscore & _).
  set (F := trailing_failures w prevs s) in *.
  exists (Z.of_nat (length F)). split; [done|].
  assert (1 ≤ Z.of_nat (length F)) by (destruct F; [done|simpl; lia]).
  split; [done|]. split.
  { rewrite Hrel, length_app, length_fmap. simpl. lia. }
  rewrite Hscore.
  destruct (triggers_severity _ _ _ _ _ Htr) as [Hs|Hs];
    rewrite Hsev, Hs;
    destruct (10 <=? Z.of_nat (length F)); split; try reflexivity;
    vm_compute; set_solver.
Qed.

Lemma failures_from_pos ip F :
  failures_from ip F ≠ 0 ↔ ∃ f, f ∈ F ∧ AuthEvent.source_ip f = ip.
Proof.
  unfold failures_from. split.
  - intros Hn.
    destruct (filter (λ f, AuthEvent.source_ip f = ip) F) as [|f l] eqn:Hf;
      [done|].
    assert (f ∈ filter (λ f, AuthEvent.source_ip f = ip) F) as Hin
      by (rewrite Hf; left).
    apply list_elem_of_filter in Hin as [? ?]. by exists f.
  - intros (f & Hf & Hip).
    assert (f ∈ filter (λ f, AuthEvent.source_ip f = ip) F) as Hin
      by (by apply list_elem_of_filter).
    destruct (filter _ F); [by apply elem_of_nil in Hin|simpl; lia].
Qed.

Lemma count_ips_keys ip F :
  ip ∈ (count_ips F).*1 ↔ ∃ f, f ∈ F ∧ AuthEvent.source_ip f = ip.
Proof.
  rewrite <- failures_from_pos. rewrite list_elem_of_fmap. split.
  - intros ([ip' n] & -> & Hin). apply elem_of_count_ips in Hin as [-> ?].
    done.
  - intros Hn. exists (ip, failures_from ip F). split; [done|].
    by apply elem_of_count_ips.
Qed.

(** X7. The indicators a chain alert carries for correlation: its IPs are
    the IP of the success and the IPs of the failures of the window, each
    once; its device ids are those of these events; and the number of
    distinct IPs it records is the number of distinct IPs of the
    failures. *)
Theorem chain_alert_indicators events w m1 m2 alerts a :
  detect_fail_success_chain events w m1 m2 = Some alerts →
  a ∈ alerts →
  ∃ user prevs success later,
    sort_by (key_le AuthEvent.ts) (events_of user events)
      = prevs ++ success :: later
    ∧ Alert.user a = user
    ∧ Alert.related_event_ids a
      = (AuthEvent.event_id <$> trailing_failures w prevs success)
          ++ [AuthEvent.event_id success]
    ∧ NoDup (alert_ips a)
    ∧ (∀ ip, ip ∈ alert_ips a
             ↔ ip = AuthEvent.source_ip success
               ∨ ∃ f, f ∈ trailing_failures w prevs success
                      ∧ AuthEvent.source_ip f = ip)
    ∧ NoDup (alert_device_ids a)
    ∧ (∀ d, d ∈ alert_device_ids a
            ↔ ∃ e, e ∈ trailing_failures w prevs success ++ [success]
                   ∧ AuthEvent.device_id e = Some d)
    ∧ Evidence.get (Alert.evidence a) "distinct_ips" VNone
      = VInt (Z.of_nat
                (length (remove_dups
                           (AuthEvent.source_ip
                              <$> trailing_failures w prevs success)))).
Proof.
  intros Hd Ha.
  destruct (chain_alert_anatomy _ _ _ _ _ _ Hd Ha)
    as (user & prevs & s & later & ty & thr & Hsort & _ & HF & Htr & Hca).
  destruct (create_alert_spec user _ s ty thr HF)
    as (a' & ff & Hca' & _ & _ & Hu & _ & _ & _ & _ & _ & _ & _ & Hrel).
  assert (a' = a) as -> by congruence.
  destruct (create_alert_more _ _ _ _ _ _ _ Hca)
    as (_ & Hips & Hdevs & Hdist).
  set (F := trailing_failures w prevs s) in *.
  exists user, prevs, s, later. split_and!; try done.
  - unfold alert_ips. rewrite Hips. apply set_order_NoDup.
  - intros ip. unfold alert_ips. rewrite Hips. simpl.
    rewrite set_order_elem, elem_of_app, list_elem_of_singleton,
      count_ips_keys. tauto.
  - unfold alert_device_ids. rewrite Hdevs. apply set_order_NoDup.
  - intros d. unfold alert_device_ids. rewrite Hdevs. simpl.
    rewrite set_order_elem, list_elem_of_omap. done.
  - rewrite Hdist. do 2 f_equal.
    rewrite <- (length_fmap fst (count_ips F)).
    apply Permutation_length, NoDup_Permutation.
    + apply count_ips_NoDup.
    + apply NoDup_remove_dups.
    + intros ip. rewrite elem_of_remove_dups, count_ips_keys,
        list_elem_of_fmap. naive_solver.
Qed.


(** The detector as the concatenation of what it finds user by user. *)
Lemma detect_chain_eq events w m1 m2 :
  detect_fail_success_chain events w m1 m2
  = Some (concat ((λ '(user, user_evts),
                     default [] (detect_user w m1 m2 user user_evts))
                  <$> group_by AuthEvent.user events)).
Proof.
  unfold detect_fail_success_chain.
  erewrite (mapM_total _ (λ '(user, user_evts),
              default [] (detect_user w m1 m2 user user_evts))); [done|].
  intros [u evts]. by rewrite detect_user_eq.
Qed.


Lemma length_omap_imap_le {A B} (P : A → Prop) `{!∀ x, Decision (P x)}
    (g : nat → A → option B) (l : list A) :
  (∀ i x, is_Some (g i x) → P x) →
  (length (omap id (imap g l)) ≤ length (filter P l))%nat.
Proof.
  revert g. induction l as [|x l IH]; intros g Hg; [done|]. csimpl.
  specialize (IH (g ∘ S) (λ i, Hg (S i))).
  destruct (g 0%nat x) as [b|] eqn:Hb; simpl.
  - rewrite filter_cons_True by (apply (Hg 0%nat); by rewrite Hb).
    simpl. lia.
  - rewrite filter_cons. destruct (decide (P x)); simpl; lia.
Qed.

(** X9. The detector raises at most one alert for each success event of
    the log; a log without a success gives none. *)
Theorem chain_alerts_bounded events w m1 m2 alerts :
  detect_fail_success_chain events w m1 m2 = Some alerts →
  (length alerts
   ≤ length (filter (λ e, AuthEvent.result e = "success") events))%nat.
Proof.
  rewrite detect_chain_eq. intros [= <-].
  rewrite <- (group_by_perm AuthEvent.user events) at 2.
  rewrite length_filter_concat, length_concat.
  induction (group_by AuthEvent.user events) as [|[u evts] groups IH];
    [done|].
  csimpl. apply Nat.add_le_mono; [|done].
  rewrite detect_user_eq. simpl.
  rewrite <- (sort_by_perm (key_le AuthEvent.ts) evts) at 2.
  apply length_omap_imap_le. intros i e [o Ho].
  destruct (check_event_spec w m1 m2 u
              (take i (sort_by (key_le AuthEvent.ts) evts)) e)
    as (o' & Ho' & Hiff).
  rewrite Ho' in Ho. simpl in Ho. subst o'.
  by destruct (proj1 (Hiff o) eq_refl) as (? & _).
Qed.

End chain_extras.

Lemma chain_negative_window_witness :
  -1 < 0
  ∧ fail_success_chain.detect_fail_success_chain (H := reference.runtime)
      fixtures.brute_force_events (-1) 8 15 = Some [].
Proof.
  split; [lia|].
  destruct (fail_success_chain.detect_fail_success_chain
              (H := reference.runtime) fixtures.brute_force_events (-1) 8 15)
    as [alerts|] eqn:Hd; [|vm_compute in Hd; discriminate].
  f_equal.
  apply (chain_negative_window (H := reference.runtime)
           fixtures.brute_force_events (-1) 8 15 alerts); [lia|exact Hd].
Defined.

(** ** detectors/impossible_travel.py *)

Section travel_extras.
Context `{PyRuntime}.
Import impossible_travel.

Lemma locate_Some e p :
  locate e = Some p →
  p.1 = e ∧ AuthEvent.result e = "success"
  ∧ AuthEvent.lat e = Some p.2.1 ∧ AuthEvent.lon e = Some p.2.2.
Proof.
  unfold locate. case_bool_decide; [|done].
  destruct (AuthEvent.lat e), (AuthEvent.lon e); intros [= <-]; done.
Qed.

Lemma located_of_elem_of user events p :
  p ∈ located_of user events →
  p.1 ∈ events ∧ AuthEvent.user p.1 = user
  ∧ AuthEvent.result p.1 = "success"
  ∧ AuthEvent.lat p.1 = Some p.2.1 ∧ AuthEvent.lon p.1 = Some p.2.2.
Proof.
  unfold located_of. rewrite list_elem_of_filter, list_elem_of_omap.
  intros (Hu & e & He & Hl).
  apply locate_Some in Hl as (Heq & ? & ? & ?). subst e. done.
Qed.

(** Every alert of the detector, with the two neighbours it compares. *)
Lemma travel_alert_anatomy events thr max_hours a :
  a ∈ detect_impossible_travel events thr max_hours →
  ∃ user l1 e1 loc1 e2 loc2 l2,
    sort_by (key_le (AuthEvent.ts ∘ fst)) (located_of user events)
      = l1 ++ (e1, loc1) :: (e2, loc2) :: l2
    ∧ (e1, loc1) ∈ located_of user events
    ∧ (e2, loc2) ∈ located_of user events
    ∧ AuthEvent.ts e1 ≤ AuthEvent.ts e2
    ∧ (0 < hours_between (AuthEvent.ts e1) (AuthEvent.ts e2))%Q
    ∧ (hours_between (AuthEvent.ts e1) (AuthEvent.ts e2) <= max_hours)%Q
    ∧ (thr < fl (haversine loc1 loc2
                  / hours_between (AuthEvent.ts e1) (AuthEvent.ts e2)))%Q
    ∧ a = _create_alert e1 e2 (haversine loc1 loc2)
            (hours_between (AuthEvent.ts e1) (AuthEvent.ts e2))
            (Finite (fl (haversine loc1 loc2
                         / hours_between (AuthEvent.ts e1)
                             (AuthEvent.ts e2)))).
Proof.
  intros Ha.
  apply travel_alert_origin in Ha
    as (user & l1 & [e1 loc1] & [e2 loc2] & l2 & Hsort & Hc).
  apply check_pair_Some in Hc as (Hpos & Hmax & Hthr & Hae).
  exists user, l1, e1, loc1, e2, loc2, l2. split_and!; try done.
  - apply (sort_by_elem_of (key_le (AuthEvent.ts ∘ fst))). rewrite Hsort.
    apply elem_of_app. right. left.
  - apply (sort_by_elem_of (key_le (AuthEvent.ts ∘ fst))). rewrite Hsort.
    apply elem_of_app. right. right. left.
  - pose proof (sort_by_sorted (AuthEvent.ts ∘ fst)
                  (located_of user events)) as Hs.
    rewrite Hsort in Hs.
    change (l1 ++ (e1, loc1) :: (e2, loc2) :: l2)
      with (l1 ++ [(e1, loc1)] ++ (e2, loc2) :: l2) in Hs.
    rewrite (assoc_L (++)) in Hs. apply sorted_before in Hs.
    apply Forall_app in Hs as [_ Hs]. by apply Forall_inv in Hs.
Qed.

(** X10. The severity of an impossible-travel alert follows the speed and
    the elapsed time of the pair: critical above 2000 km/h within two
    hours, else high above 900 km/h within six hours, else medium, never
    low; the score is the base score of the severity, with no bonus. With
    a threshold of 900 km/h or more an alert is medium only when the two
    logins are at least six hours apart. *)
Theorem travel_alert_severity events speed_threshold_kmh max_hours a :
  a ∈ detect_impossible_travel events speed_threshold_kmh max_hours →
  ∃ user l1 e1 loc1 e2 loc2 l2,
    sort_by (key_le (AuthEvent.ts ∘ fst)) (located_of user events)
      = l1 ++ (e1, loc1) :: (e2, loc2) :: l2
    ∧ Alert.related_event_ids a
      = [AuthEvent.event_id e1; AuthEvent.event_id e2]
    ∧ let dt := hours_between (AuthEvent.ts e1) (AuthEvent.ts e2) in
      let speed := fl (haversine loc1 loc2 / dt) in
      Alert.severity a
      = (if Qgt_bool speed 2000 && Qlt_bool dt 2 then "critical"
         else if Qgt_bool speed 900 && Qlt_bool dt 6 then "high"
         else "medium")
      ∧ Alert.score a = scoring.get_base_score (Alert.severity a)
      ∧ Alert.score a ∈ [50; 75; 95]
      ∧ ((900 <= speed_threshold_kmh)%Q →
         Alert.severity a = "medium" → (6 <= dt)%Q).
Proof.
  intros Ha.
  destruct (travel_alert_anatomy _ _ _ _ Ha)
    as (user & l1 & e1 & loc1 & e2 & loc2 & l2 & Hsort & _ & _ & _ & _ & _
        & Hthr & ->).
  exists user, l1, e1, loc1, e2, loc2, l2.
  split; [done|]. split; [done|]. simpl.
  set (dt := hours_between (AuthEvent.ts e1) (AuthEvent.ts e2)) in *.
  set (speed := fl (haversine loc1 loc2 / dt)) in *.
  split; [done|].
  destruct (Qgt_bool speed 2000 && Qlt_bool dt 2) eqn:Hc; simpl.
  { split; [reflexivity|]. split; [vm_compute; set_solver|]. done. }
  destruct (Qgt_bool speed 900 && Qlt_bool dt 6) eqn:Hh; simpl.
  { split; [reflexivity|]. split; [vm_compute; set_solver|]. done. }
  split; [reflexivity|]. split; [vm_compute; set_solver|].
  intros H900 _.
  assert (Qgt_bool speed 900 = true) as Hs.
  { apply Qgt_bool_true. eapply Qle_lt_trans; done. }
  rewrite Hs in Hh. simpl in Hh. unfold Qlt_bool in Hh.
  apply negb_false_iff in Hh. by apply Qle_bool_iff in Hh.
Qed.

(** X11. An impossible-travel alert comes from two successful logins of
    one user that both carry coordinates: it starts at the earlier one,
    ends at the later one, carries their user, refers to the two events in
    that order and holds their source IPs as indicators. *)
Theorem travel_alert_events events speed_threshold_kmh max_hours a :
  a ∈ detect_impossible_travel events speed_threshold_kmh max_hours →
  ∃ e1 e2,
    e1 ∈ events ∧ e2 ∈ events
    ∧ AuthEvent.result e1 = "success" ∧ AuthEvent.result e2 = "success"
    ∧ is_Some (AuthEvent.lat e1) ∧ is_Some (AuthEvent.lon e1)
    ∧ is_Some (AuthEvent.lat e2) ∧ is_Some (AuthEvent.lon e2)
    ∧ AuthEvent.user e1 = Alert.user a ∧ AuthEvent.user e2 = Alert.user a
    ∧ AuthEvent.ts e1 ≤ AuthEvent.ts e2
    ∧ Alert.ts_start a = AuthEvent.ts e1
    ∧ Alert.ts_end a = AuthEvent.ts e2
    ∧ Alert.detector a = "impossible_travel"
    ∧ Alert.related_event_ids a
      = [AuthEvent.event_id e1; AuthEvent.event_id e2]
    ∧ ∀ ip, ip ∈ alert_ips a
            ↔ ip = AuthEvent.source_ip e1 ∨ ip = AuthEvent.source_ip e2.
Proof.
  intros Ha.
  destruct (travel_alert_anatomy _ _ _ _ Ha)
    as (user & l1 & e1 & loc1 & e2 & loc2 & l2 & Hsort & H1 & H2 & Hts & _
        & _ & _ & ->).
  apply located_of_elem_of in H1 as (? & Hu1 & ? & Hla1 & Hlo1).
  apply located_of_elem_of in H2 as (? & Hu2 & ? & Hla2 & Hlo2).
  simpl in *. exists e1, e2. split_and!; try done; try by eexists.
  - congruence.
  - lia.
  - lia.
  - intros ip. unfold alert_ips. simpl.
    rewrite set_order_elem, !elem_of_cons, elem_of_nil. tauto.
Qed.

(** X12. The detector compares neighbours only: a log in which no user has
    two successful logins with coordinates gives no alert, and neither does
    a search whose maximum elapsed time is zero or negative. *)
Theorem travel_needs_a_pair events speed_threshold_kmh max_hours :
  (max_hours <= 0)%Q
  ∨ (∀ user, (length (located_of user events) ≤ 1)%nat) →
  detect_impossible_travel events speed_threshold_kmh max_hours = [].
Proof.
  intros Hcase.
  destruct (detect_impossible_travel events speed_threshold_kmh max_hours)
    as [|a alerts] eqn:Hd; [done|]. exfalso.
  assert (a ∈ detect_impossible_travel events speed_threshold_kmh max_hours)
    as Ha by (rewrite Hd; left).
  destruct (travel_alert_anatomy _ _ _ _ Ha)
    as (user & l1 & e1 & loc1 & e2 & loc2 & l2 & Hsort & _ & _ & _ & Hpos
        & Hmax & _).
  destruct Hcase as [Hneg|Hone].
  - eapply Qlt_irrefl, Qlt_le_trans; [exact Hpos|].
    eapply Qle_trans; done.
  - specialize (Hone user).
    rewrite <- (sort_by_perm (key_le (AuthEvent.ts ∘ fst))) in Hone.
    rewrite Hsort, length_app in Hone. simpl in Hone. lia.
Qed.

End travel_extras.

Lemma travel_needs_a_pair_witness :
  ((6 <= 0)%Q
   ∨ (∀ user, (length (located_of user [fixtures.it_001]) ≤ 1)%nat))
  ∧ impossible_travel.detect_impossible_travel (H := reference.runtime)
      [fixtures.it_001] 900 6 = [].
Proof.
  assert (∀ user, (length (located_of user [fixtures.it_001]) ≤ 1)%nat)
    as Hone.
  { intros user. unfold located_of.
    etrans; [apply length_filter|]. vm_compute. apply le_n. }
  split; [by right|]. apply travel_needs_a_pair. by right.
Defined.

(** ** detectors/new_device_ua.py *)

Lemma NoDup_fmap_elem_eq {A B} (f : A → B) (l : list A) x y :
  NoDup (f <$> l) → x ∈ l → y ∈ l → f x = f y → x = y.
Proof.
  induction l as [|z l IH]; csimpl; [by intros _ ?%elem_of_nil|].
  intros [Hz Hnd]%NoDup_cons [->|Hx]%elem_of_cons [->|Hy]%elem_of_cons Hf.
  - done.
  - exfalso. apply Hz. rewrite Hf. by apply list_elem_of_fmap_2.
  - exfalso. apply Hz. rewrite <- Hf. by apply list_elem_of_fmap_2.
  - by apply IH.
Qed.

Lemma NoDup_split_unique {A} (l1 l2 l1' l2' : list A) x :
  NoDup (l1 ++ x :: l2) →
  l1 ++ x :: l2 = l1' ++ x :: l2' → l1 = l1' ∧ l2 = l2'.
Proof.
  revert l1'. induction l1 as [|y l1 IH]; intros [|y' l1']; simpl.
  - by intros _ [= ->].
  - intros [Hx _]%NoDup_cons [= <- ->]. exfalso. apply Hx.
    apply elem_of_app. right. left.
  - intros [Hx _]%NoDup_cons [= -> <-]. exfalso. apply Hx.
    apply elem_of_app. right. left.
  - intros [_ Hnd]%NoDup_cons [= <- Heq].
    destruct (IH _ Hnd Heq) as [-> ->]. done.
Qed.


Section device_extras.
Context `{PyRuntime}.
Import new_device_ua.

(** The alert [_check_for_anomaly] returns, beyond the fields of
    [check_for_anomaly_Some]: the flags it records, its score and its
    indicators. *)
Lemma check_for_anomaly_more e b user a :
  _check_for_anomaly e b user = Some a →
  Evidence.get (Alert.evidence a) "is_new_device" (VBool false)
  = is_new_device e b
  ∧ Evidence.get (Alert.evidence a) "is_new_country" (VBool false)
    = is_new_country e b
  ∧ Alert.score a
    = (if truthy (is_new_device e b) && truthy (is_new_country e b)
       then Z.min 100 (score_map !!! Alert.severity a + 10)
       else score_map !!! Alert.severity a)
  ∧ alert_ips a = [AuthEvent.source_ip e].
Proof.
  unfold _check_for_anomaly.
  destruct (negb (truthy (is_new_device e b)) && negb (is_new_ua_family e b));
    [done|].
  intros [= <-]. split_and!; reflexivity.
Qed.

(** Every alert of the detector, with the event it was raised for. *)
Lemma device_alert_anatomy events days a :
  a ∈ detect_new_device events days →
  ∃ user pre e post,
    events_of user (sort_by (key_le AuthEvent.ts) events) = pre ++ e :: post
    ∧ e ∈ events ∧ AuthEvent.user e = user
    ∧ AuthEvent.result e = "success"
    ∧ _check_for_anomaly e (baseline_after pre) user = Some a.
Proof.
  intros Ha.
  apply detect_new_device_spec in Ha as (user & pre & e & post & Heq & Hst).
  apply step_alert_Some in Hst as (Hres & _ & Hc).
  exists user, pre, e, post. split_and!; try done.
  - apply (sort_by_elem_of (key_le AuthEvent.ts)).
    eapply (proj1 (list_elem_of_filter _ _ _)).
    unfold events_of in Heq. rewrite Heq. apply elem_of_app. right. left.
  - assert (e ∈ events_of user (sort_by (key_le AuthEvent.ts) events))
      as Hin by (rewrite Heq; apply elem_of_app; right; left).
    unfold events_of in Hin. by apply list_elem_of_filter in Hin as [? _].
Qed.

(** X13. A successful login is not flagged when its device id and the
    family of its user agent both occurred in an earlier event of the user
    that carried that device id, however long before and whatever the
    country: in a log without repeated event ids no alert of the detector
    refers to it. *)
Theorem known_device_not_flagged events lookback_days user pre e post p d :
  NoDup (AuthEvent.event_id <$> events) →
  events_of user (sort_by (key_le AuthEvent.ts) events) = pre ++ e :: post →
  p ∈ pre →
  AuthEvent.device_id p = Some d → d ≠ "" →
  AuthEvent.device_id e = Some d →
  _get_ua_family (AuthEvent.user_agent e)
    = _get_ua_family (AuthEvent.user_agent p) →
  ∀ a, a ∈ detect_new_device events lookback_days →
       AuthEvent.event_id e ∉ Alert.related_event_ids a.
Proof.
  intros Hnd Heq Hp Hdp Hd Hde Hua a Ha Hin.
  destruct (device_alert_anatomy _ _ _ Ha)
    as (user' & pre' & e' & post' & Heq' & He' & Hu' & _ & Hc).
  destruct (check_for_anomaly_Some _ _ _ _ Hc)
    as (Hnew & _ & _ & _ & _ & _ & Hrel).
  rewrite Hrel in Hin. apply list_elem_of_singleton in Hin.
  assert (e ∈ events_of user (sort_by (key_le AuthEvent.ts) events))
    as Hein by (rewrite Heq; apply elem_of_app; right; left).
  unfold events_of in Hein. apply list_elem_of_filter in Hein as [Hu He].
  apply sort_by_elem_of in He.
  assert (e = e') as <- by (by eapply NoDup_fmap_elem_eq).
  assert (user' = user) as -> by congruence.
  assert (pre = pre') as <-.
  { assert (NoDup (pre ++ e :: post)) as Hnd'.
    { rewrite <- Heq. apply NoDup_filter.
      rewrite sort_by_perm. by eapply NoDup_fmap_1. }
    apply (NoDup_split_unique pre post pre' post' e Hnd'). congruence. }
  assert (truthy (is_new_device e (baseline_after pre)) = false) as Hdev.
  { apply not_true_iff_false. intros Ht.
    apply is_new_device_true in Ht as (d' & Hd' & _ & Hnin).
    apply Hnin. apply baseline_device_ids. exists p.
    split_and!; congruence. }
  assert (is_new_ua_family e (baseline_after pre) = false) as Hfam.
  { apply not_true_iff_false. intros Ht.
    apply is_new_ua_family_true in Ht as (_ & _ & _ & Hnin).
    apply Hnin. apply baseline_ua_families. exists p.
    split_and!; [done| |done].
    apply truthy_str_true. by exists d. }
  destruct Hnew; congruence.
Qed.

(** X14. An alert of the new-device detector is high or medium: its score
    is the base score of its severity, plus 10 when it records a new device
    in a new country; so the score is 85 for a new device in a new country,
    75 for a new user-agent family alone in a new country, and 50 when the
    country is not new. Its only IP indicator is the source IP of the login
    it refers to. *)
Theorem device_alert_score events lookback_days a :
  a ∈ detect_new_device events lookback_days →
  (Alert.severity a = "high" ∨ Alert.severity a = "medium")
  ∧ Alert.score a
    = scoring.get_base_score (Alert.severity a)
      + (if new_device_new_country a then 10 else 0)
  ∧ Alert.score a ∈ [50; 75; 85]
  ∧ (Alert.score a = 50
     ↔ truthy (Evidence.get (Alert.evidence a) "is_new_country"
                 (VBool false)) = false)
  ∧ ∃ e, e ∈ events ∧ Alert.related_event_ids a = [AuthEvent.event_id e]
         ∧ alert_ips a = [AuthEvent.source_ip e].
Proof.
  intros Ha.
  destruct (device_alert_anatomy _ _ _ Ha)
    as (user & pre & e & post & _ & He & _ & _ & Hc).
  destruct (check_for_anomaly_Some _ _ _ _ Hc)
    as (_ & Hsev & Hdet & _ & _ & _ & Hrel).
  destruct (check_for_anomaly_more _ _ _ _ Hc)
    as (Hfd & Hfc & Hscore & Hips).
  unfold new_device_new_country. rewrite Hdet, Hfd, Hfc, Hscore, Hsev.
  rewrite bool_decide_eq_true_2 by done. simpl.
  destruct (truthy (is_new_device e (baseline_after pre))),
    (truthy (is_new_country e (baseline_after pre))); simpl;
    (split_and!;
     [tauto || (by left) || (by right)
     |reflexivity
     |vm_compute; set_solver
     |split; (done || by vm_compute)
     |by exists e]).
Qed.


End device_extras.

(** ** detectors/__init__.py *)

Lemma concat_perm {A} (ls1 ls2 : list (list A)) :
  ls1 ≡ₚ ls2 → concat ls1 ≡ₚ concat ls2.
Proof.
  induction 1 as [|l ls1 ls2 _ IH|l1 l2 ls|ls1 ls2 ls3 _ IH1 _ IH2]; simpl.
  - done.
  - by rewrite IH.
  - rewrite !(assoc_L (++)). f_equiv. apply Permutation_app_comm.
  - by rewrite IH1.
Qed.

Section grouped_loops.
Context {A B : Type} (key : A → string).



End grouped_loops.

Lemma head_sort_by_le {A} (key : A → Z) (l : list A) first x :
  head (sort_by (key_le key) l) = Some first → x ∈ l → key first ≤ key x.
Proof.
  intros Hhd Hx. pose proof (sort_by_sorted key l) as Hs.
  apply (sort_by_elem_of (key_le key)) in Hx.
  destruct (sort_by (key_le key) l) as [|y rest]; simplify_eq/=.
  apply StronglySorted_inv in Hs as [_ Hall].
  apply elem_of_cons in Hx as [->|Hx]; [done|].
  rewrite Forall_forall in Hall. by apply Hall.
Qed.


Section chain_in_log.
Context `{PyRuntime}.
Import fail_success_chain.

(** The events a chain alert refers to. *)
Lemma chain_alert_events events w m1 m2 alerts a :
  detect_fail_success_chain events w m1 m2 = Some alerts →
  a ∈ alerts →
  Alert.detector a = "fail_success_chain"
  ∧ Alert.related_event_ids a ≠ []
  ∧ ∀ id, id ∈ Alert.related_event_ids a →
      ∃ e, e ∈ events ∧ AuthEvent.event_id e = id
        ∧ AuthEvent.user e = Alert.user a
        ∧ Alert.ts_start a ≤ AuthEvent.ts e ≤ Alert.ts_end a.
Proof.
  intros Hd Ha.
  destruct (chain_alert_anatomy _ _ _ _ _ _ Hd Ha)
    as (user & prevs & s & later & ty & thr & Hsort & _ & HF & _ & Hca).
  destruct (create_alert_spec user _ s ty thr HF)
    as (a' & ff & Hca' & Hhd & Hdet & Hu & Hts & Hte & _ & _ & _ & _ & _
        & Hrel).
  assert (a' = a) as -> by congruence.
  set (F := trailing_failures w prevs s) in *.
  assert (∀ f, f ∈ F →
            f ∈ events ∧ AuthEvent.user f = user
            ∧ AuthEvent.ts ff ≤ AuthEvent.ts f ≤ AuthEvent.ts s) as HFev.
  { intros f Hf.
    destruct (trailing_failures_elem_of _ _ _ _ _ _ _ Hsort Hf)
      as (? & ? & _ & _ & ? & ?).
    split_and!; try done. by eapply head_sort_by_le. }
  assert (s ∈ events ∧ AuthEvent.user s = user) as [Hsev Hsu].
  { assert (s ∈ events_of user events) as Hin.
    { apply (sort_by_elem_of (key_le AuthEvent.ts)). rewrite Hsort.
      apply elem_of_app. right. left. }
    by apply events_of_elem_of in Hin as [? ?]. }
  split; [done|]. split.
  { rewrite Hrel. by destruct (AuthEvent.event_id <$> F). }
  intros id Hid. rewrite Hrel in Hid.
  apply elem_of_app in Hid as [Hid|Hid%list_elem_of_singleton].
  - apply list_elem_of_fmap in Hid as (f & -> & Hf).
    destruct (HFev f Hf) as (? & ? & ?). exists f.
    split_and!; try done; try congruence; lia.
  - subst id. exists s. split_and!; try done; try congruence; try lia.
    destruct F as [|f F'] eqn:HFe; [done|].
    destruct (HFev f) as (_ & _ & ?); [left|]. lia.
Qed.


End chain_in_log.

Section travel_in_log.
Context `{PyRuntime}.
Import impossible_travel.

Lemma travel_alert_events_in_log events thr max_hours a :
  a ∈ detect_impossible_travel events thr max_hours →
  Alert.detector a = "impossible_travel"
  ∧ Alert.related_event_ids a ≠ []
  ∧ ∀ id, id ∈ Alert.related_event_ids a →
      ∃ e, e ∈ events ∧ AuthEvent.event_id e = id
        ∧ AuthEvent.user e = Alert.user a
        ∧ Alert.ts_start a ≤ AuthEvent.ts e ≤ Alert.ts_end a.
Proof.
  intros Ha.
  destruct (travel_alert_anatomy _ _ _ _ Ha)
    as (user & l1 & e1 & loc1 & e2 & loc2 & l2 & Hsort & H1 & H2 & Hts & _
        & _ & _ & ->).
  apply located_of_elem_of in H1 as (? & Hu1 & _).
  apply located_of_elem_of in H2 as (? & Hu2 & _).
  simpl in *. split; [done|]. split; [done|]. intros id.
  rewrite !elem_of_cons, elem_of_nil. intros [->|[->|[]]].
  - exists e1. split_and!; try done; lia.
  - exists e2. split_and!; try done; try congruence; lia.
Qed.



End travel_in_log.

Section device_in_log.
Context `{PyRuntime}.
Import new_device_ua.

Lemma device_alert_events events days a :
  a ∈ detect_new_device events days →
  Alert.detector a = "new_device_ua"
  ∧ Alert.related_event_ids a ≠ []
  ∧ ∀ id, id ∈ Alert.related_event_ids a →
      ∃ e, e ∈ events ∧ AuthEvent.event_id e = id
        ∧ AuthEvent.user e = Alert.user a
        ∧ Alert.ts_start a ≤ AuthEvent.ts e ≤ Alert.ts_end a.
Proof.
  intros Ha.
  destruct (device_alert_anatomy _ _ _ Ha)
    as (user & pre & e & post & _ & He & Hu & _ & Hc).
  destruct (check_for_anomaly_Some _ _ _ _ Hc)
    as (_ & _ & Hdet & Hau & Hts & Hte & Hrel).
  split; [done|]. rewrite Hrel. split; [done|].
  intros id ->%list_elem_of_singleton. exists e.
  split_and!; try done; try congruence; lia.
Qed.

End device_in_log.

Section detectors_extras.
Context `{PyRuntime}.
Import detectors.

Lemma run_all_detectors_eq events thr max_hours w m1 m2 days :
  ∃ chains,
    fail_success_chain.detect_fail_success_chain events w m1 m2 = Some chains
    ∧ run_all_detectors events thr max_hours w m1 m2 days
      = Some (impossible_travel.detect_impossible_travel events thr max_hours
              ++ chains ++ new_device_ua.detect_new_device events days).
Proof.
  destruct (detect_chain_spec events w m1 m2) as (chains & Hc & _).
  exists chains. split; [done|]. unfold run_all_detectors. by rewrite Hc.
Qed.

(** The events the alerts of the three detectors refer to. *)
Lemma detector_alert_events events thr max_hours w m1 m2 days chains a :
  fail_success_chain.detect_fail_success_chain events w m1 m2 = Some chains →
  a ∈ impossible_travel.detect_impossible_travel events thr max_hours
      ++ chains ++ new_device_ua.detect_new_device events days →
  Alert.related_event_ids a ≠ []
  ∧ ∀ id, id ∈ Alert.related_event_ids a →
      ∃ e, e ∈ events ∧ AuthEvent.event_id e = id
        ∧ AuthEvent.user e = Alert.user a
        ∧ Alert.ts_start a ≤ AuthEvent.ts e ≤ Alert.ts_end a.
Proof.
  intros Hc. rewrite !elem_of_app. intros [Ha|[Ha|Ha]].
  - by apply travel_alert_events_in_log in Ha as (_ & ? & ?).
  - by destruct (chain_alert_events _ _ _ _ _ _ Hc Ha) as (_ & ? & ?).
  - by apply device_alert_events in Ha as (_ & ? & ?).
Qed.

(** X16. The combined run returns the alerts of the three detectors, those
    of impossible travel first, then the chains, then the new devices, and
    the [detector] field of an alert tells which detector raised it. *)
Theorem run_all_detectors_provenance events speed_threshold_kmh
    max_travel_hours w m1 m2 days :
  ∃ chains,
    fail_success_chain.detect_fail_success_chain events w m1 m2 = Some chains
    ∧ run_all_detectors events speed_threshold_kmh max_travel_hours w m1 m2
        days
      = Some (impossible_travel.detect_impossible_travel events
                speed_threshold_kmh max_travel_hours
              ++ chains ++ new_device_ua.detect_new_device events days)
    ∧ Forall (λ a, Alert.detector a = "impossible_travel")
        (impossible_travel.detect_impossible_travel events
           speed_threshold_kmh max_travel_hours)
    ∧ Forall (λ a, Alert.detector a = "fail_success_chain") chains
    ∧ Forall (λ a, Alert.detector a = "new_device_ua")
        (new_device_ua.detect_new_device events days).
Proof.
  destruct (run_all_detectors_eq events speed_threshold_kmh max_travel_hours
              w m1 m2 days) as (chains & Hc & Hrun).
  exists chains. split_and!; try done; apply Forall_forall; intros a Ha.
  - by apply travel_alert_events_in_log in Ha as (? & _).
  - by destruct (chain_alert_events _ _ _ _ _ _ Hc Ha) as (? & _).
  - by apply device_alert_events in Ha as (? & _).
Qed.

(** X17. Every alert of the combined run refers to at least one event, and
    each id it refers to is the id of an event of the log that belongs to
    the alert's user and lies within the alert's time span. *)
Theorem alerts_refer_to_log_events events speed_threshold_kmh
    max_travel_hours w m1 m2 days alerts a :
  run_all_detectors events speed_threshold_kmh max_travel_hours w m1 m2 days
    = Some alerts →
  a ∈ alerts →
  Alert.related_event_ids a ≠ []
  ∧ ∀ id, id ∈ Alert.related_event_ids a →
      ∃ e, e ∈ events ∧ AuthEvent.event_id e = id
        ∧ AuthEvent.user e = Alert.user a
        ∧ Alert.ts_start a ≤ AuthEvent.ts e ≤ Alert.ts_end a.
Proof.
  destruct (run_all_detectors_eq events speed_threshold_kmh max_travel_hours
              w m1 m2 days) as (chains & Hc & ->).
  intros [= <-] Ha. by eapply detector_alert_events.
Qed.


End detectors_extras.

(** ** correlate.py *)

Section sort_total.
Context {A : Type} (le : A → A → bool) (R : relation A).
Hypothesis le_R : ∀ a b, le a b = true ↔ R a b.
Hypothesis R_total : ∀ a b, R a b ∨ R b a.
Hypothesis R_trans : ∀ a b c, R a b → R b c → R a c.

Lemma sort_insert_sorted_total x l :
  StronglySorted R l → StronglySorted R (sort_insert le x l).
Proof.
  induction 1 as [|y l Hs IH Hall]; simpl; [repeat constructor|].
  destruct (le x y) eqn:Hxy.
  - apply le_R in Hxy. constructor; [by constructor|].
    constructor; [done|]. eapply Forall_impl; [exact Hall|].
    intros z Hz. by eapply R_trans.
  - constructor; [done|]. apply Forall_forall. intros z Hz.
    rewrite sort_insert_perm in Hz.
    apply elem_of_cons in Hz as [->|Hz].
    + destruct (R_total x y) as [Hr|Hr]; [|done].
      apply le_R in Hr. congruence.
    + rewrite Forall_forall in Hall. by apply Hall.
Qed.

(** [sorted] with a total, transitive comparison returns a sorted list. *)
Lemma sort_by_sorted_total l : StronglySorted R (sort_by le l).
Proof.
  induction l as [|x l IH]; simpl; [constructor|].
  by apply sort_insert_sorted_total.
Qed.

End sort_total.

Lemma Forall2_fmap_eq {A B C} (f : B → C) (g : A → C) (l : list A)
    (k : list B) :
  Forall2 (λ x y, f y = g x) l k → f <$> k = g <$> l.
Proof. induction 1; csimpl; by f_equal. Qed.

Lemma length_concat_nonempty {A} (ls : list (list A)) :
  Forall (λ l, l ≠ []) ls → (length ls ≤ length (concat ls))%nat.
Proof.
  induction 1 as [|l ls Hl _ IH]; simpl; [done|].
  rewrite length_app. destruct l; [done|]. simpl. lia.
Qed.

Section infix_groups.
Context {A : Type}.
Implicit Types (g cur : list A) (gs : list (list A)).

Lemma infix_open_grows g gs' cur' a :
  (∃ g', g' ∈ gs' ++ [cur'] ∧ ∃ p q, g' = p ++ g ++ q) →
  ∃ g', g' ∈ gs' ++ [cur' ++ [a]] ∧ ∃ p q, g' = p ++ g ++ q.
Proof.
  intros (g' & Hin & p & q & ->).
  apply elem_of_app in Hin as [Hin|Hin%list_elem_of_singleton].
  - exists (p ++ g ++ q). split; [apply elem_of_app; by left|].
    by exists p, q.
  - exists (cur' ++ [a]). split; [apply elem_of_app; right; left|].
    exists p, (q ++ [a]). rewrite <- Hin. by rewrite <- !(assoc_L (++)).
Qed.

End infix_groups.

Section correlate_extras.
Context `{PyRuntime}.
Import correlate.
Implicit Types (alerts : list Alert) (idx : gmap string AuthEvent)
  (uuid : nat → string).

Lemma correlate_cases_unsorted uuid alerts idx window_hours cases :
  correlate_cases uuid alerts idx window_hours = Some cases →
  ∃ cases0,
    user_loop uuid 0 (group_by Alert.user alerts) idx window_hours
      = Some cases0
    ∧ cases = sort_by case_le cases0.
Proof.
  unfold correlate_cases. destruct alerts as [|a0 alerts'] eqn:Halerts.
  { intros [= <-]. by exists []. }
  rewrite <- Halerts.
  destruct (user_loop uuid 0 _ idx window_hours) as [cs|]; simpl; [|done].
  intros [= <-]. by exists cs.
Qed.

Lemma build_cases_built uuid n user groups idx cases :
  build_cases uuid n user groups idx = Some cases →
  Forall (λ c, ∃ k, _build_case (uuid k) (Case.user c) (Case.alerts c) idx
                    = Some c) cases.
Proof.
  revert n cases. induction groups as [|g groups IH]; intros n cases; simpl.
  - intros [= <-]. constructor.
  - destruct (_build_case (uuid n) user g idx) as [c|] eqn:Hc; simpl; [|done].
    destruct (build_cases uuid (S n) user groups idx) as [cs|] eqn:Hcs; simpl;
      [|done].
    intros [= <-]. constructor; [|by eapply IH].
    destruct (build_case_fields _ _ _ _ _ Hc) as [-> ->]. by exists n.
Qed.

Lemma user_loop_built uuid n user_alerts idx window_hours cases :
  user_loop uuid n user_alerts idx window_hours = Some cases →
  Forall (λ c, ∃ k, _build_case (uuid k) (Case.user c) (Case.alerts c) idx
                    = Some c) cases.
Proof.
  revert n cases. induction user_alerts as [|[user l] rest IH];
    intros n cases; simpl.
  - intros [= <-]. constructor.
  - set (groups := _merge_alerts_into_cases user _ window_hours).
    destruct (build_cases uuid n user groups idx) as [cs|] eqn:Hcs; simpl;
      [|done].
    destruct (user_loop uuid _ rest idx window_hours) as [more|] eqn:Hmore;
      simpl; [|done].
    intros [= <-]. apply Forall_app. split; [by eapply build_cases_built|].
    by eapply IH.
Qed.

(** Every case of a run is what [_build_case] returns for its user and its
    alerts. *)
Lemma correlate_cases_built uuid alerts idx window_hours cases c :
  correlate_cases uuid alerts idx window_hours = Some cases →
  c ∈ cases →
  ∃ k, _build_case (uuid k) (Case.user c) (Case.alerts c) idx = Some c.
Proof.
  intros (cases0 & Hloop & ->)%correlate_cases_unsorted Hc.
  apply sort_by_elem_of in Hc. apply user_loop_built in Hloop.
  rewrite Forall_forall in Hloop. by apply Hloop.
Qed.

Lemma user_loop_alerts uuid n user_alerts idx window_hours cases :
  user_loop uuid n user_alerts idx window_hours = Some cases →
  concat (Case.alerts <$> cases) ≡ₚ concat user_alerts.*2
  ∧ Forall (λ c, Case.alerts c ≠ []) cases.
Proof.
  intros Hloop. apply user_loop_spec in Hloop.
  assert (Case.alerts <$> cases
          = concat ((λ '(user, l),
                       _merge_alerts_into_cases user
                         (sort_by (key_le Alert.ts_start) l) window_hours)
                    <$> user_alerts)) as Heq.
  { erewrite (Forall2_fmap_eq Case.alerts snd); last first.
    { eapply Forall2_impl; [exact Hloop|]. by intros [u g] c [_ ?]. }
    clear Hloop. induction user_alerts as [|[u l] rest IH]; [done|].
    csimpl. rewrite fmap_app, IH. f_equal.
    rewrite <- list_fmap_compose. apply list_fmap_id. }
  clear Hloop.
  rewrite <- (Forall_fmap Case.alerts (λ g, g ≠ [])). rewrite Heq.
  clear Heq. induction user_alerts as [|[u l] rest [IH1 IH2]];
    [by split|].
  csimpl. rewrite concat_app.
  destruct (merge_pass_concat u window_hours
              (sort_by (key_le Alert.ts_start) l)) as [Hc Hne].
  split.
  - rewrite Hc, IH1. by rewrite sort_by_perm.
  - apply Forall_app. by split.
Qed.

(** X19. Correlation loses no alert and repeats none: the alerts of the
    cases, taken together, are the alerts that were given, each as often;
    no case is empty, so there are at most as many cases as alerts. *)
Theorem cases_partition_alerts uuid alerts idx window_hours cases :
  correlate_cases uuid alerts idx window_hours = Some cases →
  concat (Case.alerts <$> cases) ≡ₚ alerts
  ∧ Forall (λ c, Case.alerts c ≠ []) cases
  ∧ (length cases ≤ length alerts)%nat.
Proof.
  intros (cases0 & Hloop & ->)%correlate_cases_unsorted.
  apply user_loop_alerts in Hloop as [Hperm Hne].
  assert (concat (Case.alerts <$> sort_by case_le cases0) ≡ₚ alerts)
    as Hall.
  { etrans; [|apply (group_by_perm Alert.user alerts)]. rewrite <- Hperm.
    apply concat_perm. by rewrite sort_by_perm. }
  assert (Forall (λ c, Case.alerts c ≠ []) (sort_by case_le cases0))
    as Hne'.
  { rewrite Forall_forall in Hne |- *. intros c Hc. apply Hne.
    by apply sort_by_elem_of in Hc. }
  split_and!; try done.
  rewrite <- Hall. rewrite <- (length_fmap Case.alerts).
  apply length_concat_nonempty. by apply Forall_fmap.
Qed.

(** The alerts of a case are a run of consecutive alerts of its user's
    sorted list. *)
Lemma case_alerts_run uuid alerts idx window_hours cases c :
  correlate_cases uuid alerts idx window_hours = Some cases →
  c ∈ cases →
  ∃ before after,
    sort_by (key_le Alert.ts_start) (alerts_of (Case.user c) alerts)
    = before ++ Case.alerts c ++ after.
Proof.
  intros Hrun Hc.
  destruct (correlate_cases_groups _ _ _ _ _ Hrun) as [Hgroup _].
  specialize (Hgroup c Hc).
  destruct (merge_pass_concat (Case.user c) window_hours
              (sort_by (key_le Alert.ts_start)
                 (alerts_of (Case.user c) alerts))) as [Hcat _].
  apply list_elem_of_split in Hgroup as (l1 & l2 & Hsplit).
  rewrite Hsplit, concat_app in Hcat. simpl in Hcat.
  by exists (concat l1), (concat l2).
Qed.

(** X20. A case never mixes users: each of its alerts carries the user of
    the case and is one of the alerts that were given; inside a case the
    alerts are in the order of their start times. *)
Theorem case_single_user uuid alerts idx window_hours cases c :
  correlate_cases uuid alerts idx window_hours = Some cases →
  c ∈ cases →
  (∀ a, a ∈ Case.alerts c → a ∈ alerts ∧ Alert.user a = Case.user c)
  ∧ StronglySorted (key_rel Alert.ts_start) (Case.alerts c).
Proof.
  intros Hrun Hc.
  destruct (case_alerts_run _ _ _ _ _ _ Hrun Hc) as (l1 & l2 & Hsort).
  split.
  - intros a Ha.
    assert (a ∈ alerts_of (Case.user c) alerts) as Hin.
    { apply (sort_by_elem_of (key_le Alert.ts_start)). rewrite Hsort.
      rewrite !elem_of_app. right. by left. }
    unfold alerts_of in Hin. apply list_elem_of_filter in Hin as [? ?].
    done.
  - pose proof (sort_by_sorted Alert.ts_start
                  (alerts_of (Case.user c) alerts)) as Hs.
    rewrite Hsort in Hs.
    apply StronglySorted_app_1_r, StronglySorted_app_1_l in Hs. done.
Qed.

Lemma case_le_before c1 c2 : case_le c1 c2 = true ↔ case_before c1 c2.
Proof.
  unfold case_le, case_before, case_key, severity_rank.
  rewrite orb_true_iff, andb_true_iff, Z.ltb_lt, Z.eqb_eq, Z.leb_le. done.
Qed.

(** X21. The cases come back ordered by severity, critical first, and by
    start time among cases of one severity. *)
Theorem cases_sorted_by_severity uuid alerts idx window_hours cases :
  correlate_cases uuid alerts idx window_hours = Some cases →
  StronglySorted case_before cases.
Proof.
  intros (cases0 & _ & ->)%correlate_cases_unsorted.
  apply (sort_by_sorted_total case_le case_before).
  - apply case_le_before.
  - intros a b. unfold case_before. lia.
  - intros a b c. unfold case_before. lia.
Qed.

(** The fields of a case of a run, as [_build_case] fills them. *)
Lemma case_fields uuid alerts idx window_hours cases c :
  correlate_cases uuid alerts idx window_hours = Some cases →
  c ∈ cases →
  Case.alerts c ≠ []
  ∧ scoring.calculate_case_score (Case.alerts c)
    = Some (Case.overall_score c, Case.overall_severity c)
  ∧ Case.timeline c = _build_timeline (Case.alerts c) idx
  ∧ Case.recommended_actions c = _generate_recommendations (Case.alerts c).
Proof.
  intros Hrun Hc.
  destruct (correlate_cases_built _ _ _ _ _ _ Hrun Hc) as [k Hb].
  revert Hb. unfold _build_case.
  destruct (Case.alerts c) as [|a0 rest]; [done|].
  destruct (scoring.calculate_case_score (a0 :: rest)) as [[s v]|];
    simpl; [|done].
  intros [= Hb]. rewrite <- Hb. simpl. done.
Qed.

(** X22. A case spans its alerts, from the earliest start to the latest
    end; its score and severity are those [calculate_case_score] gives for
    its alerts, so the score lies between 25 and 100, the severity is one of
    the four severities, and no alert of the case is more severe than the
    case. *)
Theorem case_covers_its_alerts uuid alerts idx window_hours cases c :
  correlate_cases uuid alerts idx window_hours = Some cases →
  c ∈ cases →
  (∀ a, a ∈ Case.alerts c →
        Case.ts_start c ≤ Alert.ts_start a
        ∧ Alert.ts_end a ≤ Case.ts_end c
        ∧ severity_rank (Case.overall_severity c)
          ≤ severity_rank (Alert.severity a))
  ∧ Case.ts_start c ∈ Alert.ts_start <$> Case.alerts c
  ∧ Case.ts_end c ∈ Alert.ts_end <$> Case.alerts c
  ∧ scoring.calculate_case_score (Case.alerts c)
    = Some (Case.overall_score c, Case.overall_severity c)
  ∧ 25 ≤ Case.overall_score c ≤ 100
  ∧ Case.overall_severity c ∈ ["low"; "medium"; "high"; "critical"]
  ∧ Case.timeline c = _build_timeline (Case.alerts c) idx
  ∧ Case.recommended_actions c = _generate_recommendations (Case.alerts c).
Proof.
  intros Hrun Hc.
  destruct (correlate_cases_built _ _ _ _ _ _ Hrun Hc) as [k Hb].
  destruct (build_case_span _ _ _ _ _ Hb) as [[Hs1 Hs2] [He1 He2]].
  destruct (case_fields _ _ _ _ _ _ Hrun Hc) as (Hne & Hscore & Htl & Hrec).
  destruct (case_score_interval _ _ _ Hne Hscore) as (Hr & Hbase & Hsev).
  split.
  { intros a Ha. split_and!; [by apply Hs2|by apply He2|].
    rewrite Hsev. apply severity_dominates.
    destruct (Case.alerts c) as [|a0 rest]; [done|].
    destruct (base_of_spec a0 rest) as [_ Hle]. specialize (Hle a Ha).
    lia. }
  split_and!; try done; try lia.
  rewrite Hsev. apply severity_from_score_known.
Qed.

Lemma should_merge_mono w w' alert (cur cur' : list Alert) :
  w ≤ w' → cur `suffix_of` cur' →
  should_merge w alert cur = true → should_merge w' alert cur' = true.
Proof.
  intros Hw [k ->] Hm. apply should_merge_true in Hm as (m & Hm & Hmw).
  apply should_merge_true. exists m. split; [apply elem_of_app; by right|].
  destruct Hmw as [?|?]; [left; lia|by right].
Qed.

(** With a larger window the greedy pass closes its open group no
    earlier: every group of the narrower pass lies within a group of the
    wider one. *)
Lemma merge_loop_refines w w' gs cur gs' cur' rest :
  w ≤ w' → cur `suffix_of` cur' →
  (∀ g, g ∈ gs → ∃ g', g' ∈ gs' ++ [cur'] ∧ ∃ p q, g' = p ++ g ++ q) →
  ∀ g, g ∈ merge_loop w gs cur rest →
       ∃ g', g' ∈ merge_loop w' gs' cur' rest ∧ ∃ p q, g' = p ++ g ++ q.
Proof.
  intros Hw. revert gs cur gs' cur'.
  induction rest as [|a rest IH]; intros gs cur gs' cur' Hsuf Hgs; simpl.
  - intros g [Hg|Hg%list_elem_of_singleton]%elem_of_app; [by apply Hgs|].
    subst g. destruct Hsuf as [k ->]. exists (k ++ cur).
    split; [apply elem_of_app; right; left|].
    exists k, []. by rewrite app_nil_r.
  - destruct (should_merge w a cur) eqn:Hm.
    + rewrite (should_merge_mono w w' a cur cur' Hw Hsuf Hm). apply IH.
      * destruct Hsuf as [k ->]. exists k. by rewrite (assoc_L (++)).
      * intros g Hg. by apply infix_open_grows, Hgs.
    + assert (∃ g', g' ∈ gs' ++ [cur'] ∧ ∃ p q, g' = p ++ cur ++ q)
        as Hcur.
      { destruct Hsuf as [k ->]. exists (k ++ cur).
        split; [apply elem_of_app; right; left|].
        exists k, []. by rewrite app_nil_r. }
      destruct (should_merge w' a cur') eqn:Hm'.
      * apply IH.
        -- exists cur'. done.
        -- intros g [Hg|Hg%list_elem_of_singleton]%elem_of_app.
           ++ by apply infix_open_grows, Hgs.
           ++ subst g. by apply infix_open_grows.
      * apply IH; [done|].
        intros g [Hg|Hg%list_elem_of_singleton]%elem_of_app.
        -- destruct (Hgs g Hg) as (g' & Hin & Hpq). exists g'.
           split; [apply elem_of_app; by left|done].
        -- subst g. destruct Hcur as (g' & Hin & Hpq). exists g'.
           split; [apply elem_of_app; by left|done].
Qed.

Lemma merge_pass_refines user alerts h1 h2 g :
  timedelta_hours h1 ≤ timedelta_hours h2 →
  g ∈ _merge_alerts_into_cases user alerts h1 →
  ∃ g', g' ∈ _merge_alerts_into_cases user alerts h2
        ∧ ∃ p q, g' = p ++ g ++ q.
Proof.
  intros Hw. unfold _merge_alerts_into_cases.
  destruct alerts as [|first rest]; [by intros ?%elem_of_nil|].
  apply merge_loop_refines; [done..|]. by intros ? ?%elem_of_nil.
Qed.

(** X23. Widening the correlation window never splits a case: every case
    found with the narrower window lies, as a run of consecutive alerts,
    within a case of the same user found with the wider one. *)
Theorem wider_window_never_splits uuid1 uuid2 alerts idx h1 h2 cases1
    cases2 :
  timedelta_hours h1 ≤ timedelta_hours h2 →
  correlate_cases uuid1 alerts idx h1 = Some cases1 →
  correlate_cases uuid2 alerts idx h2 = Some cases2 →
  ∀ c1, c1 ∈ cases1 →
    ∃ c2 p q, c2 ∈ cases2 ∧ Case.user c2 = Case.user c1
              ∧ Case.alerts c2 = p ++ Case.alerts c1 ++ q.
Proof.
  intros Hw Hrun1 Hrun2 c1 Hc1.
  destruct (correlate_cases_groups _ _ _ _ _ Hrun1) as [Hg1 _].
  destruct (correlate_cases_groups _ _ _ _ _ Hrun2) as [_ Hg2].
  destruct (merge_pass_refines _ _ h1 h2 _ Hw (Hg1 c1 Hc1))
    as (g' & Hin & p & q & ->).
  destruct (Hg2 _ _ Hin) as (c2 & Hc2 & Hu & Ha).
  by exists c2, p, q.
Qed.

(** X24. The recommended actions always open with contacting the user and
    close with the three general actions; in between come the actions of
    each detector that has an alert in the case, and only those: the travel
    checks, then the credential actions, then the device checks. No action
    is listed twice. *)
Theorem recommendations_structure alerts :
  ∃ travel chain device,
    _generate_recommendations alerts
    = ["Contact user to verify recent login activity"]
        ++ travel ++ chain ++ device
        ++ ["Review conditional access policies";
            "Check for data exfiltration or account changes";
            "Document incident for compliance records"]
    ∧ travel
      = (if bool_decide ("impossible_travel" ∈ Alert.detector <$> alerts)
         then ["Verify user's actual location and travel history";
               "Check for VPN or proxy usage"]
         else [])
    ∧ chain
      = (if bool_decide ("fail_success_chain" ∈ Alert.detector <$> alerts)
         then ["Reset user credentials immediately";
               "Enable or verify MFA enrollment";
               "Review and block suspicious source IPs"]
         else [])
    ∧ device
      = (if bool_decide ("new_device_ua" ∈ Alert.detector <$> alerts)
         then ["Confirm new device is authorized by user";
               "Review device enrollment policies"]
         else [])
    ∧ NoDup (_generate_recommendations alerts)
    ∧ (4 ≤ length (_generate_recommendations alerts) ≤ 11)%nat.
Proof.
  unfold _generate_recommendations.
  assert (∀ d, mem d (set_order (Alert.detector <$> alerts))
               = bool_decide (d ∈ Alert.detector <$> alerts)) as Hmem.
  { intros d. apply eq_true_iff_eq.
    by rewrite mem_true, set_order_elem, bool_decide_eq_true. }
  rewrite !Hmem. eexists _, _, _. split; [reflexivity|].
  split; [reflexivity|]. split; [reflexivity|]. split; [reflexivity|].
  destruct (bool_decide ("impossible_travel" ∈ Alert.detector <$> alerts)),
    (bool_decide ("fail_success_chain" ∈ Alert.detector <$> alerts)),
    (bool_decide ("new_device_ua" ∈ Alert.detector <$> alerts));
    (split; [apply (bool_decide_unpack _); by vm_compute|simpl; lia]).
Qed.

(** The scan for the +10 patterns cannot get past a chain alert whose
    failure count does not compare with 10, unless a pattern stops it
    earlier. *)
Lemma pattern_bonus_stuck g a bonus :
  a ∈ g →
  Alert.detector a = "fail_success_chain" →
  py_ge_int (Evidence.get (Alert.evidence a) "failure_count" (VInt 0)) 10
  = None →
  Forall (λ b, chain_of_ten b = false ∧ new_device_new_country b = false)
         g →
  scoring.pattern_bonus g bonus = None.
Proof.
  intros Ha Hd Hn Hfree.
  apply list_elem_of_split in Ha as (pre & post & ->).
  apply pattern_bonus_None. exists pre, a, post. split_and!; try done.
  by apply Forall_app in Hfree as [? _].
Qed.

Lemma build_cases_None uuid n user groups idx g :
  g ∈ groups → scoring.calculate_case_score g = None →
  build_cases uuid n user groups idx = None.
Proof.
  intros Hg Hs. revert n.
  induction groups as [|g' groups IH]; intros n; [by apply elem_of_nil in Hg|].
  simpl. apply elem_of_cons in Hg as [<-|Hg].
  - unfold _build_case. destruct g as [|a0 rest]; [done|]. by rewrite Hs.
  - destruct (_build_case _ _ _ _); simpl; [|done]. by rewrite (IH Hg).
Qed.

(** X25. One malformed alert aborts the whole correlation: when some chain
    alert carries a failure count that is [None], a string or a list, and
    no alert of the same user shows one of the two +10 patterns (which
    would end the scan of its case before the comparison), the call
    raises and returns no case at all, whatever the alerts of the other
    users. *)
Theorem correlate_cases_failure uuid alerts idx window_hours a :
  a ∈ alerts →
  Alert.detector a = "fail_success_chain" →
  is_number (Evidence.get (Alert.evidence a) "failure_count" (VInt 0))
  = false →
  (∀ b, b ∈ alerts → Alert.user b = Alert.user a →
        chain_of_ten b = false ∧ new_device_new_country b = false) →
  correlate_cases uuid alerts idx window_hours = None.
Proof.
  intros Ha Hd Hnum Hfree.
  apply (proj2 (py_ge_int_None _ 10)) in Hnum.
  unfold correlate_cases. destruct alerts as [|a0 alerts'] eqn:Halerts;
    [by apply elem_of_nil in Ha|].
  rewrite <- Halerts in *. clear Halerts a0 alerts'.
  assert ((Alert.user a, alerts_of (Alert.user a) alerts)
          ∈ group_by Alert.user alerts) as Hgroup.
  { apply elem_of_group_by. split; [done|]. intros Hnil.
    assert (a ∈ alerts_of (Alert.user a) alerts) as Hin
      by (by apply list_elem_of_filter).
    rewrite Hnil in Hin. by apply elem_of_nil in Hin. }
  assert (user_loop uuid 0 (group_by Alert.user alerts) idx window_hours
          = None) as ->; [|done].
  generalize 0%nat at 1.
  induction (group_by Alert.user alerts) as [|[user l] rest IH]; intros n;
    [by apply elem_of_nil in Hgroup|].
  simpl. apply elem_of_cons in Hgroup as [[= <- <-]|Hgroup].
  - set (sorted := sort_by (key_le Alert.ts_start)
                     (alerts_of (Alert.user a) alerts)).
    destruct (merge_pass_concat (Alert.user a) window_hours sorted)
      as [Hcat _].
    assert (a ∈ concat (_merge_alerts_into_cases (Alert.user a) sorted
                          window_hours)) as Hin.
    { rewrite Hcat. apply sort_by_elem_of. by apply list_elem_of_filter. }
    apply elem_of_concat in Hin as (g & Hg & Hag).
    rewrite (build_cases_None _ _ _ _ _ g Hg); [done|].
    destruct g as [|b0 g']; [by apply elem_of_nil in Hag|].
    unfold scoring.calculate_case_score.
    rewrite (pattern_bonus_stuck (b0 :: g') a); try done.
    apply Forall_forall. intros b Hb.
    assert (b ∈ alerts_of (Alert.user a) alerts) as Hbu.
    { apply (sort_by_elem_of (key_le Alert.ts_start)). fold sorted.
      rewrite <- Hcat. apply elem_of_concat. by exists (b0 :: g'). }
    unfold alerts_of in Hbu. apply list_elem_of_filter in Hbu as [Hu Hbin].
    by apply Hfree.
  - destruct (build_cases _ _ _ _ _); simpl; [|done].
    by rewrite (IH Hgroup).
Qed.

(** X30. Sharing an indicator is symmetric, and countries are no
    indicator: two alerts share one exactly when an IP or a device id occurs
    in the evidence of both, whichever alert is asked first; an alert shares
    an indicator with itself unless it carries neither an IP nor a device
    id. *)
Theorem share_indicators_symmetric a b :
  _share_indicators a b = _share_indicators b a
  ∧ (_share_indicators a b = true
     ↔ (∃ ip, ip ∈ alert_ips a ∧ ip ∈ alert_ips b)
       ∨ (∃ d, d ∈ alert_device_ids a ∧ d ∈ alert_device_ids b))
  ∧ (_share_indicators a a = true
     ↔ alert_ips a ≠ [] ∨ alert_device_ids a ≠ []).
Proof.
  split_and!.
  - apply eq_true_iff_eq. rewrite !share_indicators_true.
    unfold shares_indicator. naive_solver.
  - apply share_indicators_true.
  - rewrite share_indicators_true. unfold shares_indicator. split.
    + intros [(ip & Hip & _)|(d & Hd & _)]; [left|right]; intros Hnil.
      * rewrite Hnil in Hip. by apply elem_of_nil in Hip.
      * rewrite Hnil in Hd. by apply elem_of_nil in Hd.
    + intros [Hne|Hne]; [left|right].
      * destruct (alert_ips a) as [|ip ?]; [done|]. exists ip.
        split; left.
      * destruct (alert_device_ids a) as [|d ?]; [done|]. exists d.
        split; left.
Qed.

End correlate_extras.

(** ** ingest.py *)

Section ingest_extras.
Import ingest.

Lemma index_events_snoc events e :
  index_events (events ++ [e])
  = <[AuthEvent.event_id e := e]> (index_events events).
Proof. unfold index_events. by rewrite fold_left_app. Qed.

Lemma index_events_lookup events id :
  index_events events !! id
  = last (filter (λ e, AuthEvent.event_id e = id) events).
Proof.
  induction events as [|e events IH] using rev_ind; [done|].
  rewrite index_events_snoc, filter_app.
  destruct (decide (AuthEvent.event_id e = id)) as [<-|Hne].
  - rewrite lookup_insert_eq, filter_cons_True by done.
    by rewrite filter_nil, last_snoc.
  - rewrite lookup_insert_ne, filter_cons_False by done.
    by rewrite filter_nil, app_nil_r.
Qed.

Lemma index_events_Some events id e :
  index_events events !! id = Some e → e ∈ events ∧ AuthEvent.event_id e = id.
Proof.
  rewrite index_events_lookup. intros Hl.
  assert (e ∈ filter (λ e, AuthEvent.event_id e = id) events) as Hin.
  { destruct (filter _ events) as [|x l] using rev_ind; [done|].
    rewrite last_snoc in Hl. injection Hl as ->.
    apply elem_of_app. right. left. }
  by apply list_elem_of_filter in Hin as [? ?].
Qed.

Lemma index_events_unique events e :
  NoDup (AuthEvent.event_id <$> events) → e ∈ events →
  index_events events !! AuthEvent.event_id e = Some e.
Proof.
  intros Hnd He.
  destruct (index_events events !! AuthEvent.event_id e) as [e'|] eqn:Hl.
  - apply index_events_Some in Hl as [He' Hid]. f_equal.
    by eapply NoDup_fmap_elem_eq.
  - rewrite index_events_lookup in Hl. apply last_None in Hl.
    exfalso. eapply filter_nil_not_elem_of; [exact Hl| |exact He]. done.
Qed.

(** X26. The index that ingestion builds files every event under its own
    id; an id is found exactly when some event of the log carries it, and
    among several events with one id the last one of the log is the one
    found. When the ids are distinct every event is found under its id. *)
Theorem index_events_last_wins events :
  keyed_by_id (index_events events)
  ∧ (∀ id, index_events events !! id
           = last (filter (λ e, AuthEvent.event_id e = id) events))
  ∧ (∀ id, is_Some (index_events events !! id)
           ↔ id ∈ AuthEvent.event_id <$> events)
  ∧ (NoDup (AuthEvent.event_id <$> events) →
     ∀ e, e ∈ events → index_events events !! AuthEvent.event_id e = Some e).
Proof.
  split_and!.
  - intros id e Hl. by apply index_events_Some in Hl as [_ ?].
  - apply index_events_lookup.
  - intros id. split.
    + intros [e He]. apply index_events_Some in He as [He <-].
      by apply list_elem_of_fmap_2.
    + intros (e & -> & He)%list_elem_of_fmap.
      rewrite index_events_lookup.
      destruct (last (filter _ events)) eqn:Hl; [by eexists|].
      apply last_None in Hl. exfalso.
      eapply filter_nil_not_elem_of; [exact Hl| |exact He]. done.
  - intros Hnd e He. by apply index_events_unique.
Qed.

Lemma split_dot_app a rest :
  dot_free a = true →
  split_dot (a +:+ String "."%char rest) = a :: split_dot rest.
Proof.
  induction a as [|c a IH]; simpl; [done|].
  intros [Hc Ha]%andb_true_iff. apply negb_true_iff in Hc. rewrite Hc.
  by rewrite IH.
Qed.

Lemma split_dot_free a : dot_free a = true → split_dot a = [a].
Proof.
  induction a as [|c a IH]; simpl; [done|].
  intros [Hc Ha]%andb_true_iff. apply negb_true_iff in Hc. rewrite Hc.
  by rewrite IH.
Qed.

(** X27. The device fingerprint depends on the user agent and on the
    first three dot-separated parts of the source address only: two
    addresses of one /24 network give, with one user agent, the same
    fingerprint, the hash of the user agent, a colon and the three parts.
    An address with fewer than three parts is hashed whole. *)
Theorem fingerprint_of_network md5_hexdigest user_agent a b c d :
  dot_free a = true → dot_free b = true → dot_free c = true →
  _generate_fingerprint md5_hexdigest user_agent
    (a +:+ "." +:+ b +:+ "." +:+ c +:+ "." +:+ d)
  = "fp-" +:+ String.substring 0 12
                (md5_hexdigest
                   (user_agent +:+ ":" +:+ a +:+ "." +:+ b +:+ "." +:+ c))
  ∧ _generate_fingerprint md5_hexdigest user_agent (a +:+ "." +:+ b)
    = "fp-" +:+ String.substring 0 12
                  (md5_hexdigest (user_agent +:+ ":" +:+ a +:+ "." +:+ b))
  ∧ _generate_fingerprint md5_hexdigest user_agent a
    = "fp-" +:+ String.substring 0 12
                  (md5_hexdigest (user_agent +:+ ":" +:+ a)).
Proof.
  intros Ha Hb Hc. unfold _generate_fingerprint. split_and!.
  - change ("." +:+ b +:+ "." +:+ c +:+ "." +:+ d)
      with (String "."%char (b +:+ String "."%char (c +:+ String "."%char d))).
    rewrite !split_dot_app by done.
    rewrite decide_True by (simpl; lia). reflexivity.
  - change ("." +:+ b) with (String "."%char b).
    rewrite split_dot_app, split_dot_free by done.
    rewrite decide_False by (simpl; lia). reflexivity.
  - rewrite split_dot_free by done.
    rewrite decide_False by (simpl; lia). reflexivity.
Qed.

End ingest_extras.

Lemma fingerprint_of_network_witness :
  dot_free "192" = true ∧ dot_free "168" = true ∧ dot_free "1" = true
  ∧ ingest._generate_fingerprint id "Mozilla/5.0" "192.168.1.10"
    = ingest._generate_fingerprint id "Mozilla/5.0" "192.168.1.77".
Proof.
  do 3 (split; [reflexivity|]).
  etrans;
    [apply (fingerprint_of_network id "Mozilla/5.0" "192" "168" "1" "10");
     reflexivity|].
  symmetry.
  apply (fingerprint_of_network id "Mozilla/5.0" "192" "168" "1" "77");
    reflexivity.
Defined.

(** ** report.py and cli.py *)

Section report_extras.
Import report.

Lemma cases_of_severity_cons severity c cases :
  cases_of_severity severity (c :: cases)
  = (if decide (Case.overall_severity c = severity) then 1 else 0)
    + cases_of_severity severity cases.
Proof.
  unfold cases_of_severity. rewrite filter_cons.
  destruct (decide _); simpl; lia.
Qed.

Lemma count_case_spec m c nc nh nm nl :
  m !! "critical" = Some nc → m !! "high" = Some nh →
  m !! "medium" = Some nm → m !! "low" = Some nl →
  Case.overall_severity c ∈ ["low"; "medium"; "high"; "critical"] →
  ∃ m', count_case m c = Some m'
    ∧ m' !! "critical"
      = Some (nc + cases_of_severity "critical" [c])
    ∧ m' !! "high" = Some (nh + cases_of_severity "high" [c])
    ∧ m' !! "medium" = Some (nm + cases_of_severity "medium" [c])
    ∧ m' !! "low" = Some (nl + cases_of_severity "low" [c]).
Proof.
  intros Hc Hh Hm Hl Hsev. unfold count_case, cases_of_severity.
  rewrite !filter_cons, !filter_nil.
  rewrite !elem_of_cons, elem_of_nil in Hsev.
  destruct Hsev as [Hs|[Hs|[Hs|[Hs|[]]]]]; rewrite Hs.
  - rewrite Hl. simpl. eexists. split; [reflexivity|].
    rewrite lookup_insert_eq, !lookup_insert_ne by done.
    rewrite Hc, Hh, Hm. split_and!; f_equal; simpl; lia.
  - rewrite Hm. simpl. eexists. split; [reflexivity|].
    rewrite lookup_insert_eq, !lookup_insert_ne by done.
    rewrite Hc, Hh, Hl. split_and!; f_equal; simpl; lia.
  - rewrite Hh. simpl. eexists. split; [reflexivity|].
    rewrite lookup_insert_eq, !lookup_insert_ne by done.
    rewrite Hc, Hm, Hl. split_and!; f_equal; simpl; lia.
  - rewrite Hc. simpl. eexists. split; [reflexivity|].
    rewrite lookup_insert_eq, !lookup_insert_ne by done.
    rewrite Hh, Hm, Hl. split_and!; f_equal; simpl; lia.
Qed.

Lemma tally_spec m cases nc nh nm nl :
  m !! "critical" = Some nc → m !! "high" = Some nh →
  m !! "medium" = Some nm → m !! "low" = Some nl →
  Forall (λ c, Case.overall_severity c ∈ ["low"; "medium"; "high"; "critical"])
    cases →
  ∃ m', tally m cases = Some m'
    ∧ m' !! "critical" = Some (nc + cases_of_severity "critical" cases)
    ∧ m' !! "high" = Some (nh + cases_of_severity "high" cases)
    ∧ m' !! "medium" = Some (nm + cases_of_severity "medium" cases)
    ∧ m' !! "low" = Some (nl + cases_of_severity "low" cases).
Proof.
  intros Hc Hh Hm Hl Hall. revert m nc nh nm nl Hc Hh Hm Hl.
  induction Hall as [|c cases Hsev _ IH]; intros m nc nh nm nl Hc Hh Hm Hl.
  { exists m. unfold cases_of_severity. simpl.
    rewrite !Z.add_0_r. done. }
  destruct (count_case_spec m c nc nh nm nl Hc Hh Hm Hl Hsev)
    as (m1 & Hm1 & Hc1 & Hh1 & Hmd1 & Hl1).
  destruct (IH m1 _ _ _ _ Hc1 Hh1 Hmd1 Hl1)
    as (m' & Ht & Hc' & Hh' & Hm' & Hl').
  exists m'. simpl. rewrite Hm1. simpl. split; [done|].
  rewrite Hc', Hh', Hm', Hl'. rewrite !(cases_of_severity_cons _ c cases).
  unfold cases_of_severity. rewrite !filter_cons, !filter_nil.
  split_and!; f_equal; repeat destruct (decide _); simpl; lia.
Qed.

Lemma cases_of_severity_sum cases :
  Forall (λ c, Case.overall_severity c ∈ ["low"; "medium"; "high"; "critical"])
    cases →
  cases_of_severity "critical" cases + cases_of_severity "high" cases
  + cases_of_severity "medium" cases + cases_of_severity "low" cases
  = Z.of_nat (length cases).
Proof.
  induction 1 as [|c cases Hsev _ IH]; [done|].
  rewrite !cases_of_severity_cons.
  rewrite !elem_of_cons, elem_of_nil in Hsev.
  destruct Hsev as [Hs|[Hs|[Hs|[Hs|[]]]]]; rewrite Hs;
    repeat (destruct (decide _) as [?|?]; try done); simpl length; lia.
Qed.

End report_extras.

Section pipeline_extras.
Context `{PyRuntime}.

Lemma evidence_get_default e key v dflt :
  Evidence.get e key VNone = v → v ≠ VNone → Evidence.get e key dflt = v.
Proof.
  unfold Evidence.get. destruct (Evidence.extra e !! key); simpl; congruence.
Qed.

(** The alerts of the detectors can always be scored. *)
Lemma detector_alerts_numeric events thr max_hours w m1 m2 days alerts a :
  detectors.run_all_detectors events thr max_hours w m1 m2 days
    = Some alerts →
  a ∈ alerts → Alert.detector a = "fail_success_chain" →
  py_ge_int (Evidence.get (Alert.evidence a) "failure_count" (VInt 0)) 10
  ≠ None.
Proof.
  destruct (run_all_detectors_eq events thr max_hours w m1 m2 days)
    as (chains & Hc & ->).
  intros [= <-]. rewrite !elem_of_app. intros [Ha|[Ha|Ha]] Hd.
  - apply travel_alert_events_in_log in Ha as (Hd' & _). congruence.
  - destruct (chain_alert_anatomy _ _ _ _ _ _ Hc Ha)
      as (user & prevs & s & later & ty & thr' & _ & _ & HF & _ & Hca).
    destruct (create_alert_spec user _ s ty thr' HF)
      as (a' & ff & Hca' & _ & _ & _ & _ & _ & _ & _ & _ & Hcount & _).
    assert (a' = a) as -> by congruence.
    rewrite (evidence_get_default _ _ _ _ Hcount) by done. done.
  - apply device_alert_events in Ha as (Hd' & _). congruence.
Qed.

Lemma analyze_Some_inv uuid events idx thr max_hours w m cw alerts cases :
  cli.analyze uuid events idx thr max_hours w m cw = Some (alerts, cases) →
  detectors.run_all_detectors events thr max_hours w m 15 30 = Some alerts
  ∧ correlate.correlate_cases uuid alerts idx cw = Some cases.
Proof.
  unfold cli.analyze.
  destruct (detectors.run_all_detectors _ _ _ _ _ _ _) as [alerts'|];
    simpl; [|done].
  destruct (correlate.correlate_cases _ _ _ _) as [cases'|] eqn:Hcor;
    simpl; [|done].
  by intros [= <- <-].
Qed.

(** X28. Whenever the detection and correlation steps of the analysis
    return, what they return can be scored and reported. The alerts of the
    detectors always carry a numeric failure count, so scoring any group
    of them does not raise. The severity table of the report can be filled
    without a [KeyError]: every case falls under one of the four
    severities, each count is the number of cases of that severity, and
    the counts add up to the number of cases. *)
Theorem analysis_severity_table uuid events event_index speed_threshold
    max_travel_hours failure_window min_failures case_window alerts cases :
  cli.analyze uuid events event_index speed_threshold max_travel_hours
    failure_window min_failures case_window = Some (alerts, cases) →
  (∀ group, group ⊆ alerts →
            is_Some (scoring.calculate_case_score group))
  ∧ ∃ severity_counts,
      report.severity_counts cases = Some severity_counts
      ∧ report.summary_rows severity_counts
        = Some [("critical", cases_of_severity "critical" cases);
                ("high", cases_of_severity "high" cases);
                ("medium", cases_of_severity "medium" cases);
                ("low", cases_of_severity "low" cases)]
      ∧ cases_of_severity "critical" cases + cases_of_severity "high" cases
        + cases_of_severity "medium" cases + cases_of_severity "low" cases
        = Z.of_nat (length cases).
Proof.
  intros Han. apply analyze_Some_inv in Han as [Hrun Hcor]. split.
  { intros group Hsub.
    destruct (scoring.calculate_case_score group) as [s|] eqn:Hs;
      [by eexists|].
    exfalso. apply case_score_None_inv in Hs as (a & Ha & Hd & Hn).
    by apply (detector_alerts_numeric _ _ _ _ _ _ _ _ a Hrun (Hsub a Ha)). }
  assert (Forall (λ c, Case.overall_severity c
                       ∈ ["low"; "medium"; "high"; "critical"]) cases)
    as Hsev.
  { apply Forall_forall. intros c Hc.
    destruct (case_fields _ _ _ _ _ _ Hcor Hc) as (Hne & Hscore & _).
    destruct (case_score_interval _ _ _ Hne Hscore) as (_ & _ & ->).
    apply severity_from_score_known. }
  destruct (tally_spec
              (list_to_map [("critical", 0); ("high", 0); ("medium", 0);
                            ("low", 0)]) cases 0 0 0 0)
    as (m' & Ht & Hc' & Hh' & Hm' & Hl'); try done.
  exists m'. split; [exact Ht|].
  split; [|by apply cases_of_severity_sum].
  unfold report.summary_rows. simpl. rewrite Hc', Hh', Hm', Hl'. done.
Qed.

(** X29. In the analysis of a log without repeated event ids, with the
    index that ingestion builds from it, the timeline of a case holds
    exactly the events its alerts refer to, none missing and none twice;
    they are events of the log, they belong to the user of the case, and
    they lie within the time span of the case. No timeline is empty. *)
Theorem pipeline_timeline uuid events speed_threshold max_travel_hours
    failure_window min_failures case_window alerts cases c :
  NoDup (AuthEvent.event_id <$> events) →
  cli.analyze uuid events (ingest.index_events events) speed_threshold
    max_travel_hours failure_window min_failures case_window
    = Some (alerts, cases) →
  c ∈ cases →
  (∀ e, e ∈ Case.timeline c →
        e ∈ events ∧ AuthEvent.user e = Case.user c
        ∧ Case.ts_start c ≤ AuthEvent.ts e ≤ Case.ts_end c
        ∧ referenced (Case.alerts c) (AuthEvent.event_id e))
  ∧ (∀ id, referenced (Case.alerts c) id
           → id ∈ AuthEvent.event_id <$> Case.timeline c)
  ∧ NoDup (AuthEvent.event_id <$> Case.timeline c)
  ∧ Case.timeline c ≠ [].
Proof.
  intros Hnd Han Hc.
  pose proof (analyze_Some_inv _ _ _ _ _ _ _ _ _ _ Han) as [Hrun Hcor].
  assert (∀ a, a ∈ alerts →
            Alert.related_event_ids a ≠ []
            ∧ ∀ id, id ∈ Alert.related_event_ids a →
                ∃ e, e ∈ events ∧ AuthEvent.event_id e = id
                  ∧ AuthEvent.user e = Alert.user a
                  ∧ Alert.ts_start a ≤ AuthEvent.ts e ≤ Alert.ts_end a)
    as Hlog.
  { destruct (run_all_detectors_eq events speed_threshold max_travel_hours
                failure_window min_failures 15 30) as (chains & Hch & Heq).
    rewrite Heq in Hrun. injection Hrun as <-.
    intros a Ha. by eapply detector_alert_events. }
  destruct (case_fields _ _ _ _ _ _ Hcor Hc) as (Hne & _ & Htl & _).
  destruct (correlate_cases_built _ _ _ _ _ _ Hcor Hc) as [k Hb].
  destruct (build_case_span _ _ _ _ _ Hb) as [[_ Hs2] [_ He2]].
  assert (∀ a, a ∈ Case.alerts c → a ∈ alerts ∧ Alert.user a = Case.user c)
    as Horigin.
  { destruct (case_alerts_run _ _ _ _ _ _ Hcor Hc) as (l1 & l2 & Hsort).
    intros a Ha.
    assert (a ∈ alerts_of (Case.user c) alerts) as Hin.
    { apply (sort_by_elem_of (key_le Alert.ts_start)). rewrite Hsort.
      rewrite !elem_of_app. right. by left. }
    unfold alerts_of in Hin. by apply list_elem_of_filter in Hin as [? ?]. }
  assert (∀ a id, a ∈ Case.alerts c → id ∈ Alert.related_event_ids a →
            ∃ e, ingest.index_events events !! id = Some e
              ∧ e ∈ events ∧ AuthEvent.event_id e = id
              ∧ AuthEvent.user e = Case.user c
              ∧ Case.ts_start c ≤ AuthEvent.ts e ≤ Case.ts_end c)
    as Hfound.
  { intros a id Ha Hid. destruct (Horigin a Ha) as [Hin Hu].
    destruct (Hlog a Hin) as [_ Hev].
    destruct (Hev id Hid) as (e & He & Heid & Heu & Hts).
    pose proof (Hs2 a Ha). pose proof (He2 a Ha).
    exists e. split_and!; try done; try congruence; try lia.
    rewrite <- Heid. by apply index_events_unique. }
  rewrite Htl. split_and!.
  - intros e He. apply elem_of_build_timeline in He as (id & Href & Hl).
    destruct Href as (a & Ha & Hid).
    destruct (Hfound a id Ha Hid) as (e' & Hl' & ? & Heid & ? & ?).
    assert (e' = e) as -> by congruence.
    split_and!; try done; try lia. exists a. by rewrite Heid.
  - intros id (a & Ha & Hid).
    destruct (Hfound a id Ha Hid) as (e & Hl & _ & Heid & _).
    rewrite <- Heid. apply list_elem_of_fmap_2.
    apply elem_of_build_timeline. exists id. split; [by exists a|done].
  - apply build_timeline_NoDup. intros id e Hl.
    by apply index_events_Some in Hl as [_ ?].
  - intros Hnil.
    destruct (Case.alerts c) as [|a rest] eqn:Hal; [done|].
    destruct (Horigin a) as [Hin _]; [left|].
    destruct (Hlog a Hin) as [Hrel _].
    destruct (Alert.related_event_ids a) as [|id ids] eqn:Hids; [done|].
    destruct (Hfound a id) as (e & Hl & _); [left|rewrite Hids; left|].
    assert (e ∈ correlate._build_timeline (a :: rest)
                  (ingest.index_events events))
      as He.
    { apply elem_of_build_timeline. exists id. split; [|done].
      exists a. split; [left|rewrite Hids; left]. }
    rewrite Hnil in He. by apply elem_of_nil in He.
Qed.

End pipeline_extras.

(** ** The further properties on the sample logs *)

(** The brute-force log: the only alert counts ten failures and scores the
    base score of its severity plus 10. *)
Lemma chain_alert_score_witness :
  ∃ a n,
    fail_success_chain.detect_fail_success_chain (H := reference.runtime)
      fixtures.brute_force_events 20 8 15 = Some [a]
    ∧ Evidence.get (Alert.evidence a) "failure_count" VNone = VInt n
    ∧ 1 ≤ n
    ∧ Alert.score a
      = scoring.get_base_score (Alert.severity a)
        + (if 10 <=? n then 10 else 0).
Proof.
  destruct (fail_success_chain.detect_fail_success_chain
              (H := reference.runtime) fixtures.brute_force_events 20 8 15)
    as [[|a [|??]]|] eqn:Hd; try (vm_compute in Hd; discriminate).
  destruct (chain_alert_score (H := reference.runtime) _ _ _ _ _ a Hd)
    as (n & Hn & Hpos & _ & Hs & _); [left|].
  by exists a, n.
Defined.

Lemma chain_alert_indicators_witness :
  ∃ a,
    fail_success_chain.detect_fail_success_chain (H := reference.runtime)
      fixtures.brute_force_events 20 8 15 = Some [a]
    ∧ NoDup (alert_ips a) ∧ NoDup (alert_device_ids a).
Proof.
  destruct (fail_success_chain.detect_fail_success_chain
              (H := reference.runtime) fixtures.brute_force_events 20 8 15)
    as [[|a [|??]]|] eqn:Hd; try (vm_compute in Hd; discriminate).
  destruct (chain_alert_indicators (H := reference.runtime) _ _ _ _ _ a Hd)
    as (u & p & s & l & _ & _ & _ & Hips & _ & Hdevs & _); [left|].
  by exists a.
Defined.


Lemma chain_alerts_bounded_witness :
  ∃ alerts,
    fail_success_chain.detect_fail_success_chain (H := reference.runtime)
      samples_two_users 20 8 15 = Some alerts
    ∧ (length alerts
       ≤ length (filter (λ e, AuthEvent.result e = "success")
                   samples_two_users))%nat.
Proof.
  destruct (fail_success_chain.detect_fail_success_chain
              (H := reference.runtime) samples_two_users 20 8 15)
    as [alerts|] eqn:Hd; [|vm_compute in Hd; discriminate].
  exists alerts. split; [done|]. by eapply chain_alerts_bounded.
Defined.

(** New York, then Tokyo ninety minutes later. *)
Lemma travel_alert_severity_witness :
  ∃ a,
    impossible_travel.detect_impossible_travel (H := reference.runtime)
      fixtures.impossible_travel_events 900 6 = [a]
    ∧ Alert.score a = scoring.get_base_score (Alert.severity a)
    ∧ Alert.score a ∈ [50; 75; 95].
Proof.
  destruct (impossible_travel.detect_impossible_travel
              (H := reference.runtime) fixtures.impossible_travel_events
              900 6) as [|a [|??]] eqn:Hd;
    try (vm_compute in Hd; discriminate).
  destruct (travel_alert_severity (H := reference.runtime)
              fixtures.impossible_travel_events 900 6 a)
    as (u & l1 & e1 & loc1 & e2 & loc2 & l2 & _ & _ & _ & Hs & Hv & _).
  { rewrite Hd. left. }
  by exists a.
Defined.

Lemma travel_alert_events_witness :
  ∃ a e1 e2,
    impossible_travel.detect_impossible_travel (H := reference.runtime)
      fixtures.impossible_travel_events 900 6 = [a]
    ∧ e1 ∈ fixtures.impossible_travel_events
    ∧ e2 ∈ fixtures.impossible_travel_events
    ∧ Alert.ts_start a = AuthEvent.ts e1
    ∧ Alert.ts_end a = AuthEvent.ts e2
    ∧ Alert.related_event_ids a
      = [AuthEvent.event_id e1; AuthEvent.event_id e2].
Proof.
  destruct (impossible_travel.detect_impossible_travel
              (H := reference.runtime) fixtures.impossible_travel_events
              900 6) as [|a [|??]] eqn:Hd;
    try (vm_compute in Hd; discriminate).
  destruct (travel_alert_events (H := reference.runtime)
              fixtures.impossible_travel_events 900 6 a)
    as (e1 & e2 & H1 & H2 & _ & _ & _ & _ & _ & _ & _ & _ & _ & Hs & He & _
        & Hrel & _).
  { rewrite Hd. left. }
  by exists a, e1, e2.
Defined.

(** A second login from the known device with the known user agent, in
    another country. *)
Lemma known_device_not_flagged_witness :
  NoDup (AuthEvent.event_id <$> fixtures.new_country_events)
  ∧ ∀ a, a ∈ new_device_ua.detect_new_device (H := reference.runtime)
               fixtures.new_country_events 30 →
         "nd-003" ∉ Alert.related_event_ids a.
Proof.
  assert (NoDup (AuthEvent.event_id <$> fixtures.new_country_events))
    as Hnd by (apply (bool_decide_unpack _); vm_compute; exact I).
  split; [exact Hnd|].
  apply (known_device_not_flagged (H := reference.runtime)
           fixtures.new_country_events 30 "newdev@corp.com"
           [fixtures.nd_001] fixtures.nd_003 [] fixtures.nd_001
           "dev-known-001"); try reflexivity; try done.
  left.
Defined.

Lemma device_alert_score_witness :
  ∃ a,
    new_device_ua.detect_new_device (H := reference.runtime)
      fixtures.new_device_events 30 = [a]
    ∧ (Alert.severity a = "high" ∨ Alert.severity a = "medium")
    ∧ Alert.score a
      = scoring.get_base_score (Alert.severity a)
        + (if new_device_new_country a then 10 else 0).
Proof.
  destruct (new_device_ua.detect_new_device (H := reference.runtime)
              fixtures.new_device_events 30) as [|a [|??]] eqn:Hd;
    try (vm_compute in Hd; discriminate).
  destruct (device_alert_score (H := reference.runtime)
              fixtures.new_device_events 30 a) as (Hs & Hv & _).
  { rewrite Hd. left. }
  by exists a.
Defined.


Lemma alerts_refer_to_log_events_witness :
  ∃ a,
    detectors.run_all_detectors (H := reference.runtime)
      fixtures.new_device_events 900 6 20 8 15 30 = Some [a]
    ∧ Alert.related_event_ids a ≠ []
    ∧ ∀ id, id ∈ Alert.related_event_ids a →
        ∃ e, e ∈ fixtures.new_device_events ∧ AuthEvent.event_id e = id
          ∧ AuthEvent.user e = Alert.user a
          ∧ Alert.ts_start a ≤ AuthEvent.ts e ≤ Alert.ts_end a.
Proof.
  destruct (detectors.run_all_detectors (H := reference.runtime)
              fixtures.new_device_events 900 6 20 8 15 30)
    as [[|a [|??]]|] eqn:Hd; try (vm_compute in Hd; discriminate).
  exists a. split; [done|].
  eapply (alerts_refer_to_log_events (H := reference.runtime));
    [exact Hd|left].
Defined.


(** The three sample alerts, correlated with a window of eight hours. *)
Lemma cases_partition_alerts_witness :
  ∃ cases,
    correlate.correlate_cases (H := reference.runtime) samples.uuid_a
      [samples.a1; samples.a2; samples.a3] samples.event_index 8
    = Some cases
    ∧ concat (Case.alerts <$> cases)
      ≡ₚ [samples.a1; samples.a2; samples.a3]
    ∧ (length cases ≤ 3)%nat.
Proof.
  destruct (correlate.correlate_cases (H := reference.runtime)
              samples.uuid_a [samples.a1; samples.a2; samples.a3]
              samples.event_index 8) as [cases|] eqn:Hc;
    [|vm_compute in Hc; discriminate].
  destruct (cases_partition_alerts (H := reference.runtime) _ _ _ _ _ Hc)
    as (Hp & _ & Hl).
  by exists cases.
Defined.

Lemma case_single_user_witness :
  ∃ c,
    correlate.correlate_cases (H := reference.runtime) samples.uuid_a
      [samples.a1; samples.a2; samples.a3] samples.event_index 8
    = Some [c]
    ∧ ∀ a, a ∈ Case.alerts c →
           a ∈ [samples.a1; samples.a2; samples.a3]
           ∧ Alert.user a = Case.user c.
Proof.
  destruct (correlate.correlate_cases (H := reference.runtime)
              samples.uuid_a [samples.a1; samples.a2; samples.a3]
              samples.event_index 8) as [[|c [|??]]|] eqn:Hc;
    try (vm_compute in Hc; discriminate).
  destruct (case_single_user (H := reference.runtime) _ _ _ _ _ c Hc)
    as [Hu _]; [left|].
  by exists c.
Defined.

(** With no window the sample alerts fall into two cases, which come back
    in order. *)
Lemma cases_sorted_by_severity_witness :
  ∃ c1 c2,
    correlate.correlate_cases (H := reference.runtime) samples.uuid_a
      [samples.a1; samples.a2; samples.a3] samples.event_index 0
    = Some [c1; c2]
    ∧ StronglySorted case_before [c1; c2].
Proof.
  destruct (correlate.correlate_cases (H := reference.runtime)
              samples.uuid_a [samples.a1; samples.a2; samples.a3]
              samples.event_index 0) as [[|c1 [|c2 [|??]]]|] eqn:Hc;
    try (vm_compute in Hc; discriminate).
  exists c1, c2. split; [done|].
  by eapply (cases_sorted_by_severity (H := reference.runtime)).
Defined.

Lemma case_covers_its_alerts_witness :
  ∃ c,
    correlate.correlate_cases (H := reference.runtime) samples.uuid_a
      [samples.a1; samples.a2; samples.a3] samples.event_index 8
    = Some [c]
    ∧ (∀ a, a ∈ Case.alerts c →
            Case.ts_start c ≤ Alert.ts_start a
            ∧ Alert.ts_end a ≤ Case.ts_end c
            ∧ severity_rank (Case.overall_severity c)
              ≤ severity_rank (Alert.severity a))
    ∧ 25 ≤ Case.overall_score c ≤ 100.
Proof.
  destruct (correlate.correlate_cases (H := reference.runtime)
              samples.uuid_a [samples.a1; samples.a2; samples.a3]
              samples.event_index 8) as [[|c [|??]]|] eqn:Hc;
    try (vm_compute in Hc; discriminate).
  destruct (case_covers_its_alerts (H := reference.runtime) _ _ _ _ _ c Hc)
    as (Hspan & _ & _ & _ & Hr & _); [left|].
  by exists c.
Defined.

(** The two cases found with no window lie within the case found with a
    window of eight hours. *)
Lemma wider_window_never_splits_witness :
  timedelta_hours (PyRuntime := reference.runtime) 0
  ≤ timedelta_hours (PyRuntime := reference.runtime) 8
  ∧ ∃ cases1 cases2,
      correlate.correlate_cases (H := reference.runtime) samples.uuid_a
        [samples.a1; samples.a2; samples.a3] samples.event_index 0
      = Some cases1
      ∧ correlate.correlate_cases (H := reference.runtime) samples.uuid_b
          [samples.a1; samples.a2; samples.a3] samples.event_index 8
        = Some cases2
      ∧ length cases1 = 2%nat ∧ length cases2 = 1%nat
      ∧ ∀ c1, c1 ∈ cases1 →
          ∃ c2 p q, c2 ∈ cases2 ∧ Case.user c2 = Case.user c1
                    ∧ Case.alerts c2 = p ++ Case.alerts c1 ++ q.
Proof.
  assert (timedelta_hours (PyRuntime := reference.runtime) 0
          ≤ timedelta_hours (PyRuntime := reference.runtime) 8) as Hw
    by (vm_compute; discriminate).
  split; [exact Hw|].
  destruct (correlate.correlate_cases (H := reference.runtime)
              samples.uuid_a [samples.a1; samples.a2; samples.a3]
              samples.event_index 0) as [[|c1 [|c2 [|??]]]|] eqn:Hc1;
    try (vm_compute in Hc1; discriminate).
  destruct (correlate.correlate_cases (H := reference.runtime)
              samples.uuid_b [samples.a1; samples.a2; samples.a3]
              samples.event_index 8) as [[|c [|??]]|] eqn:Hc2;
    try (vm_compute in Hc2; discriminate).
  exists [c1; c2], [c]. split_and!; try done.
  by eapply (wider_window_never_splits (H := reference.runtime)).
Defined.

(** A chain alert whose failure count is a word makes the correlation
    fail, although the alert of the other user is well formed. *)
Lemma correlate_cases_failure_witness :
  correlate.correlate_cases (H := reference.runtime) samples.uuid_a
    [samples_other_user_alert; samples.a1; samples_bad_chain_alert]
    samples.event_index 8
  = None.
Proof.
  apply (correlate_cases_failure (H := reference.runtime) samples.uuid_a
           [samples_other_user_alert; samples.a1; samples_bad_chain_alert]
           samples.event_index 8 samples_bad_chain_alert).
  - right. right. left.
  - reflexivity.
  - reflexivity.
  - intros b Hb Hu.
    apply elem_of_cons in Hb as [->|Hb]; [vm_compute in Hu; discriminate|].
    apply elem_of_cons in Hb as [->|Hb]; [split; reflexivity|].
    apply elem_of_cons in Hb as [->|Hb]; [split; reflexivity|].
    by apply elem_of_nil in Hb.
Defined.

(** The new-device log, analysed with the index built from it. *)
Lemma pipeline_timeline_witness :
  NoDup (AuthEvent.event_id <$> fixtures.new_device_events)
  ∧ ∃ alerts c,
      cli.analyze (H := reference.runtime) samples.uuid_a
        fixtures.new_device_events
        (ingest.index_events fixtures.new_device_events) 900 6 20 8 8
      = Some (alerts, [c])
      ∧ (∀ e, e ∈ Case.timeline c →
              e ∈ fixtures.new_device_events
              ∧ AuthEvent.user e = Case.user c
              ∧ Case.ts_start c ≤ AuthEvent.ts e ≤ Case.ts_end c
              ∧ referenced (Case.alerts c) (AuthEvent.event_id e))
      ∧ Case.timeline c ≠ [].
Proof.
  assert (NoDup (AuthEvent.event_id <$> fixtures.new_device_events))
    as Hnd by (apply (bool_decide_unpack _); vm_compute; exact I).
  split; [exact Hnd|].
  destruct (cli.analyze (H := reference.runtime) samples.uuid_a
              fixtures.new_device_events
              (ingest.index_events fixtures.new_device_events) 900 6 20 8 8)
    as [[alerts [|c [|??]]]|] eqn:Han;
    try (vm_compute in Han; discriminate).
  destruct (pipeline_timeline (H := reference.runtime) _ _ _ _ _ _ _ _ _ c
              Hnd Han) as (Htl & _ & _ & Hne); [left|].
  by exists alerts, c.
Defined.

(** The chain alert with a worded failure count cannot be scored; the one
    with the count 10.5 can, and earns the bonus of the long chain. *)
Lemma case_score_type_error_witness :
  scoring.calculate_case_score (H := reference.runtime)
    [samples.a1; samples_bad_chain_alert] = None
  ∧ scoring.calculate_case_score (H := reference.runtime)
      [samples.a1; samples_float_chain_alert] ≠ None.
Proof.
  split.
  - apply (case_score_type_error (H := reference.runtime)).
    exists [samples.a1], samples_bad_chain_alert, [].
    split; [reflexivity|]. split; [reflexivity|]. split; [reflexivity|].
    repeat constructor.
  - vm_compute. discriminate.
Defined.

(** The new-device log: the analysis returns, and the severity table of
    its cases can be filled. *)
Lemma analysis_severity_table_witness :
  ∃ alerts cases severity_counts,
    cli.analyze (H := reference.runtime) samples.uuid_a
      fixtures.new_device_events
      (ingest.index_events fixtures.new_device_events) 900 6 20 8 8
    = Some (alerts, cases)
    ∧ report.severity_counts cases = Some severity_counts
    ∧ report.summary_rows severity_counts
      = Some [("critical", cases_of_severity "critical" cases);
              ("high", cases_of_severity "high" cases);
              ("medium", cases_of_severity "medium" cases);
              ("low", cases_of_severity "low" cases)].
Proof.
  destruct (cli.analyze (H := reference.runtime) samples.uuid_a
              fixtures.new_device_events
              (ingest.index_events fixtures.new_device_events) 900 6 20 8 8)
    as [[alerts cases]|] eqn:Han; [|vm_compute in Han; discriminate].
  destruct (analysis_severity_table (H := reference.runtime) _ _ _ _ _ _ _ _
              alerts cases Han) as (_ & severity_counts & Hc & Hr & _).
  by exists alerts, cases, severity_counts.
Defined.

(** ** Two runs of the correlation *)

(** C9, the claim as stated fails: the timelines of two runs can differ.
    The two sample runtimes differ only in the order in which a set is
    iterated, as two interpreter processes with different string hash
    seeds do. On one alert that refers to two events recorded at the same
    instant, each run returns one case, and the two cases list the two
    events in opposite orders. *)
Lemma timeline_order_differs_between_runs :
  ∃ c1 c2,
    correlate.correlate_cases (H := reference.runtime) samples.uuid_a
      [samples.tie_alert] samples.tie_index 8 = Some [c1]
    ∧ correlate.correlate_cases (H := reference.reversed_runtime)
        samples.uuid_a [samples.tie_alert] samples.tie_index 8 = Some [c2]
    ∧ Case.timeline c1 = [samples.tie_a; samples.tie_b]
    ∧ Case.timeline c2 = [samples.tie_b; samples.tie_a]
    ∧ ¬ same_case_upto_id c1 c2.
Proof.
  eexists _, _. split; [vm_compute; reflexivity|].
  split; [vm_compute; reflexivity|].
  split; [reflexivity|]. split; [reflexivity|].
  intros (_ & _ & _ & _ & _ & _ & _ & _ & Htl). discriminate Htl.
Qed.

(** C9, amended. Two runs of [correlate_cases] on the same alerts, index
    and window, which may draw different identifiers and iterate sets in
    different orders, either both fail or return the same number of cases
    in the same order. Corresponding cases agree on their user, time span,
    alerts, score, severity, summary and recommended actions; their
    timelines hold the same events, both sorted by timestamp, so they can
    differ only in the arrangement of events of equal timestamp. The
    timelines are equal, and the cases differ in their case id at most,
    when the timestamps of the timeline are pairwise distinct or when the
    two runs iterate sets in the same order. *)
Theorem correlate_cases_deterministic (R1 R2 : PyRuntime) uuid1 uuid2 alerts
    event_index window_hours :
  (∀ h, @timedelta_hours R1 h = @timedelta_hours R2 h) →
  option_Forall2 (Forall2 same_case_upto_ties)
    (@correlate.correlate_cases R1 uuid1 alerts event_index window_hours)
    (@correlate.correlate_cases R2 uuid2 alerts event_index window_hours)
  ∧ (∀ cases1 cases2,
       @correlate.correlate_cases R1 uuid1 alerts event_index window_hours
         = Some cases1 →
       @correlate.correlate_cases R2 uuid2 alerts event_index window_hours
         = Some cases2 →
       length cases1 = length cases2
       ∧ ∀ i c1 c2, cases1 !! i = Some c1 → cases2 !! i = Some c2 →
           same_case_upto_ties c1 c2
           ∧ StronglySorted (key_rel AuthEvent.ts) (Case.timeline c1)
           ∧ StronglySorted (key_rel AuthEvent.ts) (Case.timeline c2)
           ∧ (NoDup (AuthEvent.ts <$> Case.timeline c1)
              ∨ (∀ ids, @set_order R1 ids = @set_order R2 ids) →
              same_case_upto_id c1 c2)).
Proof.
  intros Htd.
  pose proof (correlate_cases_any_runtime R1 R2 Htd uuid1 uuid2 alerts
                event_index window_hours) as Hruns.
  split; [done|]. intros cases1 cases2 H1 H2. rewrite H1, H2 in Hruns.
  inversion Hruns as [? ? Hf|]; subst. split; [by eapply Forall2_length|].
  intros i c1 c2 Hc1 Hc2.
  pose proof (Forall2_lookup_lr _ _ _ _ _ _ Hf Hc1 Hc2) as Hties.
  destruct (@correlate_cases_built R1 _ _ _ _ _ c1 H1
              (list_elem_of_lookup_2 _ _ _ Hc1)) as [k1 Hb1].
  destruct (@correlate_cases_built R2 _ _ _ _ _ c2 H2
              (list_elem_of_lookup_2 _ _ _ Hc2)) as [k2 Hb2].
  apply (@build_case_timeline R1) in Hb1 as [Ht1 _].
  apply (@build_case_timeline R2) in Hb2 as [Ht2 _].
  split; [done|].
  split; [rewrite Ht1; apply build_timeline_sorted|].
  split; [rewrite Ht2; apply build_timeline_sorted|].
  intros Hsame.
  destruct Hties as (Hu & Hs & He & Ha & Hsev & Hsc & Hsum & Hrec & _).
  repeat split; try done. rewrite Ht1, Ht2, <- Ha.
  destruct Hsame as [Hnd|Hset].
  - apply timeline_any_runtime_eq. by rewrite <- Ht1.
  - unfold correlate._build_timeline. by rewrite Hset.
Qed.

(** Two runs over the sample alerts that draw different identifiers and
    iterate sets in opposite orders: one case each; the three timeline
    events have distinct timestamps, so the cases are equal but for the
    case id. *)
Lemma correlate_cases_deterministic_witness :
  (∀ h, @timedelta_hours reference.runtime h
        = @timedelta_hours reference.reversed_runtime h)
  ∧ ∃ c1 c2,
      correlate.correlate_cases (H := reference.runtime) samples.uuid_a
        [samples.a1; samples.a2; samples.a3] samples.event_index 8
      = Some [c1]
      ∧ correlate.correlate_cases (H := reference.reversed_runtime)
          samples.uuid_b [samples.a1; samples.a2; samples.a3]
          samples.event_index 8
        = Some [c2]
      ∧ same_case_upto_id c1 c2
      ∧ Case.case_id c1 = "CASE-00000000"
      ∧ Case.case_id c2 = "CASE-FFFFFFF0".
Proof.
  split; [reflexivity|].
  pose proof (correlate_cases_deterministic reference.runtime
                reference.reversed_runtime samples.uuid_a samples.uuid_b
                [samples.a1; samples.a2; samples.a3] samples.event_index 8
                (λ h, eq_refl)) as [_ Hsame].
  destruct (correlate.correlate_cases (H := reference.runtime)
              samples.uuid_a _ _ _) as [[|c1 [|]]|]
    eqn:Ha; try (vm_compute in Ha; discriminate).
  destruct (correlate.correlate_cases (H := reference.reversed_runtime)
              samples.uuid_b _ _ _) as [[|c2 [|]]|]
    eqn:Hb; try (vm_compute in Hb; discriminate).
  destruct (Hsame [c1] [c2] eq_refl eq_refl) as [_ Hi].
  destruct (Hi 0%nat c1 c2 eq_refl eq_refl) as (_ & _ & _ & Hid).
  vm_compute in Ha, Hb. injection Ha as <-. injection Hb as <-.
  eexists _, _. split; [reflexivity|]. split; [reflexivity|].
  split; [|split; reflexivity].
  apply Hid. left. apply (bool_decide_unpack _). vm_compute. exact I.
Defined.
